(** * Typo: a hunspell-style spell checker (src/typo/typo.js)

    A shallow embedding of the dictionary builder, the word checker and the
    suggestion engine of [Typo], and the properties of the specification
    that were checked against it.

    Conventions of the embedding.
    - A JavaScript string is a Rocq [string]; its characters are the code
      units of the source string.  The case mappings and the numeric
      comparison of the host are the fields of the class [JsRuntime]; the
      instance [ascii_runtime] is the one used on concrete inputs, and
      [eszett_runtime] on a word that holds the letter ß.
    - A JavaScript object used as a map ([flags], [memoized], [rules],
      [compoundRuleCodes]) is a [gmap] of its own properties.  The
      dictionary table is a [Table]: its own properties and its prototype,
      which is [Object.prototype] until the word [__proto__] is
      registered.  A read [dictionaryTable[word]] also sees what the table
      inherits; [table_get] writes that out.  A directive without
      argument is a flag whose value is undefined.
    - The cache [memoized] is read through its own properties only: an
      instance whose cache has an own property named [hasOwnProperty],
      which no call of the program writes, is outside the model.
    - A compiled [RegExp] is the predicate "this string matches".
    - [throw] and the run-time errors of the host are the [Throw] outcomes
      of the monad [result]. *)

From Stdlib Require Import ZArith Ascii.
From stdpp Require Import base option list strings gmap fin_maps.

(** ** Outcomes of a call *)

Inductive exn : Type :=
  | NotLoaded        (* throw "Dictionary not loaded." *)
  | TypeError        (* a property of undefined or null is read *)
  | ReferenceError   (* an identifier that is not declared is read *)
  | OutOfFuel.       (* the model's recursion budget ran out *)

Inductive result (A : Type) : Type :=
  | Ok (a : A)
  | Throw (e : exn).

Arguments Ok {A} a.
Arguments Throw {A} e.

#[global] Instance exn_eq_dec : EqDecision exn.
Proof. solve_decision. Defined.

#[global] Instance result_eq_dec {A} `{EqDecision A} : EqDecision (result A).
Proof. solve_decision. Defined.

(** Sequencing: a [Throw] ends the computation. *)
Definition bind {A B : Type} (m : result A) (k : A -> result B) : result B :=
  match m with
  | Ok a => k a
  | Throw e => Throw e
  end.

Notation "x <- m ;; k" := (bind m (fun x => k))
  (at level 100, m at next level, right associativity).

Definition returns {A} (r : result A) : Prop := exists a, r = Ok a.

(** ** Strings of the host *)

Module JsString.

(** [s.substring(0, n)] for [n <= s.length]. *)
Fixpoint take (n : nat) (s : string) : string :=
  match n, s with
  | S n', String c s' => String c (take n' s')
  | _, _ => ""
  end.

(** [s.substring(n)]. *)
Fixpoint drop (n : nat) (s : string) : string :=
  match n, s with
  | S n', String _ s' => drop n' s'
  | _, _ => s
  end.

(** [s[i]]: the one-character string at index [i], or undefined. *)
Definition at_index (i : nat) (s : string) : option string :=
  match drop i s with
  | String c _ => Some (String c "")
  | "" => None
  end.

(** [x + s] where [x] is [s'[i]]: undefined is converted to the text
    "undefined". *)
Definition to_text (o : option string) : string :=
  match o with
  | Some c => c
  | None => "undefined"
  end.

(** [s.split('')]. *)
Fixpoint chars (s : string) : list string :=
  match s with
  | "" => []
  | String c s' => String c "" :: chars s'
  end.

(** The characters that [\s] and [trim] remove, among the code units
    below 256: tab, line feed, vertical tab, form feed, carriage return,
    space and the no-break space. *)
Definition is_space (c : ascii) : bool :=
  let n := nat_of_ascii c in
  ((9 <=? n) && (n <=? 13)) || (n =? 32) || (n =? 160).

(** [s.replace(/^\s\s*/, '')]. *)
Fixpoint trim_start (s : string) : string :=
  match s with
  | String c s' => if is_space c then trim_start s' else s
  | "" => ""
  end.

(** [s.replace(/\s\s*$/, '')]. *)
Fixpoint trim_end (s : string) : string :=
  match s with
  | String c s' =>
      match trim_end s' with
      | "" => if is_space c then "" else String c ""
      | t => String c t
      end
  | "" => ""
  end.

Definition trim (s : string) : string := trim_end (trim_start s).

(** [s.indexOf(p) !== -1] gives [is_Some (index_of p s)]; the value is
    the position of the first occurrence. *)
Fixpoint index_of_from (i : nat) (p s : string) : option nat :=
  if String.prefix p s then Some i
  else match s with
       | String _ s' => index_of_from (S i) p s'
       | "" => None
       end.

Definition index_of (p s : string) : option nat := index_of_from 0 p s.

(** The expansion of the [$] patterns of a replacement text when the
    pattern is a string (no capture groups): [$$], [$&], [$`], [$']. *)
Fixpoint substitution (matched before after repl : string) : string :=
  match repl with
  | String "$" (String "$" r) => "$" +:+ substitution matched before after r
  | String "$" (String "&" r) => matched +:+ substitution matched before after r
  | String "$" (String "`" r) => before +:+ substitution matched before after r
  | String "$" (String "'" r) => after +:+ substitution matched before after r
  | String c r => String c (substitution matched before after r)
  | "" => ""
  end.

(** [s.replace(p, r)] for a string pattern [p]: the first occurrence. *)
Definition replace_first (p r s : string) : string :=
  match index_of p s with
  | Some i =>
      let before := take i s in
      let after := drop (i + String.length p) s in
      before +:+ substitution p before after r +:+ after
  | None => s
  end.

(** [s.split(',')]. *)
Fixpoint split_on (sep : ascii) (s : string) : list string :=
  match s with
  | "" => [""]
  | String c s' =>
      if Ascii.eqb c sep then "" :: split_on sep s'
      else match split_on sep s' with
           | h :: t => String c h :: t
           | [] => [String c ""]
           end
  end.

End JsString.

(** What the embedding takes from the host: the two case mappings of
    strings and the comparison [n >= v] of a number with the text of a
    directive's argument. *)
Class JsRuntime : Type := {
  toUpperCase : string -> string;
  toLowerCase : string -> string;
  num_ge : nat -> string -> bool;
}.

Module Ascii7.

Definition upper_char (c : ascii) : ascii :=
  let n := nat_of_ascii c in
  if (97 <=? n) && (n <=? 122) then ascii_of_nat (n - 32) else c.

Definition lower_char (c : ascii) : ascii :=
  let n := nat_of_ascii c in
  if (65 <=? n) && (n <=? 90) then ascii_of_nat (n + 32) else c.

Fixpoint map_chars (f : ascii -> ascii) (s : string) : string :=
  match s with
  | "" => ""
  | String c s' => String (f c) (map_chars f s')
  end.

Definition digit (c : ascii) : option nat :=
  let n := nat_of_ascii c in
  if (48 <=? n) && (n <=? 57) then Some (n - 48) else None.

(** The value of a string of decimal digits; the empty string is 0 and
    any other text is not a number. *)
Fixpoint decimal (acc : nat) (s : string) : option nat :=
  match s with
  | "" => Some acc
  | String c s' =>
      match digit c with
      | Some d => decimal (10 * acc + d) s'
      | None => None
      end
  end.

Definition ge_text (n : nat) (v : string) : bool :=
  match decimal 0 v with
  | Some m => m <=? n
  | None => false
  end.

End Ascii7.

(** The host restricted to ASCII letters and to directive arguments
    written as decimal integers. *)
#[global] Instance ascii_runtime : JsRuntime := {|
  toUpperCase := Ascii7.map_chars Ascii7.upper_char;
  toLowerCase := Ascii7.map_chars Ascii7.lower_char;
  num_ge := Ascii7.ge_text;
|}.



(** ** Data model *)

(** A compiled regular expression, as its test on a string. *)
Definition RegExp : Type := string -> bool.

(** One entry of an affix rule.  [add] is the text to attach;
    [continuationClasses] is present only when the entry lists some;
    [match_] is the compiled condition, absent for the condition [.];
    [remove] is the effect of [w.replace(entry.remove, '')], absent when
    nothing is stripped. *)
Record AffixEntry : Type := {
  add : string;
  continuationClasses : option (list string);
  match_ : option RegExp;
  remove : option (string -> string);
}.

Inductive AffixKind : Type := PFX | SFX.

#[global] Instance AffixKind_eq_dec : EqDecision AffixKind.
Proof. solve_decision. Defined.

Record AffixRule : Type := {
  type : AffixKind;
  combineable : bool;
  entries : list AffixEntry;
}.

(** The value stored for a word of the dictionary table: [null], or the
    array of the rule-code sets the word was declared with. *)
Inductive TableValue : Type :=
  | null
  | sets (ruleCodes : list (list string)).

#[global] Instance TableValue_eq_dec : EqDecision TableValue.
Proof. solve_decision. Defined.

(** What [Object.getPrototypeOf] gives for the dictionary table:
    [Object.prototype], as for the object [{}] that [parseDIC] starts
    from, or null, after the assignment [dictionaryTable['__proto__'] =
    null]. *)
Inductive Prototype : Type := ObjectPrototype | NoPrototype.

#[global] Instance Prototype_eq_dec : EqDecision Prototype.
Proof. solve_decision. Defined.

(** The dictionary table: its own properties and its prototype. *)
Record Table : Type := {
  own : gmap string TableValue;
  prototype : Prototype;
}.

#[global] Instance Table_eq_dec : EqDecision Table.
Proof. solve_decision. Defined.

(** The object [{}]. *)
#[global] Instance Table_empty : Empty Table :=
  {| own := ∅; prototype := ObjectPrototype |}.

(** [t !! word] is the own property [word] of the table [t]. *)
#[global] Instance Table_lookup : Lookup string TableValue Table :=
  fun word t => own t !! word.

(** [memoized[word]]: [{suggestions, limit}]. *)
Module Memo.
Record t : Type := {
  suggestions : list string;
  limit : Z;
}.
End Memo.

#[global] Instance Memo_eq_dec : EqDecision Memo.t.
Proof. solve_decision. Defined.

(** The fields of a [Typo] instance that the lookups and the suggestion
    engine read or write.  [compoundRules] holds the compiled expressions,
    as after construction.  A flag has the value [None] when its
    directive has no argument: the value undefined. *)
Record Typo : Type := {
  dictionaryTable : Table;
  compoundRules : list RegExp;
  replacementTable : list (string * string);
  flags : gmap string (option string);
  memoized : gmap string Memo.t;
  loaded : bool;
  alphabet : string;
}.

(** *** Reading a JavaScript object *)

(** The property names every object inherits from [Object.prototype]. *)
Definition object_prototype_names : list string :=
  [ "constructor"; "hasOwnProperty"; "isPrototypeOf"; "propertyIsEnumerable";
    "toLocaleString"; "toString"; "valueOf"; "__defineGetter__";
    "__defineSetter__"; "__lookupGetter__"; "__lookupSetter__"; "__proto__" ].

Definition inherited (key : string) : bool :=
  bool_decide (key ∈ object_prototype_names).

(** The [length] of a member of [Object.prototype]: the number of
    parameters of a function; the prototype object that [__proto__]
    reads has none. *)
Definition member_length (key : string) : nat :=
  if bool_decide (key ∈ ["__defineGetter__"; "__defineSetter__"]) then 2
  else if bool_decide (key ∈ ["constructor"; "hasOwnProperty"; "isPrototypeOf";
                              "propertyIsEnumerable"; "__lookupGetter__";
                              "__lookupSetter__"]) then 1
  else 0.

(** What [dictionaryTable[word]] evaluates to. *)
Inductive TableRead : Type :=
  | RUndefined                            (* no such property *)
  | RNull                                 (* own property, null *)
  | RArray (ruleCodes : list (list string))   (* own property, an array *)
  | RInherited.                           (* a member of Object.prototype: a
                                             function, or for __proto__ the
                                             prototype object; its [length]
                                             counts no rule-code set *)

Definition table_get (t : Table) (word : string) : TableRead :=
  match own t !! word with
  | Some null => RNull
  | Some (sets rc) => RArray rc
  | None =>
      match prototype t with
      | ObjectPrototype => if inherited word then RInherited else RUndefined
      | NoPrototype => RUndefined
      end
  end.

(** [Object.prototype.hasOwnProperty.call(t, word)]. *)
Definition hasOwnProperty {V} (t : gmap string V) (word : string) : bool :=
  bool_decide (is_Some (t !! word)).

(** [t.hasOwnProperty(word)]: the member is called when the table
    inherits it; an own property of that name, which holds null or an
    array, is not a function, and neither is the undefined that a table
    without prototype yields. *)
Definition call_hasOwnProperty (t : Table) (word : string) : result bool :=
  match table_get t "hasOwnProperty" with
  | RInherited => Ok (hasOwnProperty (own t) word)
  | RUndefined | RNull | RArray _ => Throw TypeError
  end.

(** [word in t]. *)
Definition has_property (t : Table) (word : string) : bool :=
  hasOwnProperty (own t) word
  || match prototype t with
     | ObjectPrototype => inherited word
     | NoPrototype => false
     end.

(** [typeof v != 'object'] for the value [v] read for [word]: true for
    undefined and for a function.  Null and an array have the type
    'object'; so has the prototype object that [__proto__] reads. *)
Definition typeof_not_object (word : string) (v : TableRead) : bool :=
  match v with
  | RUndefined => true
  | RInherited => negb (bool_decide (word = "__proto__"))
  | RNull | RArray _ => false
  end.

(** [t[word] = v] where [word] becomes, or is, an own property of [t]. *)
Definition store (t : Table) (word : string) (v : TableValue) : Table :=
  {| own := <[word := v]> (own t); prototype := prototype t |}.

(** [t[word] = null].  For the word [__proto__] on a table that inherits
    the accessor of that name and has no own property to shadow it, the
    assignment calls the setter, which replaces the prototype by null and
    adds no property. *)
Definition assign_null (t : Table) (word : string) : Table :=
  if bool_decide (word = "__proto__")
     && negb (hasOwnProperty (own t) word)
     && bool_decide (prototype t = ObjectPrototype)
  then {| own := own t; prototype := NoPrototype |}
  else store t word null.

(** ** Flag codec *)

(** [textCodes.substr(i, 2)] for [i = 0, 2, 4, ...]. *)
Fixpoint two_by_two (s : string) : list string :=
  match s with
  | "" => []
  | String a "" => [String a ""]
  | String a (String b r) => String a (String b "") :: two_by_two r
  end.

(** [parseRuleCodes(textCodes)]; [None] is an undefined argument.  Under
    [FLAG num] the function reads [textCode], a name that no scope of the
    program declares.  [Array.from] yields the code points of the text,
    which for the one-unit characters of the model are its characters. *)
Definition parseRuleCodes (flags : gmap string string)
    (textCodes : option string) : result (list string) :=
  match textCodes with
  | None | Some "" => Ok []
  | Some textCodes =>
      match flags !! "FLAG" with
      | None => Ok (JsString.chars textCodes)
      | Some flag =>
          if bool_decide (flag = "long") then Ok (two_by_two textCodes)
          else if bool_decide (flag = "num") then Throw ReferenceError
          else if bool_decide (flag = "UTF-8") then Ok (JsString.chars textCodes)
          else Ok (JsString.chars textCodes)
      end
  end.

(** ** Rule applier *)

(** A loop whose body may throw. *)
Fixpoint for_each {A S : Type} (body : S -> A -> result S) (l : list A)
    (s : S) : result S :=
  match l with
  | [] => Ok s
  | x :: l' => s' <- body s x;; for_each body l' s'
  end.

(** [applyRule(word, rule)].  The source recurses through the continuation
    classes without a bound; [fuel] bounds the depth of the recursion.
    Rule codes have at most two characters, so a read of [rules] never
    reaches a member of [Object.prototype]. *)
Fixpoint applyRule (fuel : nat) (rules : gmap string AffixRule)
    (word : string) (rule : AffixRule) : result (list string) :=
  match fuel with
  | O => Throw OutOfFuel
  | S fuel' =>
      for_each (fun newWords entry =>
        if match match_ entry with None => true | Some re => re word end then
          let newWord := word in
          let newWord :=
            match remove entry with Some strip => strip newWord | None => newWord end in
          let newWord :=
            match type rule with
            | SFX => newWord +:+ add entry
            | PFX => add entry +:+ newWord
            end in
          let newWords := newWords ++ [newWord] in
          match continuationClasses entry with
          | Some classes =>
              for_each (fun newWords class =>
                match rules !! class with
                | Some continuationRule =>
                    more <- applyRule fuel' rules newWord continuationRule;;
                    Ok (newWords ++ more)
                | None => Ok newWords
                end) classes newWords
          | None => Ok newWords
          end
        else Ok newWords) (entries rule) []
  end.

(** ** Dictionary builder *)

(** A table on which [hasOwnProperty] can be called: it has kept its
    prototype, and has no own property of that name. *)
Definition callable (t : Table) : Prop :=
  prototype t = ObjectPrototype /\ t !! "hasOwnProperty" = None.

(** [addWord(word, rules)] of [parseDIC], on the table it closes over.
    The assignment of the empty array is made when [word] is not a
    property of the table, which after the first statement is the case
    only for [__proto__] on a table left without prototype; there it adds
    an own property, as for any other name ([addWord_array_is_stored]). *)
Definition addWord (dictionaryTable : Table) (word : string)
    (rules : list string) : result Table :=
  known <- call_hasOwnProperty dictionaryTable word;;
  let dictionaryTable :=
    if negb known then assign_null dictionaryTable word else dictionaryTable in
  if 0 <? length rules then
    let dictionaryTable :=
      if negb (has_property dictionaryTable word)
         || typeof_not_object word (table_get dictionaryTable word)
      then store dictionaryTable word (sets [])
      else dictionaryTable in
    (* dictionaryTable[word].push(rules) *)
    match table_get dictionaryTable word with
    | RArray ruleCodes => Ok (store dictionaryTable word (sets (ruleCodes ++ [rules])))
    | RNull | RUndefined | RInherited => Throw TypeError
    end
  else Ok dictionaryTable.

(** What [parseDIC] builds: the table it returns, and the words it
    pushes onto the lists of [this.compoundRuleCodes]. *)
Record Built : Type := {
  table : Table;
  compoundRuleCodes : gmap string (list string);
}.

(** The combination of a derived word with the later codes of the line
    (source lines 329-344). *)
Definition combine (fuel : nat) (rules : gmap string AffixRule)
    (rule : AffixRule) (later : list string)
    (t : Table) (newWord : string) : result Table :=
  if combineable rule then
    for_each (fun t combineCode =>
      match rules !! combineCode with
      | Some combineRule =>
          if combineable combineRule
             && negb (bool_decide (type rule = type combineRule)) then
            otherNewWords <- applyRule fuel rules newWord combineRule;;
            for_each (fun t otherNewWord => addWord t otherNewWord [])
              otherNewWords t
          else Ok t
      | None => Ok t
      end) later t
  else Ok t.

(** The loop over the codes of one line (source lines 317-350); [later]
    is [ruleCodesArray] from index [j + 1]. *)
Fixpoint each_code (fuel : nat) (rules : gmap string AffixRule)
    (word : string) (ruleCodesArray : list string) (b : Built) : result Built :=
  match ruleCodesArray with
  | [] => Ok b
  | code :: later =>
      t <- match rules !! code with
          | Some rule =>
              newWords <- applyRule fuel rules word rule;;
              for_each (fun t newWord =>
                t <- addWord t newWord [];;
                combine fuel rules rule later t newWord) newWords (table b)
          | None => Ok (table b)
          end;;
      let codes :=
        match compoundRuleCodes b !! code with
        | Some words => <[code := words ++ [word]]> (compoundRuleCodes b)
        | None => compoundRuleCodes b
        end in
      each_code fuel rules word later {| table := t; compoundRuleCodes := codes |}
  end.

(** The registration of the base word of a line [word/codes] (source lines
    313-315). *)
Definition register_base (flags : gmap string string) (word : string)
    (ruleCodesArray : list string) (t : Table) : result Table :=
  if negb (bool_decide (is_Some (flags !! "NEEDAFFIX")))
     || match flags !! "NEEDAFFIX" with
        | Some needaffix => negb (bool_decide (needaffix ∈ ruleCodesArray))
        | None => true
        end
  then addWord t word ruleCodesArray
  else Ok t.

(** The body of the loop of [parseDIC] for one line. *)
Definition parseDIC_line (fuel : nat) (flags : gmap string string)
    (rules : gmap string AffixRule) (b : Built) (line : string) : result Built :=
  match take 2 (JsString.split_on "/" line) with
  | [word; codes] =>
      ruleCodesArray <- parseRuleCodes flags (Some codes);;
      t <- register_base flags word ruleCodesArray (table b);;
      each_code fuel rules word ruleCodesArray
        {| table := t; compoundRuleCodes := compoundRuleCodes b |}
  | [word] =>
      t <- addWord (table b) (JsString.trim word) [];;
      Ok {| table := t; compoundRuleCodes := compoundRuleCodes b |}
  | _ => Ok b
  end.

(** [parseDIC], from the array [lines] that the source obtains by cleaning
    and splitting the file; the first line is the word count and is
    skipped.  [codes] is [this.compoundRuleCodes] on entry. *)
Definition parseDIC (fuel : nat) (flags : gmap string string)
    (rules : gmap string AffixRule) (codes : gmap string (list string))
    (lines : list string) : result Built :=
  for_each (parseDIC_line fuel flags rules) (drop 1 lines)
    {| table := ∅; compoundRuleCodes := codes |}.

(** ** Word checker *)

Section WordChecker.
Context `{JsRuntime}.

(** [Array.prototype.concat.apply([], dictionaryTable[word])], where [v]
    is the value read for [word]: the codes of all the sets of the word.
    For undefined and null nothing is concatenated; an inherited member
    is read as a list of arguments, as many undefined values as its
    [length] counts. *)
Definition all_codes (word : string) (v : TableRead) : list (option string) :=
  match v with
  | RArray ruleCodes => Some <$> concat ruleCodes
  | RInherited => replicate (member_length word) None
  | RUndefined | RNull => []
  end.

(** [hasFlag(word, flag, wordFlags)]; [None] is an omitted [wordFlags].
    The value of a flag is a text, or undefined.  A member of
    [Object.prototype] read as a flag value equals no element of
    [wordFlags], so [flag in flags] is the lookup of an own property. *)
Definition hasFlag (st : Typo) (word flag : string)
    (wordFlags : option (list string)) : result bool :=
  if negb (loaded st) then Throw NotLoaded
  else
    match flags st !! flag with
    | Some value =>
        let wordFlags :=
          match wordFlags with
          | Some given => Some <$> given
          | None => all_codes word (table_get (dictionaryTable st) word)
          end in
        Ok (bool_decide (value ∈ wordFlags))
    | None => Ok false
    end.

(** The loop of [checkExact] over the rule-code sets of a word. *)
Fixpoint some_set_standalone (st : Typo) (word : string)
    (ruleCodes : list (list string)) : result bool :=
  match ruleCodes with
  | [] => Ok false
  | codes :: rest =>
      only <- hasFlag st word "ONLYINCOMPOUND" (Some codes);;
      if negb only then Ok true else some_set_standalone st word rest
  end.

(** [checkExact(word)]. *)
Definition checkExact (st : Typo) (word : string) : result bool :=
  if negb (loaded st) then Throw NotLoaded
  else
    match table_get (dictionaryTable st) word with
    | RUndefined =>
        match flags st !! "COMPOUNDMIN" with
        | Some (Some compoundMin) =>
            if num_ge (String.length word) compoundMin
            then Ok (existsb (fun rule => rule word) (compoundRules st))
            else Ok false
        | Some None => Ok false         (* word.length >= undefined *)
        | None => Ok false
        end
    | RNull => Ok true
    | RArray ruleCodes => some_set_standalone st word ruleCodes
    | RInherited => Ok false
    end.

(** The branch of [check] for a word supplied in upper case (source lines
    482-498): [Some b] when the branch returns [b], [None] when control
    falls through. *)
Definition check_uppercase (st : Typo) (trimmedWord : string)
    : result (option bool) :=
  if bool_decide (toUpperCase trimmedWord = trimmedWord) then
    let capitalizedWord :=
      JsString.to_text (JsString.at_index 0 trimmedWord)
      +:+ toLowerCase (JsString.drop 1 trimmedWord) in
    keepcase <- hasFlag st capitalizedWord "KEEPCASE" None;;
    if keepcase then Ok (Some false)
    else
      capitalized <- checkExact st capitalizedWord;;
      if capitalized then Ok (Some true)
      else
        lowercase <- checkExact st (toLowerCase trimmedWord);;
        if lowercase then Ok (Some true) else Ok None
  else Ok None.

(** The rest of [check] (source lines 500-513). *)
Definition check_uncapitalized (st : Typo) (trimmedWord : string) : result bool :=
  match JsString.at_index 0 trimmedWord with
  | None => Throw TypeError     (* trimmedWord[0] is undefined *)
  | Some first =>
      let uncapitalized := toLowerCase first +:+ JsString.drop 1 trimmedWord in
      if negb (bool_decide (uncapitalized = trimmedWord)) then
        keepcase <- hasFlag st uncapitalized "KEEPCASE" None;;
        if keepcase then Ok false
        else checkExact st uncapitalized
      else Ok false
  end.

(** [check(aWord)]. *)
Definition check (st : Typo) (aWord : string) : result bool :=
  if negb (loaded st) then Throw NotLoaded
  else
    let trimmedWord := JsString.trim aWord in
    exact <- checkExact st trimmedWord;;
    if exact then Ok true
    else
      upper <- check_uppercase st trimmedWord;;
      match upper with
      | Some answer => Ok answer
      | None => check_uncapitalized st trimmedWord
      end.

End WordChecker.

(** ** Suggestion engine *)

(** [limit || 5]: an omitted limit and the limit 0 are both replaced by 5.
    Limits are integers. *)
Definition limit_or_default (limit : option Z) : Z :=
  match limit with
  | None | Some 0%Z => 5%Z
  | Some n => n
  end.

(** [l.slice(0, n)]: a negative [n] counts from the end. *)
Definition slice_to {A : Type} (n : Z) (l : list A) : list A :=
  if (n <? 0)%Z then take (Z.to_nat (Z.of_nat (length l) + n)) l
  else take (Z.to_nat n) l.

(** The test at the head of [suggest] (source lines 592-598): the list
    returned from the cache, when there is one to return. *)
Definition cached (memoized : gmap string Memo.t) (word : string)
    (limit : Z) : option (list string) :=
  match memoized !! word with
  | Some memo =>
      let memoizedLimit := Memo.limit memo in
      if (limit <=? memoizedLimit)%Z
         || (Z.of_nat (length (Memo.suggestions memo)) <? memoizedLimit)%Z
      then Some (slice_to limit (Memo.suggestions memo))
      else None
  | None => None
  end.

Definition set_alphabet (st : Typo) (letters : string) : Typo :=
  {| dictionaryTable := dictionaryTable st;
     compoundRules := compoundRules st;
     replacementTable := replacementTable st;
     flags := flags st;
     memoized := memoized st;
     loaded := loaded st;
     alphabet := letters |}.

(** [this.memoized[word] = {suggestions: ..., limit: ...}]. *)
Definition memoize (st : Typo) (word : string) (memo : Memo.t) : Typo :=
  {| dictionaryTable := dictionaryTable st;
     compoundRules := compoundRules st;
     replacementTable := replacementTable st;
     flags := flags st;
     memoized := <[word := memo]> (memoized st);
     loaded := loaded st;
     alphabet := alphabet st |}.

(** The alphabet that [suggest] assigns to [self.alphabet] (source line
    616). *)
Definition letters : string := "abcdefghijklmnopqrstuvwxyz".

(** *** Edits *)

(** [splits]: the pairs [[word.substring(0, i), word.substring(i)]] for
    [i] from 0 to the length of the word. *)
Definition splits (word : string) : list (string * string) :=
  map (fun i => (JsString.take i word, JsString.drop i word))
      (seq 0 (String.length word + 1)).

(** The first loop: remove a letter. *)
Definition deletes_of (splits : list (string * string)) : list string :=
  flat_map (fun s =>
    match s.2 with
    | String _ rest => [s.1 +:+ rest]
    | "" => []
    end) splits.

(** The second loop: transpose two adjacent letters that differ. *)
Definition transposes_of (splits : list (string * string)) : list string :=
  flat_map (fun s =>
    match s.2 with
    | String a (String b rest) =>
        if negb (Ascii.eqb b a) then [s.1 +:+ String b (String a rest)] else []
    | _ => []
    end) splits.

(** The third loop: replace a letter by each letter of the alphabet. *)
Definition replaces_of (alphabet : string) (splits : list (string * string))
    : list string :=
  flat_map (fun s =>
    match s.2 with
    | String _ rest =>
        map (fun letter => s.1 +:+ letter +:+ rest) (JsString.chars alphabet)
    | "" => []
    end) splits.

(** The fourth loop: put each letter of the alphabet in front of the
    second part of the split, when that part is not empty. *)
Definition inserts_of (alphabet : string) (splits : list (string * string))
    : list string :=
  flat_map (fun s =>
    match s.2 with
    | String _ _ =>
        map (fun letter => s.1 +:+ letter +:+ s.2) (JsString.chars alphabet)
    | "" => []
    end) splits.

(** The body of the loop of [edits1] for one word.  The fourth loop pushes
    onto [replaces]; the array [inserts] stays empty. *)
Definition edits1_word (alphabet : string) (word : string) : list string :=
  let splits := splits word in
  let deletes := deletes_of splits in
  let transposes := transposes_of splits in
  let replaces := replaces_of alphabet splits ++ inserts_of alphabet splits in
  let inserts : list string := [] in
  deletes ++ transposes ++ replaces ++ inserts.

(** [edits1(words, known_only)]; the second argument is not read. *)
Definition edits1 (alphabet : string) (words : list string) : list string :=
  flat_map (edits1_word alphabet) words.

Section SuggestionEngine.
Context `{JsRuntime}.

(** The scan of the replacement table (source lines 604-613): the
    corrected word that [suggest] returns, when an entry yields one. *)
Fixpoint replacement (st : Typo) (word : string)
    (replacementTable : list (string * string)) : result (option string) :=
  match replacementTable with
  | [] => Ok None
  | replacementEntry :: rest =>
      if bool_decide (is_Some (JsString.index_of replacementEntry.1 word)) then
        let correctedWord :=
          JsString.replace_first replacementEntry.1 replacementEntry.2 word in
        valid <- check st correctedWord;;
        if valid then Ok (Some correctedWord)
        else replacement st word rest
      else replacement st word rest
  end.

(** [known(words)]. *)
Fixpoint known (st : Typo) (words : list string) : result (list string) :=
  match words with
  | [] => Ok []
  | word :: rest =>
      valid <- check st word;;
      rv <- known st rest;;
      Ok (if valid then word :: rv else rv)
  end.

(** [correct(word)], with the final value of the variable [limit] that it
    shares with [suggest].  Source lines 710-743 build
    [weighted_corrections], [sorted_corrections] and
    [capitalization_scheme] from [corrections] and [word]; they call
    nothing that can throw, and only the loop of line 745 reads what they
    build.  The first clause of that loop evaluates
    [Math.min(limit, sortedcorrections.length)], and no scope of the
    program declares [sortedcorrections]. *)
Definition correct (st : Typo) (word : string) (limit : Z)
    : result (list string * Z) :=
  let ed1 := edits1 (alphabet st) [word] in
  let ed2 := edits1 (alphabet st) ed1 in
  known1 <- known st ed1;;
  known2 <- known st ed2;;
  let corrections := known1 ++ known2 in
  Throw ReferenceError.

(** [suggest(word, limit)]: the outcome of the call and the instance after
    it. *)
Definition suggest (st : Typo) (word : string) (limit : option Z)
    : result (list string) * Typo :=
  if negb (loaded st) then (Throw NotLoaded, st)
  else
    let limit := limit_or_default limit in
    match cached (memoized st) word limit with
    | Some reused => (Ok reused, st)
    | None =>
        match check st word with
        | Throw e => (Throw e, st)
        | Ok true => (Ok [], st)
        | Ok false =>
            match replacement st word (replacementTable st) with
            | Throw e => (Throw e, st)
            | Ok (Some correctedWord) => (Ok [correctedWord], st)
            | Ok None =>
                let st := set_alphabet st letters in
                match correct st word limit with
                | Throw e => (Throw e, st)
                | Ok (rv, limit) =>
                    (Ok rv,
                     memoize st word {| Memo.suggestions := rv; Memo.limit := limit |})
                end
            end
        end
    end.

End SuggestionEngine.

(** * Notions of the specification *)

(** "The set [codes] carries the configured flag [flag]": the directive is
    configured and its value is one of the codes. *)
Definition carries_flag (st : Typo) (flag : string) (codes : list string) : bool :=
  match flags st !! flag with
  | Some (Some value) => bool_decide (value ∈ codes)
  | Some None | None => false
  end.

(** "COMPOUNDMIN is configured, the length of the word is at least
    COMPOUNDMIN, and the word matches at least one compiled compound
    rule". *)
Definition compound_word `{JsRuntime} (st : Typo) (word : string) : bool :=
  match flags st !! "COMPOUNDMIN" with
  | Some (Some compoundMin) =>
      num_ge (String.length word) compoundMin
      && existsb (fun rule => rule word) (compoundRules st)
  | Some None | None => false
  end.

(** "The table inherits the name [word] from [Object.prototype]": the
    name is one of the members, and the table has kept its prototype. *)
Definition inherits (t : Table) (word : string) : bool :=
  inherited word && bool_decide (prototype t = ObjectPrototype).

(** "The word is read from the table as a function that takes
    arguments": it is not stored, the table inherits it, and the member of
    that name has a positive [length]. *)
Definition reads_arguments (t : Table) (word : string) : bool :=
  bool_decide (t !! word = None) && inherits t word && (0 <? member_length word).

(** "The requested limit is at most the cached limit, or the cached list
    is shorter than the cached limit". *)
Definition reusable (memo : Memo.t) (limit : Z) : Prop :=
  (limit <= Memo.limit memo)%Z
  \/ (Z.of_nat (length (Memo.suggestions memo)) < Memo.limit memo)%Z.

(** The instance without what it cached for [word]. *)
Definition uncache (st : Typo) (word : string) : Typo :=
  {| dictionaryTable := dictionaryTable st;
     compoundRules := compoundRules st;
     replacementTable := replacementTable st;
     flags := flags st;
     memoized := delete word (memoized st);
     loaded := loaded st;
     alphabet := alphabet st |}.

(** Two instances that answer lookups alike: they differ at most in what
    is cached and in the alphabet. *)
Definition same_lookups (st st' : Typo) : Prop :=
  dictionaryTable st = dictionaryTable st'
  /\ compoundRules st = compoundRules st'
  /\ flags st = flags st'
  /\ loaded st = loaded st'
  /\ replacementTable st = replacementTable st'.

(** Words of lowercase ASCII letters, and their capitalized form (first
    letter in upper case, the rest in lower case). *)
Fixpoint all_chars (p : ascii -> bool) (s : string) : bool :=
  match s with
  | "" => true
  | String c s' => p c && all_chars p s'
  end.

Definition is_lower_letter (c : ascii) : bool :=
  let n := nat_of_ascii c in (97 <=? n) && (n <=? 122).


Definition capitalized (w : string) : string :=
  match w with
  | "" => ""
  | String c rest =>
      String (Ascii7.upper_char c) (Ascii7.map_chars Ascii7.lower_char rest)
  end.

Fixpoint last_char (s : string) : option ascii :=
  match s with
  | "" => None
  | String c "" => Some c
  | String _ s' => last_char s'
  end.

(** ** Engines used on concrete inputs *)

(** A loaded engine with the given table, flags, compound rules and
    replacement table, and nothing cached. *)
Definition engine (t : gmap string TableValue) (f : gmap string string)
    (compound : list RegExp) (rep : list (string * string)) : Typo :=
  {| dictionaryTable := {| own := t; prototype := ObjectPrototype |};
     compoundRules := compound;
     replacementTable := rep;
     flags := Some <$> f;
     memoized := ∅;
     loaded := true;
     alphabet := "" |}.

(** A compound rule compiled from the flag sequence [AB], where flag A
    covers [first] and flag B covers [second]: the expression
    [(first)(second)] with the flag [i], which matches any text that
    contains the two words in a row, whatever the case. *)
Definition two_part_rule (first second : string) : RegExp :=
  fun text =>
    bool_decide (is_Some (JsString.index_of (first +:+ second)
                            (Ascii7.map_chars Ascii7.lower_char text))).

Definition sunshine_engine : Typo :=
  engine {["sun" := sets [["A"]]; "shine" := sets [["B"]]]}
         {["COMPOUNDMIN" := "3"]} [two_part_rule "sun" "shine"] [].

Definition constructor_engine : Typo :=
  engine {["con" := sets [["A"]]; "structor" := sets [["B"]]]}
         {["COMPOUNDMIN" := "3"]} [two_part_rule "con" "structor"] [].

(** The engine that the dictionary con/AN, structor/BN, [__proto__]
    leaves under NEEDAFFIX N, COMPOUNDMIN 3 and the compound rule AB
    ([construct_bare_engine]): no word is stored, and the table has lost
    its prototype to the last line. *)
Definition bare_engine : Typo :=
  {| dictionaryTable := {| own := ∅; prototype := NoPrototype |};
     compoundRules := [two_part_rule "con" "structor"];
     replacementTable := [];
     flags := {["NEEDAFFIX" := Some "N"; "COMPOUNDMIN" := Some "3"]};
     memoized := ∅;
     loaded := true;
     alphabet := "" |}.

(** The words cat, act and the, without flags; a replacement table that
    turns teh into the. *)
Definition cat_engine : Typo :=
  engine {["cat" := null; "act" := null; "the" := null]} ∅ [] [("teh", "the")].





(** [cat_engine] with three suggestions cached for teh under the limit
    3. *)
Definition memo_engine : Typo :=
  {| dictionaryTable := dictionaryTable cat_engine;
     compoundRules := [];
     replacementTable := replacementTable cat_engine;
     flags := ∅;
     memoized :=
       {["teh" := {| Memo.suggestions := ["the"; "tea"; "ten"]; Memo.limit := 3 |}]};
     loaded := true;
     alphabet := "" |}.

(** * Notions used by the further properties *)

(** A table none of whose words carries rule codes, the word [__proto__]
    apart. *)
Definition all_null (t : Table) : Prop :=
  forall word value, t !! word = Some value -> word <> "__proto__" -> value = null.

(** A line without the character [/]. *)
Definition no_slash (line : string) : bool :=
  all_chars (fun c => negb (Ascii.eqb c "/")) line.


(** * Cleaning the text of the files *)

Module Text.

(** The line terminators of a regular expression, among the code units
    below 256: line feed and carriage return.  [^] and [$] with the flag
    [m] hold next to them, and [.] does not match them. *)
Definition is_terminator (c : ascii) : bool :=
  let n := nat_of_ascii c in (n =? 10) || (n =? 13).

Inductive Scan : Type :=
  | LineStart     (* at the start of the text or after a line terminator *)
  | InLine        (* elsewhere *)
  | Dropping.     (* inside a match that is being removed *)

Definition after (c : ascii) : Scan :=
  if is_terminator c then LineStart else InLine.

(** [data.replace(/^\t.*$/mg, '')]: a line that starts with a tab loses
    its characters; its terminator stays. *)
Fixpoint drop_tab_lines (state : Scan) (data : string) : string :=
  match data with
  | "" => ""
  | String c rest =>
      match state with
      | LineStart =>
          if Ascii.eqb c "009" then drop_tab_lines Dropping rest
          else String c (drop_tab_lines (after c) rest)
      | InLine => String c (drop_tab_lines (after c) rest)
      | Dropping =>
          if is_terminator c then String c (drop_tab_lines LineStart rest)
          else drop_tab_lines Dropping rest
      end
  end.

(** Whether the text is a run of whitespace followed by [#]. *)
Fixpoint hash_after_spaces (data : string) : bool :=
  match data with
  | "" => false
  | String c rest =>
      if Ascii.eqb c "#" then true
      else if JsString.is_space c then hash_after_spaces rest
      else false
  end.

(** [data.replace(/^\s*#/mg, '')]: at the start of a line, the whitespace
    (line terminators included) that leads to a [#], and that [#], are
    removed; what follows the [#] stays. *)
Fixpoint drop_hashes (state : Scan) (data : string) : string :=
  match data with
  | "" => ""
  | String c rest =>
      match state with
      | LineStart =>
          if hash_after_spaces data then
            if Ascii.eqb c "#" then drop_hashes InLine rest
            else drop_hashes Dropping rest
          else String c (drop_hashes (after c) rest)
      | InLine => String c (drop_hashes (after c) rest)
      | Dropping =>
          if Ascii.eqb c "#" then drop_hashes InLine rest
          else drop_hashes Dropping rest
      end
  end.

(** [data.replace(/^\s\s*/m, '')]: the first run of whitespace that begins
    at the start of a line is removed; the expression has no flag [g]. *)
Fixpoint trim_first_line_start (state : Scan) (data : string) : string :=
  match data with
  | "" => ""
  | String c rest =>
      match state with
      | LineStart =>
          if JsString.is_space c then JsString.trim_start rest
          else String c (trim_first_line_start (after c) rest)
      | _ => String c (trim_first_line_start (after c) rest)
      end
  end.

(** What is left of a run of whitespace when the longest prefix that ends
    in front of a line terminator, and is not empty, is removed; [None]
    when the run has no such prefix.  [seen] tells whether a character of
    the run precedes [run]. *)
Fixpoint cut_at_last_terminator (seen : bool) (run : string) : option string :=
  match run with
  | "" => None
  | String c rest =>
      match cut_at_last_terminator true rest with
      | Some kept => Some kept
      | None => if seen && is_terminator c then Some run else None
      end
  end.

(** [data.replace(/\s\s*$/m, '')]: the first run of whitespace that
    reaches the end of the text, or a line terminator past its first
    character, is removed up to that end, or up to the last such
    terminator; the expression has no flag [g].  [run] is the run of
    whitespace being read, when there is one; a run that is still being
    read at the end of the text is the one removed. *)
Fixpoint trim_first_line_end (run : option string) (data : string) : string :=
  match data with
  | "" => ""
  | String c rest =>
      if JsString.is_space c then
        trim_first_line_end
          (Some (match run with Some r => r +:+ String c "" | None => String c "" end))
          rest
      else
        match run with
        | Some r =>
            match cut_at_last_terminator false r with
            | Some kept => kept +:+ data
            | None => r +:+ String c (trim_first_line_end None rest)
            end
        | None => String c (trim_first_line_end None rest)
        end
  end.

(** [data.replace(/\n{2,}/g, '\n')]; [afterNewline] tells whether the
    character before [data] is a line feed. *)
Fixpoint collapse_newlines (afterNewline : bool) (data : string) : string :=
  match data with
  | "" => ""
  | String c rest =>
      if Ascii.eqb c "010" then
        if afterNewline then collapse_newlines true rest
        else String c (collapse_newlines true rest)
      else String c (collapse_newlines false rest)
  end.

(** The four steps that the two functions share (source lines 264-271 and
    371-378). *)
Definition tidy (data : string) : string :=
  let data := trim_first_line_end None (trim_first_line_start LineStart data) in
  let data := collapse_newlines false data in
  JsString.trim_end (JsString.trim_start data).

(** [data.split(/\r?\n/)]. *)
Fixpoint split_lines (data : string) : list string :=
  match data with
  | "" => [""]
  | String "010" rest => "" :: split_lines rest
  | String "013" (String "010" rest) => "" :: split_lines rest
  | String c rest =>
      match split_lines rest with
      | line :: lines => String c line :: lines
      | [] => [String c ""]
      end
  end.

End Text.

(** [removeDicComments(data)]. *)
Definition removeDicComments (data : string) : string :=
  Text.tidy (Text.drop_tab_lines Text.LineStart data).

(** [removeAffixComments(data)]. *)
Definition removeAffixComments (data : string) : string :=
  Text.tidy (Text.drop_hashes Text.LineStart data).


(** * Construction of the engine *)

(** The outcomes of the code that builds an engine: those of [result], and
    the SyntaxError of [new RegExp]. *)
Inductive outcome (A : Type) : Type :=
  | Returned (a : A)
  | Thrown (e : exn)
  | SyntaxError.

Arguments Returned {A} a.
Arguments Thrown {A} e.
Arguments SyntaxError {A}.

Definition and_then {A B : Type} (m : outcome A) (k : A -> outcome B) : outcome B :=
  match m with
  | Returned a => k a
  | Thrown e => Thrown e
  | SyntaxError => SyntaxError
  end.

Notation "x <~ m ;; k" := (and_then m (fun x => k))
  (at level 100, m at next level, right associativity).

Definition of_result {A : Type} (r : result A) : outcome A :=
  match r with
  | Ok a => Returned a
  | Throw e => Thrown e
  end.

(** [new RegExp(source)], [None] when the source is not a valid pattern:
    the test [w.match(re)] of the expression, the effect
    [w.replace(re, '')] of it, and the test of the expression compiled
    with the flag [i]. *)
Class JsRegExp : Type := {
  regexp_test : string -> option RegExp;
  regexp_strip : string -> option (string -> string);
  regexp_test_i : string -> option RegExp;
}.

Definition compiled {A : Type} (o : option A) : outcome A :=
  match o with
  | Some a => Returned a
  | None => SyntaxError
  end.

(** [line.split(/\s+/)]; [current] is the piece being read. *)
Fixpoint split_spaces_from (current : string) (inRun : bool) (line : string)
    : list string :=
  match line with
  | "" => [current]
  | String c rest =>
      if JsString.is_space c then
        if inRun then split_spaces_from current true rest
        else current :: split_spaces_from "" true rest
      else split_spaces_from (current +:+ String c "") false rest
  end.

Definition split_spaces (line : string) : list string :=
  split_spaces_from "" false line.

(** The value of the longest prefix of decimal digits; [None] when there
    is none. *)
Fixpoint digits_prefix (acc : option Z) (s : string) : option Z :=
  match s with
  | "" => acc
  | String c rest =>
      match Ascii7.digit c with
      | Some d => digits_prefix (Some (10 * default 0%Z acc + Z.of_nat d)%Z) rest
      | None => acc
      end
  end.

(** [parseInt(token, 10)] for a token without whitespace, or for an
    undefined one; [None] is NaN.  The host rounds a value beyond 2^53;
    the loops of [parseAFF], which compare it with the number of lines,
    do not tell the rounded value from the exact one. *)
Definition parseInt (token : option string) : option Z :=
  match token with
  | None => None
  | Some (String "-" rest) => Z.opp <$> digits_prefix None rest
  | Some (String "+" rest) => digits_prefix None rest
  | Some text => digits_prefix None text
  end.

(** What [parseAFF] builds: the rules it returns, and the fields of the
    instance it writes.  A directive without argument is stored with the
    value undefined; an entry of [compoundRules] is undefined when its
    line has a single token. *)
Module Affix.
Record t : Type := {
  rules : gmap string AffixRule;
  flags : gmap string (option string);
  compoundRules : list (option string);
  replacementTable : list (string * string);
}.
End Affix.

(** The directives that have a value.  The parsers read of the flags FLAG
    and NEEDAFFIX only, and a directive without value is to them as an
    absent one: an undefined FLAG names none of the schemes of
    [parseRuleCodes], and an undefined NEEDAFFIX is among the codes of no
    word. *)
Definition defined_flags (flags : gmap string (option string))
    : gmap string string :=
  omap id flags.

Section AffixParser.
Context `{JsRegExp}.

(** One entry line of a PFX or SFX block (source lines 174-209). *)
Definition parse_entry (ruleType : AffixKind) (flags : gmap string string)
    (line : string) : outcome AffixEntry :=
  let lineParts := split_spaces line in
  let charactersToRemove := lineParts !! 2 in
  match lineParts !! 3 with
  | None => Thrown TypeError       (* lineParts[3].split *)
  | Some addition =>
      let additionParts := JsString.split_on "/" addition in
      let charactersToAdd := default "" (additionParts !! 0) in
      let charactersToAdd :=
        if bool_decide (charactersToAdd = "0") then "" else charactersToAdd in
      continuationClasses <~ of_result (parseRuleCodes flags (additionParts !! 1));;
      let regexToMatch := lineParts !! 4 in
      matching <~
        (if bool_decide (regexToMatch = Some ".") then Returned None
         else
           match ruleType with
           | SFX => re <~ compiled (regexp_test (JsString.to_text regexToMatch +:+ "$"));;
                    Returned (Some re)
           | PFX => re <~ compiled (regexp_test ("^" +:+ JsString.to_text regexToMatch));;
                    Returned (Some re)
           end);;
      removing <~
        (if bool_decide (charactersToRemove = Some "0") then Returned None
         else
           match ruleType with
           | SFX => strip <~ compiled
                      (regexp_strip (JsString.to_text charactersToRemove +:+ "$"));;
                    Returned (Some strip)
           | PFX =>
               match charactersToRemove with
               | Some (String _ _ as text) =>
                   Returned (Some (JsString.replace_first text ""))
               | _ => Returned None
               end
           end);;
      Returned {| add := charactersToAdd;
                  continuationClasses :=
                    if 0 <? length continuationClasses
                    then Some continuationClasses else None;
                  match_ := matching;
                  remove := removing |}
  end.

(** The entries read from the lines of a block, in their order. *)
Fixpoint read_entries {A : Type} (body : string -> outcome A) (ls : list string)
    : outcome (list A) :=
  match ls with
  | [] => Returned []
  | l :: ls' => a <~ body l;; more <~ read_entries body ls';; Returned (a :: more)
  end.

(** The lines [lines[i + 1]] to [lines[i + numEntries]] that a block
    reads, each handed to [body]; a line past the end of the array is
    undefined, and reading it throws.  [following] is the array from index
    [i + 1]. *)
Definition block {A : Type} (body : string -> outcome A) (numEntries : option Z)
    (following : list string) : outcome (list A) :=
  match numEntries with
  | None => Returned []
  | Some n =>
      let wanted := Z.to_nat n in
      read <~ read_entries body (take wanted following);;
      if length following <? wanted then Thrown TypeError else Returned read
  end.

(** The body of the loop of [parseAFF] for the line [lines[i]] (source
    lines 160-246): the state after it, and the index after [i += ...];
    [None] is NaN.  The maps hold the own properties of [rules] and of
    [this.flags]: an assignment to [__proto__] adds none (that of a rule
    changes the prototype of [rules], whose properties type, combineable
    and entries no rule code of one or two characters names; that of a
    string or of undefined does nothing). *)
Definition parseAFF_line (lines : list string) (i : nat) (line : string)
    (st : Affix.t) : outcome (Affix.t * option Z) :=
  let definitionParts := split_spaces line in
  let ruleType := default "" (definitionParts !! 0) in
  let following := drop (S i) lines in
  let advance (numEntries : option Z) : option Z :=
    (fun n => Z.of_nat i + n)%Z <$> numEntries in
  if bool_decide (ruleType = "PFX") || bool_decide (ruleType = "SFX") then
    let kind := if bool_decide (ruleType = "SFX") then SFX else PFX in
    let ruleCode := definitionParts !! 1 in
    let combineable := definitionParts !! 2 in
    let numEntries := parseInt (definitionParts !! 3) in
    entries <~ block (parse_entry kind (defined_flags (Affix.flags st)))
                 numEntries following;;
    let rule := {| type := kind;
                   combineable := bool_decide (combineable = Some "Y");
                   entries := entries |} in
    Returned
      ({| Affix.rules := if bool_decide (ruleCode = Some "__proto__")
                         then Affix.rules st
                         else <[JsString.to_text ruleCode := rule]> (Affix.rules st);
          Affix.flags := Affix.flags st;
          Affix.compoundRules := Affix.compoundRules st;
          Affix.replacementTable := Affix.replacementTable st |},
       advance numEntries)
  else if bool_decide (ruleType = "COMPOUNDRULE") then
    let numEntries := parseInt (definitionParts !! 1) in
    texts <~ block (fun l => Returned (split_spaces l !! 1)) numEntries following;;
    Returned
      ({| Affix.rules := Affix.rules st;
          Affix.flags := Affix.flags st;
          Affix.compoundRules := Affix.compoundRules st ++ texts;
          Affix.replacementTable := Affix.replacementTable st |},
       advance numEntries)
  else if bool_decide (ruleType = "REP") then
    match definitionParts with
    | [_; pattern; substitute] =>
        Returned
          ({| Affix.rules := Affix.rules st;
              Affix.flags := Affix.flags st;
              Affix.compoundRules := Affix.compoundRules st;
              Affix.replacementTable := Affix.replacementTable st ++ [(pattern, substitute)] |},
           Some (Z.of_nat i))
    | _ => Returned (st, Some (Z.of_nat i))
    end
  else
    Returned
      ({| Affix.rules := Affix.rules st;
          Affix.flags := if bool_decide (ruleType = "__proto__")
                         then Affix.flags st
                         else <[ruleType := definitionParts !! 1]> (Affix.flags st);
          Affix.compoundRules := Affix.compoundRules st;
          Affix.replacementTable := Affix.replacementTable st |},
       Some (Z.of_nat i)).

(** The loop of [parseAFF] from the index [i].  After a block with a
    negative count the index goes back, and the loop may not end: [fuel]
    bounds the number of its rounds. *)
Fixpoint parseAFF_from (fuel : nat) (lines : list string) (i : Z) (st : Affix.t)
    : outcome Affix.t :=
  match fuel with
  | O => Thrown OutOfFuel
  | S fuel' =>
      if (Z.of_nat (length lines) <=? i)%Z then Returned st
      else if (i <? 0)%Z then Thrown TypeError         (* lines[i].split *)
      else
        match lines !! Z.to_nat i with
        | None => Returned st
        | Some line =>
            next <~ parseAFF_line lines (Z.to_nat i) line st;;
            match next.2 with
            | None => Returned next.1                    (* NaN < len *)
            | Some j => parseAFF_from fuel' lines (j + 1) next.1
            end
        end
  end.

(** [parseAFF(data)], on the instance whose flags are [flags] and whose
    [compoundRules] and [replacementTable] are empty. *)
Definition parseAFF (fuel : nat) (flags : gmap string string) (data : string)
    : outcome Affix.t :=
  let lines := JsString.split_on "010" (removeAffixComments data) in
  parseAFF_from fuel lines 0
    {| Affix.rules := ∅;
       Affix.flags := Some <$> flags;
       Affix.compoundRules := [];
       Affix.replacementTable := [] |}.

End AffixParser.

(** ** The constructor *)

(** [this.compoundRuleCodes] after the loop of source lines 66-71: an
    empty list for each character of each compound rule.  An undefined
    compound rule has no [length]. *)
Definition rule_codes (compoundRules : list (option string))
    : result (gmap string (list string)) :=
  for_each (fun codes rule =>
    match rule with
    | Some text =>
        Ok (foldl (fun codes character => <[character := []]> codes)
              codes (JsString.chars text))
    | None => Throw TypeError
    end) compoundRules ∅.

(** The assignment of source lines 74-75: an empty list for the value of
    ONLYINCOMPOUND, undefined included. *)
Definition tracked_codes (codes : gmap string (list string))
    (flags : gmap string (option string)) : gmap string (list string) :=
  match flags !! "ONLYINCOMPOUND" with
  | Some onlyInCompound => <[JsString.to_text onlyInCompound := []]> codes
  | None => codes
  end.

(** The codes that are left once those without words are deleted (source
    lines 81-83). *)
Definition used_codes (codes : gmap string (list string)) : gmap string (list string) :=
  filter (fun entry => entry.2 <> []) codes.

(** [expressionText] for one compound rule (source lines 90-99). *)
Definition expressionText (codes : gmap string (list string)) (ruleText : string)
    : string :=
  foldl (fun text character =>
           match codes !! character with
           | Some words => text +:+ "(" +:+ String.concat "|" words +:+ ")"
           | None => text +:+ character
           end) "" (JsString.chars ruleText).

Section Constructor.
Context `{JsRegExp}.

(** The compilation of the compound rules (source lines 87-102). *)
Fixpoint compile_rules (codes : gmap string (list string))
    (compoundRules : list (option string)) : outcome (list RegExp) :=
  match compoundRules with
  | [] => Returned []
  | rule :: rest =>
      match rule with
      | None => Thrown TypeError
      | Some ruleText =>
          re <~ compiled (regexp_test_i (expressionText codes ruleText));;
          more <~ compile_rules codes rest;;
          Returned (re :: more)
      end
  end.

(** The instance that [new Typo()] is when no language is given. *)
Definition unloaded (flags : gmap string string) : Typo :=
  {| dictionaryTable := ∅;
     compoundRules := [];
     replacementTable := [];
     flags := Some <$> flags;
     memoized := ∅;
     loaded := false;
     alphabet := "" |}.

(** The body of the constructor from the parsing of the dictionary on
    (source lines 77-104); [codes] is [this.compoundRuleCodes].
    [parseDIC] reads of the flags NEEDAFFIX, which without value equals
    no rule code, and FLAG. *)
Definition build (fuel : nat) (aff : Affix.t) (codes : gmap string (list string))
    (dictionaryData : string) : outcome Typo :=
  built <~ of_result
    (parseDIC fuel (defined_flags (Affix.flags aff)) (Affix.rules aff) codes
       (Text.split_lines (removeDicComments dictionaryData)));;
  rules <~ compile_rules (used_codes (compoundRuleCodes built))
             (Affix.compoundRules aff);;
  Returned {| dictionaryTable := table built;
              compoundRules := rules;
              replacementTable := Affix.replacementTable aff;
              flags := Affix.flags aff;
              memoized := ∅;
              loaded := true;
              alphabet := "" |}.

(** [new Typo(language, affixData, dictionaryData, {flags: flags})].
    [None] is a construction that the embedding does not cover: one that
    reads a file because the data given is empty, and one that reaches
    the assignment of source line 75 with the value [__proto__] for
    ONLYINCOMPOUND, which turns [compoundRuleCodes] into an object that
    inherits from an array. *)
Definition construct (fuel : nat) (language affixData dictionaryData : string)
    (flags : gmap string string) : option (outcome Typo) :=
  if bool_decide (language = "") then Some (Returned (unloaded flags))
  else if bool_decide (affixData = "") || bool_decide (dictionaryData = "") then None
  else
    match parseAFF fuel flags affixData with
    | Returned aff =>
        match rule_codes (Affix.compoundRules aff) with
        | Ok codes =>
            if bool_decide (Affix.flags aff !! "ONLYINCOMPOUND"
                            = Some (Some "__proto__"))
            then None
            else Some (build fuel aff (tracked_codes codes (Affix.flags aff))
                         dictionaryData)
        | Throw e => Some (Thrown e)
        end
    | Thrown e => Some (Thrown e)
    | SyntaxError => Some SyntaxError
    end.

End Constructor.


(** ** Texts that the cleaning leaves as they are *)

(** Where a reading of a text stands: at its start, after a character that
    is not whitespace, inside a run of whitespace without line terminator,
    or after a line feed that follows such a character. *)
Inductive Place : Type := AtStart | AfterWord | InGap | AfterLineFeed.

(** A text is plain when it neither starts nor ends with whitespace, holds
    no carriage return, and has a character that is not whitespace on each
    side of every line feed. *)
Fixpoint plain_from (place : Place) (text : string) : bool :=
  match text with
  | "" =>
      match place with
      | AtStart | AfterWord => true
      | InGap | AfterLineFeed => false
      end
  | String c rest =>
      if negb (JsString.is_space c) then plain_from AfterWord rest
      else
        match place with
        | AfterWord =>
            if Ascii.eqb c "010" then plain_from AfterLineFeed rest
            else if Text.is_terminator c then false
            else plain_from InGap rest
        | InGap =>
            if Text.is_terminator c then false else plain_from InGap rest
        | AtStart | AfterLineFeed => false
        end
  end.

Definition plain (text : string) : bool := plain_from AtStart text.

(** A line of a plain text: not empty, plain, and without line feed. *)
Definition plain_line (line : string) : bool :=
  negb (bool_decide (line = ""))
  && plain line
  && all_chars (fun c => negb (Ascii.eqb c "010")) line.

(** [lines.join('\n')]. *)
Definition join_lines (lines : list string) : string :=
  String.concat (String "010" "") lines.

(** The state in which the cleaning functions read what follows a
    place. *)
Definition scan_of (place : Place) : Text.Scan :=
  match place with
  | AtStart | AfterLineFeed => Text.LineStart
  | AfterWord | InGap => Text.InLine
  end.

(** ** Notions for the properties of the affix file *)

(** The text of a line once a [#] at its start is removed. *)
Definition uncomment (line : string) : string :=
  match line with
  | String "#" rest => rest
  | _ => line
  end.

(** The characters of a text that are neither whitespace nor [#]. *)
Fixpoint marks (text : string) : string :=
  match text with
  | "" => ""
  | String c rest =>
      if JsString.is_space c || Ascii.eqb c "#" then marks rest
      else String c (marks rest)
  end.

(** The first token of a line, and the second one when there is one. *)
Definition keyword (line : string) : string :=
  default "" (split_spaces line !! 0).

Definition argument (line : string) : option string :=
  split_spaces line !! 1.

(** A line whose first token opens no block and is not REP. *)
Definition directive (line : string) : bool :=
  negb (bool_decide (keyword line ∈ ["PFX"; "SFX"; "COMPOUNDRULE"; "REP"])).

(** The last of the lines whose first token is [name]. *)
Fixpoint last_directive (name : string) (lines : list string) : option string :=
  match lines with
  | [] => None
  | line :: rest =>
      match last_directive name rest with
      | Some later => Some later
      | None => if bool_decide (keyword line = name) then Some line else None
      end
  end.

(** The flags once the directive [line] is read. *)
Definition set_flag (flags : gmap string (option string)) (line : string)
    : gmap string (option string) :=
  if bool_decide (keyword line = "__proto__") then flags
  else <[keyword line := argument line]> flags.

Definition with_flags (st : Affix.t) (flags : gmap string (option string)) : Affix.t :=
  {| Affix.rules := Affix.rules st;
     Affix.flags := flags;
     Affix.compoundRules := Affix.compoundRules st;
     Affix.replacementTable := Affix.replacementTable st |}.

(** ** A host for patterns of letters and digits *)

Definition is_alphanumeric (c : ascii) : bool :=
  let n := nat_of_ascii c in
  ((48 <=? n) && (n <=? 57)) || ((65 <=? n) && (n <=? 90))
  || ((97 <=? n) && (n <=? 122)).

Definition ends_with (suffix w : string) : bool :=
  (String.length suffix <=? String.length w)
  && bool_decide
       (JsString.drop (String.length w - String.length suffix) w = suffix).

(** The word [lit] of the source [^lit], and of the source [lit$]. *)
Definition anchored_start (source : string) : option string :=
  match source with
  | String "^" lit => if all_chars is_alphanumeric lit then Some lit else None
  | _ => None
  end.

Definition anchored_end (source : string) : option string :=
  let lit := JsString.take (String.length source - 1) source in
  if bool_decide (source = lit +:+ "$") && all_chars is_alphanumeric lit
  then Some lit else None.

(** The regular expressions whose source is a word of letters and digits,
    with the anchor that [parseAFF] adds: on these sources the instance is
    [new RegExp]; it compiles no other source. *)
#[export] Instance word_patterns : JsRegExp := {
  regexp_test source :=
    match anchored_start source with
    | Some lit => Some (String.prefix lit)
    | None => ends_with <$> anchored_end source
    end;
  regexp_strip source :=
    (fun lit w =>
       if ends_with lit w
       then JsString.take (String.length w - String.length lit) w else w)
    <$> anchored_end source;
  regexp_test_i source :=
    if all_chars is_alphanumeric source
    then Some (fun w =>
                 bool_decide
                   (is_Some (JsString.index_of
                               (Ascii7.map_chars Ascii7.lower_char source)
                               (Ascii7.map_chars Ascii7.lower_char w))))
    else None;
}.

(** ** Notions for the properties of the constructor and of the dictionary *)

(** A line of an affix file that sets a flag: plain, also without the
    [#] at its start, and then a directive, with or without an argument,
    whose argument is not [__proto__]. *)
Definition flag_line (line : string) : bool :=
  plain_line line
  && plain_line (uncomment line)
  && directive (uncomment line)
  && negb (bool_decide (argument (uncomment line) = Some "__proto__")).

(** A text after which a line starts: the empty text, and a text whose
    last character is a line terminator. *)
Fixpoint line_starts_after (text : string) : bool :=
  match text with
  | "" => true
  | String c rest =>
      match rest with
      | "" => Text.is_terminator c
      | _ => line_starts_after rest
      end
  end.

(** A text in front of which a line ends: the empty text, and a text
    whose first character is a line terminator. *)
Definition line_ends_before (text : string) : bool :=
  match text with
  | "" => true
  | String c _ => Text.is_terminator c
  end.

(** * The content script (spell.js) *)

(** [w.replace(/^'*(.*?)'*$/, '$1')]: the apostrophes at the two ends of
    the word are removed; the expression matches no word that holds a
    line terminator. *)
Fixpoint strip_quotes_start (word : string) : string :=
  match word with
  | String "'" rest => strip_quotes_start rest
  | _ => word
  end.

Fixpoint strip_quotes_end (word : string) : string :=
  match word with
  | "" => ""
  | String c rest =>
      match strip_quotes_end rest with
      | "" => if Ascii.eqb c "'" then "" else String c ""
      | kept => String c kept
      end
  end.

(** [clean(word)].  The first replacement, of the character U+2019, leaves
    the strings of the embedding as they are: their code units are below
    256. *)
Definition clean (word : string) : string :=
  let word :=
    if all_chars (fun c => negb (Text.is_terminator c)) word
    then strip_quotes_end (strip_quotes_start word)
    else word in
  JsString.replace_first "_" "" word.

(** [/^\d+$/.test(word)]. *)
Definition is_number (word : string) : bool :=
  negb (bool_decide (word = ""))
  && all_chars (fun c => bool_decide (is_Some (Ascii7.digit c))) word.

(** The test that marks a word of the page as misspelled (source line
    53): [!dict.check(clean(word)) && !/^\d+$/.test(word)]. *)
Definition misspelled `{JsRuntime} (dict : Typo) (word : string) : result bool :=
  valid <- check dict (clean word);;
  Ok (negb valid && negb (is_number word)).

(** A word that an apostrophe starts, and one that an apostrophe ends. *)
Definition starts_with_quote (word : string) : bool :=
  match word with
  | String "'" _ => true
  | _ => false
  end.

Fixpoint ends_with_quote (word : string) : bool :=
  match word with
  | "" => false
  | String c rest =>
      match rest with
      | "" => Ascii.eqb c "'"
      | _ => ends_with_quote rest
      end
  end.

(** * Properties *)

(** Closed statements about concrete inputs are settled by evaluation, one
    conjunct at a time. *)
Ltac by_evaluation :=
  repeat (match goal with |- _ /\ _ => split end); vm_compute; reflexivity.

(** ** Dictionary builder *)

Section AddWord.
Implicit Types (t : Table) (word : string) (rules : list string).

Lemma hasOwnProperty_true {V} (m : gmap string V) word v :
  m !! word = Some v -> hasOwnProperty m word = true.
Proof. intros E. unfold hasOwnProperty. apply bool_decide_eq_true. eauto. Qed.

Lemma hasOwnProperty_false {V} (m : gmap string V) word :
  m !! word = None -> hasOwnProperty m word = false.
Proof.
  intros E. unfold hasOwnProperty. apply bool_decide_eq_false.
  rewrite E. intros [v Hv]. discriminate.
Qed.

Lemma table_lookup t word : t !! word = own t !! word.
Proof. reflexivity. Qed.

Lemma table_get_null t word : t !! word = Some null -> table_get t word = RNull.
Proof. rewrite table_lookup. intros E. unfold table_get. now rewrite E. Qed.

Lemma table_get_sets t word rc :
  t !! word = Some (sets rc) -> table_get t word = RArray rc.
Proof. rewrite table_lookup. intros E. unfold table_get. now rewrite E. Qed.

Lemma store_lookup_eq t word v : store t word v !! word = Some v.
Proof. rewrite table_lookup. cbn [store own]. apply lookup_insert_eq. Qed.

Lemma store_lookup_ne t word v other :
  other <> word -> store t word v !! other = t !! other.
Proof.
  intros Hne. rewrite !table_lookup. cbn [store own].
  apply lookup_insert_ne. congruence.
Qed.

Lemma call_hasOwnProperty_callable t word :
  callable t -> call_hasOwnProperty t word = Ok (hasOwnProperty (own t) word).
Proof.
  intros [Hp Hn]. rewrite table_lookup in Hn.
  unfold call_hasOwnProperty, table_get. now rewrite Hn, Hp.
Qed.

Lemma call_hasOwnProperty_returns t word known :
  call_hasOwnProperty t word = Ok known ->
  callable t /\ known = hasOwnProperty (own t) word.
Proof.
  unfold call_hasOwnProperty, table_get, callable. rewrite table_lookup.
  destruct (own t !! "hasOwnProperty") as [[|rc]|]; try discriminate.
  destruct (prototype t); [|discriminate].
  change (inherited "hasOwnProperty") with true. cbv iota.
  intros [= <-]. now repeat split.
Qed.

(** On any other table a registration throws. *)
Lemma addWord_not_callable t word rules :
  ~ callable t -> addWord t word rules = Throw TypeError.
Proof.
  intros Hn. unfold addWord.
  destruct (call_hasOwnProperty t word) as [known|e] eqn:E.
  - now apply call_hasOwnProperty_returns in E as [Hc _].
  - unfold call_hasOwnProperty in E.
    destruct (table_get t "hasOwnProperty"); now inversion E.
Qed.

(** A registration throws nothing but a TypeError. *)
Lemma addWord_throws t word rules e :
  addWord t word rules = Throw e -> e = TypeError.
Proof.
  unfold addWord. unfold call_hasOwnProperty.
  destruct (table_get t "hasOwnProperty"); cbn [bind]; try (now intros [= <-]).
  destruct (0 <? length rules); [|discriminate].
  cbv zeta. destruct (table_get _ word); try discriminate; now intros [= <-].
Qed.

(** When [addWord] assigns the empty array, the word is an own property
    of the table or the table has no prototype: the assignment stores an
    own property. *)
Lemma addWord_array_is_stored t word known :
  call_hasOwnProperty t word = Ok known ->
  let t1 := if negb known then assign_null t word else t in
  is_Some (t1 !! word) \/ prototype t1 = NoPrototype.
Proof.
  intros [[Hp _] ->]%call_hasOwnProperty_returns. cbv zeta.
  destruct (hasOwnProperty (own t) word) eqn:Ho; cbn [negb].
  - left. now apply bool_decide_eq_true in Ho.
  - unfold assign_null. rewrite Ho, Hp. cbn [negb].
    destruct (bool_decide (word = "__proto__")); cbn; [now right|].
    left. rewrite store_lookup_eq. eauto.
Qed.

(** A registration without rule codes adds the word with the value null
    when it is new, and changes nothing otherwise; the new word
    [__proto__] is not added, and the table loses its prototype. *)
Lemma addWord_flagless t word :
  callable t ->
  addWord t word []
  = Ok (if hasOwnProperty (own t) word then t else assign_null t word).
Proof.
  intros Hc. unfold addWord. rewrite (call_hasOwnProperty_callable t word Hc).
  cbn [bind]. now destruct (hasOwnProperty (own t) word).
Qed.

Lemma assign_null_word t word :
  word <> "__proto__" -> assign_null t word = store t word null.
Proof.
  intros Hne. unfold assign_null. now rewrite (bool_decide_eq_false_2 _ Hne).
Qed.

(** A registration with rule codes of a word other than [__proto__] that
    is new, or whose value is null, throws: on a table that [addWord] can
    read, [push] is read from null. *)
Lemma addWord_flagged_null t word rules :
  word <> "__proto__" ->
  rules <> [] ->
  t !! word = None \/ t !! word = Some null ->
  addWord t word rules = Throw TypeError.
Proof.
  intros Hword Hne Hw. unfold addWord.
  destruct (call_hasOwnProperty t word) as [known|e] eqn:E.
  2:{ unfold call_hasOwnProperty in E.
      destruct (table_get t "hasOwnProperty"); now inversion E. }
  apply call_hasOwnProperty_returns in E as [_ ->]. cbn [bind].
  assert (Hlen : (0 <? length rules) = true).
  { destruct rules; [congruence | reflexivity]. }
  rewrite Hlen.
  set (t1 := if negb (hasOwnProperty (own t) word) then assign_null t word else t).
  assert (E1 : t1 !! word = Some null).
  { subst t1. destruct Hw as [Hw | Hw].
    - rewrite (hasOwnProperty_false _ _ Hw). cbn [negb].
      rewrite (assign_null_word _ _ Hword). apply store_lookup_eq.
    - rewrite (hasOwnProperty_true _ _ _ Hw). cbn [negb]. exact Hw. }
  unfold has_property.
  rewrite (hasOwnProperty_true _ _ _ E1), (table_get_null _ _ E1). cbn.
  now rewrite (table_get_null _ _ E1).
Qed.

(** A registration with rule codes of a word that already carries sets
    appends one set. *)
Lemma addWord_flagged_sets t word rc rules :
  callable t ->
  rules <> [] ->
  t !! word = Some (sets rc) ->
  addWord t word rules = Ok (store t word (sets (rc ++ [rules]))).
Proof.
  intros Hc Hne Hw. unfold addWord.
  rewrite (call_hasOwnProperty_callable t word Hc). cbn [bind].
  assert (Hlen : (0 <? length rules) = true).
  { destruct rules; [congruence | reflexivity]. }
  rewrite Hlen, (hasOwnProperty_true _ _ _ Hw). cbn.
  unfold has_property.
  rewrite (hasOwnProperty_true _ _ _ Hw), (table_get_sets _ _ _ Hw). cbn.
  now rewrite (table_get_sets _ _ _ Hw).
Qed.

(** Once a word carries rule-code sets, no registration that returns
    takes them away. *)
Lemma addWord_keeps_sets t word rc rules t' :
  t !! word = Some (sets rc) ->
  addWord t word rules = Ok t' ->
  t' !! word = Some (sets (rc ++ if rules is [] then [] else [rules])).
Proof.
  intros Hw Hadd.
  assert (Hc : callable t).
  { destruct (call_hasOwnProperty t word) as [known|e] eqn:E.
    - now apply call_hasOwnProperty_returns in E as [Hc _].
    - unfold addWord in Hadd. rewrite E in Hadd. discriminate. }
  destruct rules as [|r rules].
  - rewrite (addWord_flagless _ _ Hc), (hasOwnProperty_true _ _ _ Hw) in Hadd.
    injection Hadd as <-. now rewrite app_nil_r.
  - rewrite (addWord_flagged_sets t word rc (r :: rules)) in Hadd;
      [|exact Hc|congruence|exact Hw].
    injection Hadd as <-. apply store_lookup_eq.
Qed.

Lemma assign_null_other t word other :
  other <> word -> assign_null t word !! other = t !! other.
Proof.
  intros Hne. unfold assign_null. destruct (_ && _); [reflexivity|].
  now apply store_lookup_ne.
Qed.

(** A registration leaves the other words as they are. *)
Lemma addWord_other t word rules t' other :
  addWord t word rules = Ok t' -> other <> word -> t' !! other = t !! other.
Proof.
  unfold addWord. intros Hadd Hne.
  destruct (call_hasOwnProperty t word) as [known|]; [|discriminate].
  cbn [bind] in Hadd.
  set (t1 := if negb known then assign_null t word else t) in Hadd.
  assert (E1 : t1 !! other = t !! other).
  { subst t1. destruct known; cbn; [reflexivity|]. now apply assign_null_other. }
  destruct (0 <? length rules); [|congruence].
  cbv zeta in Hadd.
  destruct (negb (has_property t1 word) || typeof_not_object word (table_get t1 word));
    destruct (table_get _ word); try discriminate;
    injection Hadd as <-; rewrite ?store_lookup_ne by exact Hne; exact E1.
Qed.

End AddWord.

(** The gate of [register_base]: with NEEDAFFIX configured and among the
    codes of the word, the table is left as it is. *)
Lemma register_base_needaffix flags word codes t needaffix :
  flags !! "NEEDAFFIX" = Some needaffix ->
  needaffix ∈ codes ->
  register_base flags word codes t = Ok t.
Proof.
  intros Hf Hin. unfold register_base. rewrite Hf.
  rewrite (bool_decide_eq_true_2 (is_Some (Some needaffix))) by eauto.
  now rewrite (bool_decide_eq_true_2 _ Hin).
Qed.

(** In every other case the base word is handed to [addWord] with its
    codes. *)
Lemma register_base_otherwise flags word codes t :
  (forall needaffix, flags !! "NEEDAFFIX" = Some needaffix -> needaffix ∉ codes) ->
  register_base flags word codes t = addWord t word codes.
Proof.
  intros Hgate. unfold register_base.
  destruct (flags !! "NEEDAFFIX") as [needaffix|] eqn:Hf.
  - rewrite (bool_decide_eq_false_2 (needaffix ∈ codes)) by eauto.
    now rewrite orb_true_r.
  - rewrite (bool_decide_eq_false_2 (is_Some None)); [reflexivity|].
    intros [v Hv]. discriminate.
Qed.

(** That call throws whenever the word, other than [__proto__], has
    codes and does not yet carry rule-code sets. *)
Lemma register_base_throws flags word codes t :
  (forall needaffix, flags !! "NEEDAFFIX" = Some needaffix -> needaffix ∉ codes) ->
  word <> "__proto__" ->
  codes <> [] ->
  t !! word = None \/ t !! word = Some null ->
  register_base flags word codes t = Throw TypeError.
Proof.
  intros Hgate Hword Hne Hw. rewrite register_base_otherwise by exact Hgate.
  now apply addWord_flagged_null.
Qed.

(** C1 (the source departs from the claim): a dictionary whose line
    [cat/S] declares the word cat with the rule code S must end with cat
    mapped to the list holding the set [S], also when an earlier line
    registered cat without codes.  The builder throws a TypeError on both
    dictionaries instead: [addWord] stores null for the word, finds that
    the type of null is 'object', keeps the null and calls [push] on it. *)
Theorem parseDIC_flagged_word_throws :
  parseDIC 0 ∅ ∅ ∅ ["1"; "cat/S"] = Throw TypeError
  /\ parseDIC 0 ∅ ∅ ∅ ["2"; "cat"; "cat/S"] = Throw TypeError.
Proof. by_evaluation. Qed.

(** C7 (the source departs from the claim): with NEEDAFFIX set to N, the
    line [cat/N] leaves cat out of the table, as claimed; the line [cat/S],
    whose codes do not hold N, must register cat, and the builder throws a
    TypeError there, with or without the directive.  The throw is the one
    of [addWord] described for C1. *)
Theorem parseDIC_needaffix_gate :
  parseDIC 0 {["NEEDAFFIX" := "N"]} ∅ ∅ ["1"; "cat/N"]
    = Ok {| table := ∅; compoundRuleCodes := ∅ |}
  /\ parseDIC 0 {["NEEDAFFIX" := "N"]} ∅ ∅ ["1"; "cat/S"] = Throw TypeError
  /\ parseDIC_line 0 ∅ ∅ {| table := ∅; compoundRuleCodes := ∅ |} "cat/S" = Throw TypeError.
Proof. by_evaluation. Qed.

(** ** Flag codec *)

(** Under [FLAG num] every non-empty text of codes makes [parseRuleCodes]
    throw. *)
Lemma parseRuleCodes_num flags textCodes :
  flags !! "FLAG" = Some "num" ->
  textCodes <> "" ->
  parseRuleCodes flags (Some textCodes) = Throw ReferenceError.
Proof.
  intros Hf Hne. unfold parseRuleCodes. rewrite Hf.
  destruct textCodes; [congruence | reflexivity].
Qed.

(** C8 (the source departs from the claim): under [FLAG num] the text
    [1,2] must decode to its comma-separated components 1 and 2;
    [parseRuleCodes] throws a ReferenceError instead, because it splits
    [textCode], a name that is not declared, where its parameter is
    [textCodes]. *)
Theorem parseRuleCodes_num_throws :
  parseRuleCodes {["FLAG" := "num"]} (Some "1,2") = Throw ReferenceError
  /\ JsString.split_on "," "1,2" = ["1"; "2"].
Proof. split; reflexivity. Qed.

(** ** Word checker *)

Section WordCheckerProperties.
Context `{JsRuntime}.

Lemma hasFlag_loaded st word flag wordFlags :
  loaded st = true ->
  hasFlag st word flag wordFlags =
    Ok (match flags st !! flag with
        | Some value =>
            bool_decide
              (value ∈ match wordFlags with
                       | Some given => Some <$> given
                       | None => all_codes word (table_get (dictionaryTable st) word)
                       end)
        | None => false
        end).
Proof.
  intros Hl. unfold hasFlag. rewrite Hl. cbn.
  destruct (flags st !! flag); reflexivity.
Qed.

(** A code is among the given codes when it is one of them; undefined is
    none of them. *)
Lemma defined_among (value : option string) (codes : list string) :
  bool_decide (value ∈ Some <$> codes)
  = match value with
    | Some value => bool_decide (value ∈ codes)
    | None => false
    end.
Proof.
  destruct value as [value|].
  - apply bool_decide_ext. rewrite list_elem_of_fmap. split.
    + intros (code & [= ->] & Hin). exact Hin.
    + intros Hin. eauto.
  - apply bool_decide_eq_false. rewrite list_elem_of_fmap.
    intros (code & E & _). discriminate.
Qed.

Lemma hasFlag_given st word flag codes :
  loaded st = true ->
  hasFlag st word flag (Some codes) = Ok (carries_flag st flag codes).
Proof.
  intros Hl. rewrite hasFlag_loaded by exact Hl. unfold carries_flag.
  destruct (flags st !! flag) as [value|]; [|reflexivity].
  rewrite defined_among. now destruct value.
Qed.

Lemma some_set_standalone_loaded st word ruleCodes :
  loaded st = true ->
  some_set_standalone st word ruleCodes =
    Ok (existsb (fun codes => negb (carries_flag st "ONLYINCOMPOUND" codes)) ruleCodes).
Proof.
  intros Hl. induction ruleCodes as [|codes rest IH]; [reflexivity|].
  cbn [some_set_standalone existsb]. rewrite hasFlag_given by exact Hl. cbn.
  destruct (carries_flag st "ONLYINCOMPOUND" codes); cbn; [exact IH | reflexivity].
Qed.

(** On a loaded engine [hasFlag] and [checkExact] return for every word. *)
Lemma hasFlag_returns st word flag wordFlags :
  loaded st = true -> returns (hasFlag st word flag wordFlags).
Proof. intros Hl. rewrite hasFlag_loaded by exact Hl. eexists; reflexivity. Qed.

Lemma checkExact_loaded st word :
  loaded st = true ->
  checkExact st word =
    Ok (match table_get (dictionaryTable st) word with
        | RUndefined => compound_word st word
        | RNull => true
        | RArray ruleCodes =>
            existsb (fun codes => negb (carries_flag st "ONLYINCOMPOUND" codes)) ruleCodes
        | RInherited => false
        end).
Proof.
  intros Hl. unfold checkExact, compound_word. rewrite Hl. cbn.
  destruct (table_get (dictionaryTable st) word); try reflexivity.
  - destruct (flags st !! "COMPOUNDMIN") as [[compoundMin|]|]; try reflexivity.
    destruct (num_ge _ _); reflexivity.
  - now apply some_set_standalone_loaded.
Qed.

Lemma checkExact_returns st word :
  loaded st = true -> returns (checkExact st word).
Proof. intros Hl. rewrite checkExact_loaded by exact Hl. eexists; reflexivity. Qed.

(** Before the dictionary is loaded the three lookups throw. *)
Lemma lookups_not_loaded st word flag wordFlags :
  loaded st = false ->
  check st word = Throw NotLoaded
  /\ checkExact st word = Throw NotLoaded
  /\ hasFlag st word flag wordFlags = Throw NotLoaded.
Proof. intros Hl. unfold check, checkExact, hasFlag. now rewrite Hl. Qed.

Ltac keepcase_returns :=
  match goal with
  | Hl : loaded ?st = true |- context [hasFlag ?st ?w "KEEPCASE" None] =>
      destruct (hasFlag_returns st w "KEEPCASE" None Hl) as [[|] ->]; cbn [bind]
  end.

(** On a loaded engine [check] returns for every word that is not blank. *)
Lemma check_returns st aWord :
  loaded st = true ->
  JsString.trim aWord <> "" ->
  returns (check st aWord).
Proof.
  intros Hl Hne. unfold check. rewrite Hl. cbn.
  destruct (checkExact_returns st (JsString.trim aWord) Hl) as [exact ->]. cbn.
  destruct exact; [eexists; reflexivity|].
  unfold check_uppercase.
  destruct (bool_decide _).
  - keepcase_returns; [eexists; reflexivity|].
    rewrite (checkExact_loaded st (_ +:+ _)) by exact Hl. cbn.
    destruct (match table_get _ _ with RUndefined => _ | _ => _ end); cbn;
      [eexists; reflexivity|].
    rewrite (checkExact_loaded st (toLowerCase _)) by exact Hl. cbn.
    destruct (match table_get _ _ with RUndefined => _ | _ => _ end); cbn;
      [eexists; reflexivity|].
    unfold check_uncapitalized, JsString.at_index. cbn.
    destruct (JsString.trim aWord) as [|c rest]; [congruence|].
    destruct (negb _); [|eexists; reflexivity].
    keepcase_returns; [eexists; reflexivity|].
    now apply checkExact_returns.
  - cbn. unfold check_uncapitalized, JsString.at_index. cbn.
    destruct (JsString.trim aWord) as [|c rest]; [congruence|].
    destruct (negb _); [|eexists; reflexivity].
    keepcase_returns; [eexists; reflexivity|].
    now apply checkExact_returns.
Qed.

(** C4, as amended: on a loaded engine [checkExact] answers true for a
    word stored with null; for a word stored with rule-code sets, true
    exactly when some set does not carry the ONLYINCOMPOUND flag; for a
    word that is not stored, false when the table inherits the word as
    the name of a member of [Object.prototype], which it does as long as
    it has kept that prototype, and otherwise true exactly when
    COMPOUNDMIN is configured with a value, the word is at least that long
    and some compound rule matches it. *)
Theorem checkExact_cases st word :
  loaded st = true ->
  checkExact st word =
    Ok (match dictionaryTable st !! word with
        | Some null => true
        | Some (sets ruleCodes) =>
            existsb (fun codes => negb (carries_flag st "ONLYINCOMPOUND" codes)) ruleCodes
        | None =>
            if inherits (dictionaryTable st) word then false
            else compound_word st word
        end).
Proof.
  intros Hl. rewrite checkExact_loaded by exact Hl.
  unfold table_get, inherits. rewrite table_lookup.
  destruct (own (dictionaryTable st) !! word) as [[|ruleCodes]|]; try reflexivity.
  destruct (prototype (dictionaryTable st)).
  - rewrite (bool_decide_eq_true_2 (ObjectPrototype = ObjectPrototype)) by reflexivity.
    rewrite andb_true_r. now destruct (inherited word).
  - rewrite (bool_decide_eq_false_2 (NoPrototype = ObjectPrototype)) by discriminate.
    now rewrite andb_false_r.
Qed.

(** A word stored with rule-code sets is valid exactly when one of its
    sets does not carry the ONLYINCOMPOUND flag. *)
Lemma checkExact_sets_iff st word ruleCodes :
  loaded st = true ->
  dictionaryTable st !! word = Some (sets ruleCodes) ->
  checkExact st word = Ok true
  <-> exists codes, In codes ruleCodes /\ carries_flag st "ONLYINCOMPOUND" codes = false.
Proof.
  intros Hl Hw. rewrite checkExact_loaded by exact Hl.
  rewrite (table_get_sets _ _ _ Hw). split.
  - intros [= E]. apply existsb_exists in E as (codes & Hin & Hc).
    exists codes. split; [exact Hin | now apply negb_true_iff].
  - intros (codes & Hin & Hc). f_equal. apply existsb_exists.
    exists codes. split; [exact Hin | now apply negb_true_iff].
Qed.

End WordCheckerProperties.

(** The three answers for a word that is not stored: a compound, a word
    that is no compound, and, on a table that has lost its prototype, a
    compound that names a member of [Object.prototype]. *)
Lemma checkExact_cases_witness :
  loaded sunshine_engine = true
  /\ checkExact sunshine_engine "sunshine" = Ok true
  /\ checkExact sunshine_engine "moonshine" = Ok false
  /\ loaded bare_engine = true
  /\ checkExact bare_engine "constructor" = Ok true.
Proof.
  split; [reflexivity|]. split; [|split; [|split; [reflexivity|]]].
  - pose proof (checkExact_cases sunshine_engine "sunshine" eq_refl) as E.
    vm_compute in E. vm_compute. exact E.
  - pose proof (checkExact_cases sunshine_engine "moonshine" eq_refl) as E.
    vm_compute in E. vm_compute. exact E.
  - pose proof (checkExact_cases bare_engine "constructor" eq_refl) as E.
    vm_compute in E. vm_compute. exact E.
Defined.

(** C4, as stated, fails for a word that is not in the table and names a
    member of [Object.prototype], on a table that has kept that
    prototype: constructor is not stored, COMPOUNDMIN is configured as 3,
    the word has eleven characters and the compound rule matches it, so
    the claim makes it valid; the table read yields the inherited
    function, which is neither undefined, nor null, nor an object, and
    [checkExact] answers false. *)
Lemma checkExact_inherited_name :
  loaded constructor_engine = true
  /\ dictionaryTable constructor_engine !! "constructor" = None
  /\ prototype (dictionaryTable constructor_engine) = ObjectPrototype
  /\ compound_word constructor_engine "constructor" = true
  /\ checkExact constructor_engine "constructor" = Ok false.
Proof. by_evaluation. Qed.

Lemma table_get_absent t word :
  t !! word = None ->
  inherited word = false ->
  table_get t word = RUndefined.
Proof.
  rewrite table_lookup. intros Hw Hi. unfold table_get. rewrite Hw, Hi.
  now destruct (prototype t).
Qed.

Lemma checkExact_absent `{JsRuntime} st word :
  loaded st = true ->
  dictionaryTable st !! word = None ->
  inherited word = false ->
  checkExact st word = Ok (compound_word st word).
Proof.
  intros Hl Hw Hi. rewrite checkExact_loaded by exact Hl.
  now rewrite (table_get_absent _ _ Hw Hi).
Qed.

(** A blank word that is not valid makes [check] read a property of
    [trimmedWord[0]], which is undefined. *)
Lemma check_blank_throws st aWord :
  loaded st = true ->
  JsString.trim aWord = "" ->
  dictionaryTable st !! "" = None ->
  dictionaryTable st !! "undefined" = None ->
  flags st !! "COMPOUNDMIN" = None ->
  check st aWord = Throw TypeError.
Proof.
  intros Hl Ht He Hu Hc. unfold check. rewrite Hl, Ht. cbn [negb].
  assert (E0 : checkExact st "" = Ok false).
  { rewrite checkExact_absent by (exact Hl || exact He || reflexivity).
    unfold compound_word. now rewrite Hc. }
  assert (E1 : checkExact st "undefined" = Ok false).
  { rewrite checkExact_absent by (exact Hl || exact Hu || reflexivity).
    unfold compound_word. now rewrite Hc. }
  rewrite E0. cbn [bind]. unfold check_uppercase.
  change (bool_decide (toUpperCase "" = "")) with true. cbv iota.
  change (JsString.to_text (JsString.at_index 0 "") +:+ toLowerCase (JsString.drop 1 ""))
    with "undefined".
  rewrite hasFlag_loaded by exact Hl.
  rewrite (table_get_absent _ _ Hu eq_refl). unfold all_codes.
  assert (Ek : match flags st !! "KEEPCASE" with
               | Some value => bool_decide (value ∈ @nil (option string))
               | None => false
               end = false).
  { destruct (flags st !! "KEEPCASE"); [|reflexivity].
    apply bool_decide_eq_false_2. apply not_elem_of_nil. }
  rewrite Ek. cbn [bind]. rewrite E1. cbn [bind].
  change (toLowerCase "") with "". rewrite E0. reflexivity.
Qed.

(** C2 (the source departs from the claim): on a loaded engine the empty
    word and a word of spaces, which are not valid words, must make
    [check] return false; [check] throws a TypeError on both, at
    [trimmedWord[0].toLowerCase()]. *)
Theorem check_blank_word_throws :
  loaded cat_engine = true
  /\ checkExact cat_engine "" = Ok false
  /\ check cat_engine "" = Throw TypeError
  /\ check cat_engine "  " = Throw TypeError.
Proof. by_evaluation. Qed.

(** *** Case variants of lowercase words *)

Lemma lower_letter_facts c :
  is_lower_letter c = true ->
  JsString.is_space c = false
  /\ JsString.is_space (Ascii7.upper_char c) = false
  /\ Ascii7.lower_char c = c
  /\ Ascii7.lower_char (Ascii7.upper_char c) = c
  /\ Ascii7.upper_char (Ascii7.upper_char c) = Ascii7.upper_char c
  /\ Ascii7.upper_char c <> c.
Proof.
  destruct c as [[] [] [] [] [] [] [] []]; vm_compute; intros E;
    try discriminate E; repeat split; congruence.
Qed.



Lemma all_chars_impl (p q : ascii -> bool) s :
  (forall c, p c = true -> q c = true) -> all_chars p s = true -> all_chars q s = true.
Proof.
  intros Hpq. induction s as [|c s IH]; [reflexivity|]. cbn.
  intros [Hc Hs]%andb_prop. now rewrite (Hpq c Hc), (IH Hs).
Qed.






Lemma upper_changes s :
  s <> "" -> all_chars is_lower_letter s = true ->
  Ascii7.map_chars Ascii7.upper_char s <> s.
Proof.
  destruct s as [|c s]; [congruence|]. cbn. intros _ [Hc _]%andb_prop [= E _].
  now destruct (lower_letter_facts c Hc) as (_ & _ & _ & _ & _ & Hne).
Qed.






(** ** Suggestion engine *)

Section SuggestProperties.
Context `{JsRuntime}.

Lemma hasFlag_same st st' word flag wordFlags :
  same_lookups st st' ->
  hasFlag st word flag wordFlags = hasFlag st' word flag wordFlags.
Proof. intros (Et & _ & Ef & El & _). unfold hasFlag. now rewrite Et, Ef, El. Qed.

Lemma some_set_standalone_same st st' word ruleCodes :
  same_lookups st st' ->
  some_set_standalone st word ruleCodes = some_set_standalone st' word ruleCodes.
Proof.
  intros Hs. induction ruleCodes as [|codes rest IH]; [reflexivity|].
  cbn. rewrite (hasFlag_same st st') by exact Hs. now rewrite IH.
Qed.

Lemma checkExact_same st st' word :
  same_lookups st st' -> checkExact st word = checkExact st' word.
Proof.
  intros Hs. pose proof Hs as (Et & Ec & Ef & El & _). unfold checkExact.
  rewrite Et, Ec, Ef, El.
  destruct (negb (loaded st')); [reflexivity|].
  destruct (table_get _ _); try reflexivity.
  now apply some_set_standalone_same.
Qed.

Lemma check_same st st' aWord :
  same_lookups st st' -> check st aWord = check st' aWord.
Proof.
  intros Hs. pose proof Hs as (_ & _ & _ & El & _).
  unfold check, check_uppercase, check_uncapitalized. rewrite El.
  destruct (negb (loaded st')); [reflexivity|].
  rewrite (checkExact_same st st') by exact Hs.
  destruct (checkExact st' _) as [[]|]; cbn [bind]; try reflexivity.
  destruct (bool_decide _).
  - rewrite (hasFlag_same st st') by exact Hs.
    destruct (hasFlag st' _ _ _) as [[]|]; cbn [bind]; try reflexivity.
    rewrite (checkExact_same st st') by exact Hs.
    destruct (checkExact st' _) as [[]|]; cbn [bind]; try reflexivity.
    rewrite (checkExact_same st st') by exact Hs.
    destruct (checkExact st' _) as [[]|]; cbn [bind]; try reflexivity.
    destruct (JsString.at_index _ _); [|reflexivity].
    destruct (negb _); [|reflexivity].
    rewrite (hasFlag_same st st') by exact Hs.
    destruct (hasFlag st' _ _ _) as [[]|]; cbn [bind]; try reflexivity.
    now apply checkExact_same.
  - cbn [bind].
    destruct (JsString.at_index _ _); [|reflexivity].
    destruct (negb _); [|reflexivity].
    rewrite (hasFlag_same st st') by exact Hs.
    destruct (hasFlag st' _ _ _) as [[]|]; cbn [bind]; try reflexivity.
    now apply checkExact_same.
Qed.

Lemma replacement_same st st' word table :
  same_lookups st st' -> replacement st word table = replacement st' word table.
Proof.
  intros Hs. induction table as [|entry rest IH]; [reflexivity|].
  cbn. destruct (bool_decide _); [|exact IH].
  rewrite (check_same st st') by exact Hs.
  destruct (check st' _) as [[]|]; cbn [bind]; try reflexivity. exact IH.
Qed.

Lemma known_same st st' words :
  same_lookups st st' -> known st words = known st' words.
Proof.
  intros Hs. induction words as [|word rest IH]; [reflexivity|].
  cbn. rewrite (check_same st st') by exact Hs. now rewrite IH.
Qed.

Lemma correct_same st st' word limit :
  same_lookups st st' -> alphabet st = alphabet st' ->
  correct st word limit = correct st' word limit.
Proof.
  intros Hs Ea. unfold correct. rewrite Ea.
  now rewrite !(known_same st st') by exact Hs.
Qed.

(** [correct] never returns: when both calls of [known] return, the loop
    of line 745 throws. *)
Lemma correct_throws st word limit :
  exists e, correct st word limit = Throw e.
Proof.
  unfold correct.
  destruct (known st (edits1 (alphabet st) [word])) as [known1|e]; cbn [bind];
    [|eauto].
  destruct (known st _) as [known2|e]; cbn [bind]; eauto.
Qed.

(** No call of [suggest] changes the cache. *)
Lemma suggest_memoized st word limit :
  memoized (suggest st word limit).2 = memoized st.
Proof.
  unfold suggest.
  destruct (negb (loaded st)); [reflexivity|].
  destruct (cached _ _ _); [reflexivity|].
  destruct (check st word) as [[]|]; try reflexivity.
  destruct (replacement _ _ _) as [[]|]; try reflexivity.
  destruct (correct_throws (set_alphabet st letters) word
              (limit_or_default limit)) as [e ->].
  reflexivity.
Qed.

Lemma suggest_same_lookups st word limit :
  same_lookups st (suggest st word limit).2.
Proof.
  unfold suggest.
  destruct (negb (loaded st)); [now repeat split|].
  destruct (cached _ _ _); [now repeat split|].
  destruct (check st word) as [[]|]; try now repeat split.
  destruct (replacement _ _ _) as [[]|]; try now repeat split.
  destruct (correct _ _ _) as [[]|]; now repeat split.
Qed.



Lemma suggest_outcome_same st st' word limit :
  same_lookups st st' ->
  cached (memoized st) word (limit_or_default limit)
  = cached (memoized st') word (limit_or_default limit) ->
  (suggest st word limit).1 = (suggest st' word limit).1.
Proof.
  intros Hs Hc. pose proof Hs as (_ & _ & _ & El & Er).
  unfold suggest. rewrite El, Hc, Er. clear Hc.
  destruct (negb (loaded st')); [reflexivity|].
  destruct (cached _ _ _); [reflexivity|].
  rewrite (check_same st st') by exact Hs.
  destruct (check st' word) as [[]|]; try reflexivity.
  rewrite (replacement_same st st') by exact Hs.
  destruct (replacement st' _ _) as [[]|]; try reflexivity.
  rewrite (correct_same (set_alphabet st letters) (set_alphabet st' letters)).
  - destruct (correct _ _ _) as [[]|]; reflexivity.
  - destruct Hs as (? & ? & ? & ? & ?). now repeat split.
  - reflexivity.
Qed.

(** A list that may be reused for the limit after [limit || 5] may be
    reused for the limit that was requested. *)
Lemma reusable_requested memo (n : Z) :
  reusable memo (limit_or_default (Some n)) -> reusable memo n.
Proof.
  unfold reusable. destruct n; cbn; lia.
Qed.

Lemma cached_Some memoized word limit memo :
  memoized !! word = Some memo -> reusable memo limit ->
  cached memoized word limit = Some (slice_to limit (Memo.suggestions memo)).
Proof.
  intros E Hr. unfold cached. rewrite E.
  destruct Hr as [Hr | Hr].
  - apply Z.leb_le in Hr. now rewrite Hr.
  - apply Z.ltb_lt in Hr. now rewrite Hr, orb_true_r.
Qed.

Lemma cached_None memoized word limit :
  (forall memo, memoized !! word = Some memo -> ~ reusable memo limit) ->
  cached memoized word limit = None.
Proof.
  intros Hn. unfold cached. destruct (memoized !! word) as [memo|] eqn:E; [|reflexivity].
  destruct (_ || _) eqn:Hb; [|reflexivity].
  exfalso. apply (Hn memo eq_refl). unfold reusable.
  apply orb_prop in Hb as [Hb | Hb]; [left; now apply Z.leb_le | right; now apply Z.ltb_lt].
Qed.

(** On a loaded engine two consecutive calls of [suggest] with the same
    word and limit have the same outcome, a list or an exception; a list
    is served from the cache when, for the entry of the word, the
    requested limit is at most the cached limit or the cached list is
    shorter than the cached limit; and when the entry of the word does
    not meet that condition the outcome is the one computed without the
    entry. *)
Lemma suggest_reuses_cache st word limit :
  loaded st = true ->
  (suggest (suggest st word limit).2 word limit).1 = (suggest st word limit).1
  /\ (forall memo,
        memoized st !! word = Some memo ->
        reusable memo (limit_or_default limit) ->
        suggest st word limit
        = (Ok (slice_to (limit_or_default limit) (Memo.suggestions memo)), st))
  /\ ((forall memo,
         memoized st !! word = Some memo ->
         ~ reusable memo (limit_or_default limit)) ->
      (suggest st word limit).1 = (suggest (uncache st word) word limit).1).
Proof.
  intros Hl. repeat split.
  - symmetry. apply suggest_outcome_same.
    + apply suggest_same_lookups.
    + now rewrite suggest_memoized.
  - intros memo E Hr. unfold suggest. rewrite Hl. cbn [negb].
    now rewrite (cached_Some _ _ _ memo E Hr).
  - intros Hn. apply suggest_outcome_same.
    + now repeat split.
    + rewrite (cached_None _ _ _ Hn). symmetry. apply cached_None.
      cbn. intros memo E. now rewrite lookup_delete_eq in E.
Qed.

(** C10: on a loaded engine that serves nothing from the cache for the
    word, a call that finds the word valid returns the empty list and
    leaves the instance, hence the cache, as it was; so does a call that
    returns the corrected word of the replacement table; and the cache
    after any call is the cache before it unless [correct] returned, in
    which case the entry written is the one of the word. *)
Theorem suggest_early_returns st word limit :
  loaded st = true ->
  (forall memo,
     memoized st !! word = Some memo -> ~ reusable memo (limit_or_default limit)) ->
  (check st word = Ok true -> suggest st word limit = (Ok [], st))
  /\ (forall correctedWord,
        check st word = Ok false ->
        replacement st word (replacementTable st) = Ok (Some correctedWord) ->
        suggest st word limit = (Ok [correctedWord], st))
  /\ (memoized (suggest st word limit).2 = memoized st
      \/ exists rv limit',
           correct (set_alphabet st letters) word (limit_or_default limit)
           = Ok (rv, limit')
           /\ memoized (suggest st word limit).2
              = <[word := {| Memo.suggestions := rv; Memo.limit := limit' |}]>
                  (memoized st)).
Proof.
  intros Hl Hn. apply cached_None in Hn. repeat split.
  - intros Hc. unfold suggest. now rewrite Hl, Hn, Hc.
  - intros correctedWord Hc Hr. unfold suggest. now rewrite Hl, Hn, Hc, Hr.
  - left. apply suggest_memoized.
Qed.


End SuggestProperties.

(** *** Edits *)

Lemma length_append (a b : string) :
  String.length (a +:+ b) = String.length a + String.length b.
Proof.
  induction a as [|c a IH]; [reflexivity|].
  change (String c a +:+ b) with (String c (a +:+ b)).
  cbn [String.length Nat.add]. now f_equal.
Qed.

Lemma take_drop i (w : string) : JsString.take i w +:+ JsString.drop i w = w.
Proof.
  revert w. induction i as [|i IH]; intros [|c w]; try reflexivity.
  cbn [JsString.take JsString.drop].
  change (String c (JsString.take i w) +:+ JsString.drop i w)
    with (String c (JsString.take i w +:+ JsString.drop i w)).
  now rewrite IH.
Qed.

Lemma length_drop i (w : string) :
  String.length (JsString.drop i w) = String.length w - i.
Proof.
  revert w. induction i as [|i IH]; intros [|c w]; cbn; try reflexivity; try lia.
  apply IH.
Qed.

Lemma last_char_append (a b : string) :
  b <> "" -> last_char (a +:+ b) = last_char b.
Proof.
  intros Hb. induction a as [|c a IH]; [reflexivity|].
  change (String c a +:+ b) with (String c (a +:+ b)).
  cbn [last_char]. rewrite IH. destruct (a +:+ b) eqn:E; [|reflexivity].
  destruct a, b; discriminate || congruence.
Qed.

Lemma length_chars_elem letter (alphabet : string) :
  In letter (JsString.chars alphabet) -> String.length letter = 1.
Proof.
  induction alphabet as [|c a IH]; cbn; [tauto|].
  intros [<- | Hin]; [reflexivity | now apply IH].
Qed.

Lemma in_splits s (w : string) :
  In s (splits w) <->
  exists i, i <= String.length w /\ s = (JsString.take i w, JsString.drop i w).
Proof.
  unfold splits. rewrite in_map_iff. split.
  - intros (i & <- & Hi%in_seq). exists i. split; [lia | reflexivity].
  - intros (i & Hi & ->). exists i. split; [reflexivity|]. apply in_seq. lia.
Qed.

(** The candidates that the fourth loop of [edits1] builds: a letter of the
    alphabet put in front of a character of the word. *)
Lemma in_inserts_of (alphabet w x : string) :
  In x (inserts_of alphabet (splits w)) <->
  exists i letter,
    i < String.length w /\ In letter (JsString.chars alphabet)
    /\ x = JsString.take i w +:+ letter +:+ JsString.drop i w.
Proof.
  unfold inserts_of. rewrite in_flat_map. split.
  - intros (s & (i & Hi & ->)%in_splits & Hx). cbn in Hx.
    destruct (JsString.drop i w) as [|a r] eqn:Ed; [destruct Hx|].
    apply in_map_iff in Hx as (letter & <- & Hin).
    exists i, letter. repeat split; [|exact Hin|now rewrite Ed].
    pose proof (length_drop i w) as Hlen. rewrite Ed in Hlen. cbn in Hlen. lia.
  - intros (i & letter & Hi & Hin & ->).
    exists (JsString.take i w, JsString.drop i w). split.
    + apply in_splits. exists i. split; [lia | reflexivity].
    + cbn. destruct (JsString.drop i w) as [|a r] eqn:Ed.
      * pose proof (length_drop i w) as Hlen. rewrite Ed in Hlen. cbn in Hlen. lia.
      * apply in_map_iff. exists letter. split; [reflexivity | exact Hin].
Qed.

Lemma length_deletes (w x : string) :
  In x (deletes_of (splits w)) -> S (String.length x) = String.length w.
Proof.
  unfold deletes_of. rewrite in_flat_map.
  intros (s & (i & Hi & ->)%in_splits & Hx). cbn in Hx.
  destruct (JsString.drop i w) as [|a r] eqn:Ed; [destruct Hx|].
  destruct Hx as [<- | []].
  rewrite <- (take_drop i w) at 2. rewrite Ed, !length_append. cbn. lia.
Qed.

Lemma length_transposes (w x : string) :
  In x (transposes_of (splits w)) -> String.length x = String.length w.
Proof.
  unfold transposes_of. rewrite in_flat_map.
  intros (s & (i & Hi & ->)%in_splits & Hx). cbn in Hx.
  destruct (JsString.drop i w) as [|a [|b r]] eqn:Ed; try destruct Hx.
  destruct (negb _); [|destruct Hx]. destruct Hx as [<- | []].
  rewrite <- (take_drop i w) at 2. rewrite Ed, !length_append. reflexivity.
Qed.

Lemma length_replaces (alphabet w x : string) :
  In x (replaces_of alphabet (splits w)) -> String.length x = String.length w.
Proof.
  unfold replaces_of. rewrite in_flat_map.
  intros (s & (i & Hi & ->)%in_splits & Hx). cbn in Hx.
  destruct (JsString.drop i w) as [|a r] eqn:Ed; [destruct Hx|].
  apply in_map_iff in Hx as (letter & <- & Hin%length_chars_elem).
  rewrite <- (take_drop i w) at 2. rewrite Ed, !length_append, Hin. reflexivity.
Qed.

(** No candidate of [edits1] is the word followed by a letter other than
    its last character: nothing is inserted after the end of the word. *)
Lemma edits1_nothing_appended (alphabet w : string) (last c : ascii) :
  last_char w = Some last -> last <> c ->
  ~ In (w +:+ String c "") (edits1 alphabet [w]).
Proof.
  intros Hlast Hne Hin. unfold edits1 in Hin. cbn in Hin.
  rewrite app_nil_r in Hin. unfold edits1_word in Hin.
  rewrite app_nil_r in Hin.
  assert (Hlen : String.length (w +:+ String c "") = S (String.length w)).
  { rewrite length_append. cbn. lia. }
  apply in_app_iff in Hin as [Hin | Hin];
    [apply length_deletes in Hin; lia|].
  apply in_app_iff in Hin as [Hin | Hin];
    [apply length_transposes in Hin; lia|].
  apply in_app_iff in Hin as [Hin | Hin];
    [apply length_replaces in Hin; lia|].
  apply in_inserts_of in Hin as (i & letter & Hi & _ & E).
  assert (Hd : JsString.drop i w <> "").
  { intros Ed. pose proof (length_drop i w) as Hl. rewrite Ed in Hl. cbn in Hl. lia. }
  apply (f_equal last_char) in E.
  rewrite (last_char_append w (String c "")) in E by discriminate.
  rewrite (last_char_append (JsString.take i w)) in E.
  2:{ intros Habs%(f_equal String.length). rewrite length_append, length_drop in Habs.
      cbn in Habs. lia. }
  rewrite (last_char_append letter) in E by exact Hd. cbn [last_char] in E.
  rewrite <- (take_drop i w) in Hlast.
  rewrite last_char_append in Hlast by exact Hd. congruence.
Qed.

(** C6 (the source departs from the claim): the candidates of the word
    a must hold ab, the letter b inserted at the end of the word.  The
    candidates hold ba, the letter inserted in front of the only
    character, and do not hold ab: the loop that inserts letters skips the
    split whose second part is empty. *)
Theorem edits1_no_insertion_at_end :
  In "ba" (edits1 letters ["a"]) /\ ~ In "ab" (edits1 letters ["a"]).
Proof.
  split.
  - apply (list_elem_of_In (edits1 letters ["a"]) "ba").
    apply (bool_decide_eq_true_1 _). vm_compute. reflexivity.
  - apply (edits1_nothing_appended letters "a" "a" "b"); [reflexivity | discriminate].
Qed.

(** *** The calls on concrete engines *)

(** An entry of the cache, which no call of [suggest] has written, is
    served for a limit that it covers, and passed over for a larger
    one. *)
Lemma suggest_reuses_cache_on_entry :
  suggest memo_engine "teh" (Some 2%Z) = (Ok ["the"; "tea"], memo_engine)
  /\ (suggest memo_engine "teh" (Some 7%Z)).1 = Ok ["the"].
Proof.
  destruct (suggest_reuses_cache memo_engine "teh" (Some 2%Z) eq_refl) as (_ & Hreuse & _).
  destruct (suggest_reuses_cache memo_engine "teh" (Some 7%Z) eq_refl) as (_ & _ & Hfresh).
  split.
  - apply (Hreuse {| Memo.suggestions := ["the"; "tea"; "ten"]; Memo.limit := 3 |});
      [reflexivity | left; cbn; lia].
  - rewrite Hfresh; [vm_compute; reflexivity|].
    intros memo E. vm_compute in E. injection E as <-.
    intros [Hr | Hr]; cbn in Hr; lia.
Qed.

Lemma suggest_early_returns_witness :
  suggest cat_engine "cat" (Some 5%Z) = (Ok [], cat_engine)
  /\ suggest cat_engine "teh" (Some 5%Z) = (Ok ["the"], cat_engine).
Proof.
  assert (Hfresh : forall word memo,
            memoized cat_engine !! word = Some memo ->
            ~ reusable memo (limit_or_default (Some 5%Z))).
  { intros word memo E. cbn in E. rewrite lookup_empty in E. discriminate. }
  split.
  - apply (proj1 (suggest_early_returns cat_engine "cat" (Some 5%Z) eq_refl
                    (Hfresh "cat"))).
    vm_compute. reflexivity.
  - apply (proj1 (proj2 (suggest_early_returns cat_engine "teh" (Some 5%Z) eq_refl
                           (Hfresh "teh")))).
    + vm_compute. reflexivity.
    + vm_compute. reflexivity.
Defined.

Section Pipeline.
Context `{JsRuntime}.

(** Whenever [suggest] gets past the cache, the validity test and the
    replacement table, the call throws. *)
Lemma suggest_pipeline_throws st word limit :
  loaded st = true ->
  cached (memoized st) word (limit_or_default limit) = None ->
  check st word = Ok false ->
  replacement st word (replacementTable st) = Ok None ->
  exists e, (suggest st word limit).1 = Throw e.
Proof.
  intros Hl Hc Hv Hr. unfold suggest. rewrite Hl, Hc, Hv, Hr. cbn [negb].
  destruct (correct_throws (set_alphabet st letters) word (limit_or_default limit))
    as [e ->].
  now exists e.
Qed.

End Pipeline.

(** C3 (the source departs from the claim): cta is misspelled and hits no
    entry of the replacement table, cat is a valid candidate one edit
    away, and [suggest] with the limit 5 must return a list of at most
    five candidates, best first.  The call throws a ReferenceError
    instead, because the loop that fills the list reads
    [sortedcorrections], a name that is not declared, where the array is
    [sorted_corrections]. *)
Theorem suggest_throws :
  check cat_engine "cta" = Ok false
  /\ replacement cat_engine "cta" (replacementTable cat_engine) = Ok None
  /\ known (set_alphabet cat_engine letters) (edits1 letters ["cta"]) = Ok ["cat"]
  /\ (suggest cat_engine "cta" (Some 5%Z)).1 = Throw ReferenceError.
Proof. by_evaluation. Qed.

(** C9 (the source departs from the claim): cta is misspelled, hits no
    entry of the replacement table and is not cached, and two consecutive
    calls of [suggest] for it with the limit 5 must return the same list
    of candidates, the second one from the cache.  Neither call returns a
    list: the first throws the ReferenceError of C3 before it reaches the
    write of the cache, the cache is as empty after it as before, and the
    second call runs the same computation again and throws again. *)
Theorem suggest_twice_throws :
  loaded cat_engine = true
  /\ memoized cat_engine !! "cta" = None
  /\ check cat_engine "cta" = Ok false
  /\ replacement cat_engine "cta" (replacementTable cat_engine) = Ok None
  /\ (suggest cat_engine "cta" (Some 5%Z)).1 = Throw ReferenceError
  /\ memoized (suggest cat_engine "cta" (Some 5%Z)).2 = ∅
  /\ (suggest (suggest cat_engine "cta" (Some 5%Z)).2 "cta" (Some 5%Z)).1
     = Throw ReferenceError.
Proof. by_evaluation. Qed.

(** * Further properties *)

(** ** Trimming *)

Lemma trim_end_idempotent s : JsString.trim_end (JsString.trim_end s) = JsString.trim_end s.
Proof.
  induction s as [|c s IH]; [reflexivity|].
  cbn [JsString.trim_end].
  destruct (JsString.trim_end s) as [|d t] eqn:E.
  - destruct (JsString.is_space c) eqn:Hc; [reflexivity|].
    cbn. now rewrite Hc.
  - change (JsString.trim_end (String c (String d t)))
      with (match JsString.trim_end (String d t) with
            | "" => if JsString.is_space c then "" else String c ""
            | String _ _ as u => String c u
            end).
    now rewrite IH.
Qed.

Lemma trim_start_head s :
  match JsString.trim_start s with
  | String c _ => JsString.is_space c = false
  | "" => True
  end.
Proof.
  induction s as [|c s IH]; [exact I|]. cbn.
  destruct (JsString.is_space c) eqn:Hc; [exact IH | exact Hc].
Qed.

Lemma trim_end_head c s :
  JsString.is_space c = false ->
  exists t, JsString.trim_end (String c s) = String c t.
Proof.
  intros Hc. cbn. destruct (JsString.trim_end s); rewrite ?Hc; eauto.
Qed.

Lemma trim_idempotent s : JsString.trim (JsString.trim s) = JsString.trim s.
Proof.
  unfold JsString.trim.
  pose proof (trim_start_head s) as Hh.
  destruct (JsString.trim_start s) as [|c t]; [reflexivity|].
  destruct (trim_end_head c t Hh) as [u Eu]. rewrite Eu.
  assert (Es : JsString.trim_start (String c u) = String c u) by (cbn; now rewrite Hh).
  rewrite Es, <- Eu. apply trim_end_idempotent.
Qed.

(** X1: [check] answers for a word as it answers for the word without the
    whitespace around it. *)
Theorem check_ignores_outer_whitespace `{JsRuntime} st aWord :
  check st (JsString.trim aWord) = check st aWord.
Proof. unfold check. now rewrite trim_idempotent. Qed.

(** ** Tables built by [parseDIC] *)

Lemma for_each_preserves {A S : Type} (P : S -> Prop) (body : S -> A -> result S) l :
  (forall s x s', P s -> body s x = Ok s' -> P s') ->
  forall s r, P s -> for_each body l s = Ok r -> P r.
Proof.
  intros Hbody. induction l as [|x l IH]; intros s r Hs Hr; cbn in Hr.
  - now injection Hr as <-.
  - destruct (body s x) as [s'|e] eqn:E; [|discriminate]. cbn in Hr.
    eapply IH; [|exact Hr]. eapply Hbody; eauto.
Qed.

(** When a loop returns, each of its steps returned, from a state that
    satisfies what the steps preserve. *)
Lemma for_each_step {A S : Type} (P : S -> Prop) (body : S -> A -> result S) l x :
  (forall s y s', P s -> body s y = Ok s' -> P s') ->
  In x l ->
  forall s r, P s -> for_each body l s = Ok r ->
  exists s1 s2, P s1 /\ body s1 x = Ok s2.
Proof.
  intros Hbody. induction l as [|y l IH]; intros Hin s r Hs Hr; [destruct Hin|].
  cbn in Hr. destruct (body s y) as [s'|e] eqn:E; [|discriminate]. cbn in Hr.
  destruct Hin as [-> | Hin]; [eauto|].
  eapply IH; [exact Hin | | exact Hr]. eapply Hbody; eauto.
Qed.

Lemma table_lookup_empty word : (∅ : Table) !! word = None.
Proof. rewrite table_lookup. apply lookup_empty. Qed.

Lemma callable_empty : callable ∅.
Proof. split; [reflexivity | apply table_lookup_empty]. Qed.

Lemma all_null_empty : all_null ∅.
Proof. intros word value E. rewrite table_lookup_empty in E. discriminate. Qed.

Lemma all_null_lookup t word :
  all_null t -> word <> "__proto__" -> t !! word = None \/ t !! word = Some null.
Proof.
  intros Ht Hword. destruct (t !! word) as [v|] eqn:E; [|now left].
  right. now rewrite (Ht word v E Hword).
Qed.

(** A registration that returns has stored the word, unless the word is
    [__proto__]. *)
Lemma addWord_stored t word rules t' :
  addWord t word rules = Ok t' -> word <> "__proto__" -> is_Some (t' !! word).
Proof.
  intros Hadd Hword. unfold addWord in Hadd.
  destruct (call_hasOwnProperty t word) as [known|] eqn:Ek; [|discriminate].
  apply call_hasOwnProperty_returns in Ek as [_ ->]. cbn [bind] in Hadd.
  set (t1 := if negb (hasOwnProperty (own t) word) then assign_null t word else t) in Hadd.
  assert (H1 : is_Some (t1 !! word)).
  { subst t1. destruct (hasOwnProperty (own t) word) eqn:Ho; cbn [negb].
    - now apply bool_decide_eq_true in Ho.
    - rewrite (assign_null_word _ _ Hword), store_lookup_eq. eauto. }
  destruct (0 <? length rules); [|now injection Hadd as <-].
  cbv zeta in Hadd. destruct (table_get _ word); try discriminate.
  injection Hadd as <-. rewrite store_lookup_eq. eauto.
Qed.

(** A registration keeps a table without rule codes without rule codes,
    the word [__proto__] apart. *)
Lemma addWord_all_null t word rules t' :
  all_null t -> addWord t word rules = Ok t' -> all_null t'.
Proof.
  intros Ht Hadd w v E Hw. destruct (decide (w = word)) as [-> | Hne].
  - destruct rules as [|r rules].
    + assert (Hc : callable t).
      { destruct (call_hasOwnProperty t word) as [known|e] eqn:Ek.
        - now apply call_hasOwnProperty_returns in Ek as [Hc _].
        - unfold addWord in Hadd. rewrite Ek in Hadd. discriminate. }
      rewrite (addWord_flagless _ _ Hc) in Hadd. injection Hadd as <-.
      destruct (hasOwnProperty (own t) word); [now apply (Ht word)|].
      rewrite (assign_null_word _ _ Hw), store_lookup_eq in E. congruence.
    + rewrite (addWord_flagged_null t word (r :: rules)) in Hadd;
        [discriminate | exact Hw | congruence | now apply all_null_lookup].
  - rewrite (addWord_other _ _ _ _ _ Hadd Hne) in E. now apply (Ht w).
Qed.

Lemma combine_all_null fuel rules rule later t newWord t' :
  all_null t -> combine fuel rules rule later t newWord = Ok t' -> all_null t'.
Proof.
  unfold combine. destruct (combineable rule); [|now intros ? [= <-]].
  apply (for_each_preserves all_null).
  intros s code s' Hs Hstep.
  destruct (rules !! code) as [combineRule|]; [|now injection Hstep as <-].
  destruct (_ && _); [|now injection Hstep as <-].
  destruct (applyRule _ _ _ _) as [others|]; [|discriminate]. cbn in Hstep.
  revert Hs Hstep. apply (for_each_preserves all_null).
  intros u w u' Hu Hw. exact (addWord_all_null u w [] u' Hu Hw).
Qed.

Lemma each_code_all_null fuel rules word ruleCodesArray b b' :
  all_null (table b) ->
  each_code fuel rules word ruleCodesArray b = Ok b' ->
  all_null (table b').
Proof.
  revert b. induction ruleCodesArray as [|code later IH]; intros b Hb Hr;
    cbn [each_code] in Hr.
  - now injection Hr as <-.
  - destruct (match rules !! code with Some _ => _ | None => _ end) as [t|] eqn:Et;
      [|discriminate].
    cbn [bind] in Hr. refine (IH _ _ Hr). cbn [table].
    destruct (rules !! code) as [rule|]; [|now injection Et as <-].
    destruct (applyRule _ _ _ _) as [newWords|]; [|discriminate]. cbn [bind] in Et.
    refine (for_each_preserves all_null _ _ _ _ _ Hb Et).
    intros u w u' Hu Hw. cbv beta in Hw.
    destruct (addWord u w []) as [u1|] eqn:E1; [|discriminate]. cbn [bind] in Hw.
    pose proof (addWord_all_null u w [] u1 Hu E1) as Hu1.
    eapply combine_all_null; eauto.
Qed.

Lemma parseDIC_line_all_null fuel flags rules b line b' :
  all_null (table b) ->
  parseDIC_line fuel flags rules b line = Ok b' ->
  all_null (table b').
Proof.
  intros Hb. unfold parseDIC_line.
  destruct (take 2 (JsString.split_on "/" line)) as [|word [|text [|? ?]]].
  - now intros [= <-].
  - destruct (addWord _ _ _) as [t|] eqn:E; [|discriminate]. cbn.
    intros [= <-]. cbn. now apply (addWord_all_null _ _ _ _ Hb E).
  - destruct (parseRuleCodes _ _) as [rc|]; [|discriminate]. cbn.
    destruct (register_base _ _ _ _) as [t|] eqn:E; [|discriminate]. cbn.
    apply each_code_all_null. cbn.
    unfold register_base in E. destruct (_ || _).
    + now apply (addWord_all_null _ _ _ _ Hb E).
    + now injection E as <-.
  - now intros [= <-].
Qed.

(** No table that [parseDIC] returns holds a rule code for a word other
    than [__proto__]: every other word of it is stored with null. *)
Lemma parseDIC_all_null fuel flags rules codes lines b :
  parseDIC fuel flags rules codes lines = Ok b -> all_null (table b).
Proof.
  unfold parseDIC. intros Hb.
  refine (for_each_preserves (fun s => all_null (table s)) _ _ _ _ _ _ Hb).
  - intros s line s'. apply parseDIC_line_all_null.
  - apply all_null_empty.
Qed.

(** X2: No table that [parseDIC] returns holds a rule code for a word
    other than [__proto__]: such a word is either absent from the table
    or stored with null. *)
Theorem parseDIC_stores_no_codes fuel flags rules codes lines b word :
  parseDIC fuel flags rules codes lines = Ok b ->
  word <> "__proto__" ->
  table b !! word = None \/ table b !! word = Some null.
Proof.
  intros Hb Hword. apply all_null_lookup; [|exact Hword]. unfold parseDIC in Hb.
  refine (for_each_preserves (fun s => all_null (table s)) _ _ _ _ _ _ Hb).
  - intros s line s'. apply parseDIC_line_all_null.
  - apply all_null_empty.
Qed.

Lemma split_on_absent sep s :
  all_chars (fun c => negb (Ascii.eqb c sep)) s = true ->
  JsString.split_on sep s = [s].
Proof.
  induction s as [|c s IH]; [reflexivity|]. cbn.
  intros [Hc Hs]%andb_prop. apply negb_true_iff in Hc. rewrite Hc.
  now rewrite (IH Hs).
Qed.

Lemma split_on_first sep w rest :
  all_chars (fun c => negb (Ascii.eqb c sep)) w = true ->
  JsString.split_on sep (w +:+ String sep rest) = w :: JsString.split_on sep rest.
Proof.
  induction w as [|c w IH].
  - intros _. change ("" +:+ String sep rest) with (String sep rest).
    cbn. now rewrite Ascii.eqb_refl.
  - cbn [all_chars]. intros [Hc Hw]%andb_prop. apply negb_true_iff in Hc.
    change (String c w +:+ String sep rest) with (String c (w +:+ String sep rest)).
    cbn [JsString.split_on]. now rewrite Hc, (IH Hw).
Qed.

Lemma parseRuleCodes_nonempty flags text rc :
  text <> "" -> parseRuleCodes flags (Some text) = Ok rc -> rc <> [].
Proof.
  intros Hne. unfold parseRuleCodes. destruct text as [|c r]; [congruence|].
  destruct (flags !! "FLAG") as [flag|].
  - repeat destruct (bool_decide _); try discriminate;
      intros [= <-]; destruct r; discriminate.
  - intros [= <-]. discriminate.
Qed.

(** On a table without rule codes, the step of [parseDIC] for a line
    [word/codes] whose word is not [__proto__] and whose codes are not
    empty and do not hold the value of NEEDAFFIX throws. *)
Lemma parseDIC_line_flagged fuel flags rules b word text :
  all_null (table b) ->
  word <> "__proto__" ->
  (forall needaffix rc,
     flags !! "NEEDAFFIX" = Some needaffix ->
     parseRuleCodes flags (Some text) = Ok rc -> needaffix ∉ rc) ->
  no_slash word = true ->
  no_slash text = true ->
  text <> "" ->
  exists e, parseDIC_line fuel flags rules b (word +:+ "/" +:+ text) = Throw e.
Proof.
  intros Hb Hproto Hgate Hword Htext Hne. unfold parseDIC_line.
  change (word +:+ "/" +:+ text) with (word +:+ String "/" text).
  rewrite (split_on_first "/" word text Hword), (split_on_absent "/" text Htext).
  cbn [take].
  destruct (parseRuleCodes flags (Some text)) as [rc|e] eqn:Erc; [|now exists e].
  cbn [bind].
  rewrite (register_base_throws flags word rc (table b)); [now exists TypeError| | | |].
  - intros needaffix E. now apply (Hgate needaffix rc).
  - exact Hproto.
  - now apply (parseRuleCodes_nonempty flags text).
  - now apply all_null_lookup.
Qed.

(** X3: A dictionary one of whose lines after the first is [word/codes],
    with a word other than [__proto__] and codes that are not empty and do
    not hold the value of NEEDAFFIX, cannot be built: [parseDIC] throws,
    whatever the rules, the FLAG directive and the other lines are. *)
Theorem parseDIC_flagged_line_throws fuel flags rules codes lines word text :
  word <> "__proto__" ->
  (forall needaffix rc,
     flags !! "NEEDAFFIX" = Some needaffix ->
     parseRuleCodes flags (Some text) = Ok rc -> needaffix ∉ rc) ->
  no_slash word = true ->
  no_slash text = true ->
  text <> "" ->
  In (word +:+ "/" +:+ text) (drop 1 lines) ->
  exists e, parseDIC fuel flags rules codes lines = Throw e.
Proof.
  intros Hproto Hgate Hword Htext Hne Hin.
  destruct (parseDIC fuel flags rules codes lines) as [b|e] eqn:Hb; [|eauto].
  exfalso. unfold parseDIC in Hb.
  destruct (for_each_step (fun s => all_null (table s))
              (parseDIC_line fuel flags rules) (drop 1 lines)
              (word +:+ "/" +:+ text)
              (fun s line s' => parseDIC_line_all_null fuel flags rules s line s')
              Hin {| table := ∅; compoundRuleCodes := codes |} b
              all_null_empty Hb) as (s1 & s2 & Hs1 & Hline).
  destruct (parseDIC_line_flagged fuel flags rules s1 word text Hs1 Hproto Hgate
              Hword Htext Hne) as [e He].
  congruence.
Qed.

Lemma parseDIC_flagged_line_throws_witness :
  exists e,
    parseDIC 0 {["FLAG" := "long"; "NEEDAFFIX" := "Nx"]} ∅ ∅
      ["3"; "dog"; "cat/SxTy"; "cow"] = Throw e.
Proof.
  apply (parseDIC_flagged_line_throws 0 {["FLAG" := "long"; "NEEDAFFIX" := "Nx"]} ∅ ∅
           ["3"; "dog"; "cat/SxTy"; "cow"] "cat" "SxTy").
  - discriminate.
  - intros needaffix rc [= <-] [= <-]. vm_compute. intros Hin.
    repeat (apply elem_of_cons in Hin as [Hin | Hin]; [discriminate Hin|]).
    now apply not_elem_of_nil in Hin.
  - reflexivity.
  - reflexivity.
  - discriminate.
  - cbn. right. left. reflexivity.
Defined.

(** The bare words of a dictionary, none of which is [__proto__] or
    [hasOwnProperty]. *)
Lemma parseDIC_lines_bare fuel flags rules words :
  Forall (fun line => no_slash line = true) words ->
  "__proto__" ∉ map JsString.trim words ->
  "hasOwnProperty" ∉ map JsString.trim words ->
  forall b, all_null (table b) -> callable (table b) ->
  exists t,
    for_each (parseDIC_line fuel flags rules) words b
    = Ok {| table := t; compoundRuleCodes := compoundRuleCodes b |}
    /\ callable t
    /\ forall word,
         t !! word = if bool_decide (word ∈ map JsString.trim words)
                     then Some null else table b !! word.
Proof.
  induction 1 as [|line words Hline Hwords IH]; intros Hproto Hown b Hb Hc.
  - exists (table b). split; [now destruct b|]. split; [exact Hc|]. intros word.
    rewrite bool_decide_eq_false_2; [reflexivity | apply not_elem_of_nil].
  - cbn [map] in Hproto, Hown.
    apply not_elem_of_cons in Hproto as [Hproto1 Hproto].
    apply not_elem_of_cons in Hown as [Hown1 Hown].
    cbn [for_each]. unfold parseDIC_line at 1.
    rewrite (split_on_absent "/" line Hline). cbn [take].
    rewrite (addWord_flagless _ _ Hc). cbn [bind].
    rewrite (assign_null_word (table b) (JsString.trim line)) by congruence.
    set (t1 := if hasOwnProperty (own (table b)) (JsString.trim line) then table b
               else store (table b) (JsString.trim line) null).
    assert (E1 : forall word, t1 !! word
                 = if bool_decide (word = JsString.trim line) then Some null
                   else table b !! word).
    { intros word. subst t1. case_bool_decide as Hw.
      - subst word.
        destruct (all_null_lookup _ (JsString.trim line) Hb) as [E | E];
          [congruence| |].
        + rewrite (hasOwnProperty_false _ _ E). apply store_lookup_eq.
        + now rewrite (hasOwnProperty_true _ _ _ E).
      - destruct (hasOwnProperty _ _); [reflexivity|].
        now apply store_lookup_ne. }
    assert (H1 : all_null t1).
    { intros word value E Hword. rewrite E1 in E.
      case_bool_decide; [congruence | now apply (Hb word)]. }
    assert (Hc1 : callable t1).
    { split.
      - subst t1. destruct (hasOwnProperty _ _); apply Hc.
      - rewrite E1. rewrite bool_decide_eq_false_2 by congruence. apply Hc. }
    destruct (IH Hproto Hown {| table := t1; compoundRuleCodes := compoundRuleCodes b |}
                H1 Hc1) as (t & Et & Hct & Hlookup).
    exists t. split; [exact Et|]. split; [exact Hct|].
    intros word. rewrite Hlookup. cbn [table map].
    rewrite E1. destruct (decide (word = JsString.trim line)) as [Heq | Hneq].
    + rewrite (bool_decide_eq_true_2 _ Heq).
      rewrite (bool_decide_eq_true_2 (word ∈ JsString.trim line :: _))
        by (rewrite Heq; apply list_elem_of_here).
      now destruct (bool_decide (word ∈ map JsString.trim words)).
    + rewrite (bool_decide_eq_false_2 _ Hneq).
      destruct (decide (word ∈ map JsString.trim words)) as [Hin | Hnin].
      * rewrite (bool_decide_eq_true_2 _ Hin).
        rewrite bool_decide_eq_true_2; [reflexivity|]. now apply list_elem_of_further.
      * rewrite (bool_decide_eq_false_2 _ Hnin).
        rewrite bool_decide_eq_false_2; [reflexivity|].
        intros [Heq | Hin]%elem_of_cons; contradiction.
Qed.

(** X4: A dictionary of bare words, none of which is [__proto__] or
    [hasOwnProperty] once trimmed, builds the table of its trimmed lines,
    the first line left out, each stored with null; the table keeps its
    prototype, and the lists of [compoundRuleCodes] are not touched. *)
Theorem parseDIC_bare_words fuel flags rules codes count words :
  Forall (fun line => no_slash line = true) words ->
  "__proto__" ∉ map JsString.trim words ->
  "hasOwnProperty" ∉ map JsString.trim words ->
  exists t,
    parseDIC fuel flags rules codes (count :: words)
    = Ok {| table := t; compoundRuleCodes := codes |}
    /\ prototype t = ObjectPrototype
    /\ forall word,
         t !! word = if bool_decide (word ∈ map JsString.trim words)
                     then Some null else None.
Proof.
  intros Hwords Hproto Hown. unfold parseDIC. cbn [drop].
  destruct (parseDIC_lines_bare fuel flags rules words Hwords Hproto Hown
              {| table := ∅; compoundRuleCodes := codes |} all_null_empty callable_empty)
    as (t & Et & [Hp _] & Hlookup).
  exists t. split; [exact Et|]. split; [exact Hp|]. intros word.
  rewrite Hlookup. cbn [table]. now rewrite table_lookup_empty.
Qed.

(** The two words that the table cannot hold like the others.  A
    dictionary whose second word is preceded by [hasOwnProperty] throws,
    the word having replaced the method that [addWord] calls; the word
    [__proto__] is not stored, and takes the prototype of the table away;
    with rule codes it is stored, as the one word that carries a set. *)
Lemma parseDIC_special_words :
  parseDIC 0 ∅ ∅ ∅ ["2"; "hasOwnProperty"; "cat"] = Throw TypeError
  /\ parseDIC 0 ∅ ∅ ∅ ["2"; "cat"; "__proto__"]
     = Ok {| table := {| own := {["cat" := null]}; prototype := NoPrototype |};
             compoundRuleCodes := ∅ |}
  /\ parseDIC 0 ∅ ∅ ∅ ["2"; "__proto__"; "cat"] = Throw TypeError
  /\ parseDIC 0 ∅ ∅ ∅ ["1"; "__proto__/S"]
     = Ok {| table := {| own := {["__proto__" := sets [["S"]]]};
                         prototype := NoPrototype |};
             compoundRuleCodes := ∅ |}.
Proof. by_evaluation. Qed.

Lemma parseDIC_stores_no_codes_witness :
  let b := {| table := {| own := {["cat" := null; "dog" := null]};
                          prototype := ObjectPrototype |};
              compoundRuleCodes := ∅ |} in
  parseDIC 0 ∅ ∅ ∅ ["2"; "cat"; " dog "] = Ok b
  /\ "dog" <> "__proto__"
  /\ (table b !! "dog" = None \/ table b !! "dog" = Some null).
Proof.
  intros b.
  assert (Hb : parseDIC 0 ∅ ∅ ∅ ["2"; "cat"; " dog "] = Ok b)
    by (vm_compute; reflexivity).
  assert (Hw : "dog" <> "__proto__") by discriminate.
  split; [exact Hb|]. split; [exact Hw|].
  exact (parseDIC_stores_no_codes 0 ∅ ∅ ∅ ["2"; "cat"; " dog "] b "dog" Hb Hw).
Defined.

Lemma parseDIC_bare_words_witness :
  exists t,
    parseDIC 0 ∅ ∅ ∅ ["2"; "cat"; " dog "] = Ok {| table := t; compoundRuleCodes := ∅ |}
    /\ prototype t = ObjectPrototype
    /\ forall word,
         t !! word = if bool_decide (word ∈ map JsString.trim ["cat"; " dog "])
                     then Some null else None.
Proof.
  apply (parseDIC_bare_words 0 ∅ ∅ ∅ "2" ["cat"; " dog "]).
  - repeat constructor.
  - vm_compute. intros Hin.
    repeat (apply elem_of_cons in Hin as [Hin | Hin]; [discriminate Hin|]).
    now apply not_elem_of_nil in Hin.
  - vm_compute. intros Hin.
    repeat (apply elem_of_cons in Hin as [Hin | Hin]; [discriminate Hin|]).
    now apply not_elem_of_nil in Hin.
Defined.

Section BuiltEngines.
Context `{JsRuntime}.

(** On an engine whose table [parseDIC] returned, [hasFlag] finds a flag
    on a word other than [__proto__] in one case only: the flag is a
    directive without value, and the word is read from the table as a
    function that takes arguments.  The directives KEEPCASE, NOSUGGEST
    and ONLYINCOMPOUND have no other effect there. *)
Lemma built_table_hasFlag fuel flagsD rules codes lines b st word flag :
  parseDIC fuel flagsD rules codes lines = Ok b ->
  dictionaryTable st = table b ->
  loaded st = true ->
  word <> "__proto__" ->
  hasFlag st word flag None
  = Ok (bool_decide (flags st !! flag = Some None)
        && reads_arguments (dictionaryTable st) word).
Proof.
  intros Hb Ht Hl Hword. rewrite hasFlag_loaded by exact Hl. f_equal.
  destruct (flags st !! flag) as [value|]; [|reflexivity].
  rewrite Ht. unfold reads_arguments, inherits, table_get. rewrite table_lookup.
  destruct (own (table b) !! word) as [v|] eqn:E.
  - rewrite (parseDIC_all_null _ _ _ _ _ _ Hb word v E Hword). cbn [all_codes].
    rewrite (bool_decide_eq_false_2 (Some null = None)) by discriminate.
    rewrite andb_false_r. apply bool_decide_eq_false_2, not_elem_of_nil.
  - rewrite (bool_decide_eq_true_2 (None = None)) by reflexivity. cbn [andb].
    destruct (prototype (table b)).
    + rewrite (bool_decide_eq_true_2 (ObjectPrototype = ObjectPrototype)) by reflexivity.
      rewrite andb_true_r. destruct (inherited word); cbn [all_codes andb].
      * destruct (member_length word) as [|n]; cbn [replicate Nat.ltb Nat.leb].
        -- rewrite andb_false_r. apply bool_decide_eq_false_2, not_elem_of_nil.
        -- rewrite andb_true_r. apply bool_decide_ext.
           change (None :: replicate n None) with (replicate (S n) (@None string)).
           rewrite elem_of_replicate. split.
           ++ now intros [-> _].
           ++ intros [= ->]. split; [reflexivity | discriminate].
      * rewrite andb_false_r. apply bool_decide_eq_false_2, not_elem_of_nil.
    + rewrite (bool_decide_eq_false_2 (NoPrototype = ObjectPrototype)) by discriminate.
      cbn [all_codes]. rewrite !andb_false_r.
      apply bool_decide_eq_false_2, not_elem_of_nil.
Qed.

End BuiltEngines.

(** ** What [suggest] returns and changes *)

Section SuggestOutcomes.
Context `{JsRuntime}.

(** X5: A call of [suggest] changes nothing of the instance but, at most,
    its alphabet: the cache, in particular, is never written. *)
Theorem suggest_changes_only_alphabet st word limit :
  (suggest st word limit).2 = st
  \/ (suggest st word limit).2 = set_alphabet st letters.
Proof.
  unfold suggest.
  destruct (negb (loaded st)); [now left|].
  destruct (cached _ _ _); [now left|].
  destruct (check st word) as [[]|]; try now left.
  destruct (replacement _ _ _) as [[]|]; try now left.
  destruct (correct_throws (set_alphabet st letters) word (limit_or_default limit))
    as [e ->].
  now right.
Qed.

Lemma replacement_found st word table correctedWord :
  replacement st word table = Ok (Some correctedWord) ->
  exists pattern substitute,
    In (pattern, substitute) table
    /\ is_Some (JsString.index_of pattern word)
    /\ correctedWord = JsString.replace_first pattern substitute word
    /\ check st correctedWord = Ok true.
Proof.
  induction table as [|[pattern substitute] rest IH]; [discriminate|].
  cbn [replacement fst snd]. intros Hr.
  assert (Hrest : replacement st word rest = Ok (Some correctedWord) ->
                  exists p s, In (p, s) ((pattern, substitute) :: rest)
                    /\ is_Some (JsString.index_of p word)
                    /\ correctedWord = JsString.replace_first p s word
                    /\ check st correctedWord = Ok true).
  { intros E. destruct (IH E) as (p & s & Hin & Hrestp). exists p, s.
    split; [now right | exact Hrestp]. }
  case_bool_decide as Hocc; [|now apply Hrest].
  destruct (check st (JsString.replace_first pattern substitute word))
    as [[]|] eqn:Ec; cbn [bind] in Hr; [|now apply Hrest|discriminate].
  injection Hr as <-. exists pattern, substitute.
  split; [now left|]. now repeat split.
Qed.

Lemma cached_found memoized word limit reused :
  cached memoized word limit = Some reused ->
  exists memo,
    memoized !! word = Some memo /\ reusable memo limit
    /\ reused = slice_to limit (Memo.suggestions memo).
Proof.
  unfold cached. destruct (memoized !! word) as [memo|]; [|discriminate].
  destruct (_ || _) eqn:Hb; [|discriminate]. intros [= <-].
  exists memo. repeat split. unfold reusable.
  apply orb_prop in Hb as [Hb | Hb]; [left; now apply Z.leb_le | right; now apply Z.ltb_lt].
Qed.

(** X6: A list that [suggest] returns is a slice of the list cached for the
    word, or the empty list for a word that [check] accepts, or the one word
    that an entry of the replacement table makes of the input and that
    [check] accepts. No candidate of the edits is ever returned. *)
Theorem suggest_returns_only st word limit rv :
  (suggest st word limit).1 = Ok rv ->
  (exists memo,
     memoized st !! word = Some memo
     /\ reusable memo (limit_or_default limit)
     /\ rv = slice_to (limit_or_default limit) (Memo.suggestions memo))
  \/ (rv = [] /\ check st word = Ok true)
  \/ (exists pattern substitute,
        In (pattern, substitute) (replacementTable st)
        /\ is_Some (JsString.index_of pattern word)
        /\ rv = [JsString.replace_first pattern substitute word]
        /\ check st (JsString.replace_first pattern substitute word) = Ok true).
Proof.
  unfold suggest.
  destruct (negb (loaded st)); [discriminate|].
  destruct (cached _ _ _) as [reused|] eqn:Ec.
  { intros [= <-]. left. now apply cached_found. }
  destruct (check st word) as [[]|] eqn:Ev; try discriminate.
  { intros [= <-]. right. left. now split. }
  destruct (replacement _ _ _) as [[correctedWord|]|] eqn:Er; try discriminate.
  { intros [= <-]. right. right.
    destruct (replacement_found _ _ _ _ Er) as (p & s & Hin & Hocc & -> & Hc).
    exists p, s. now repeat split. }
  destruct (correct_throws (set_alphabet st letters) word (limit_or_default limit))
    as [e ->].
  discriminate.
Qed.

Lemma length_slice_to {A} (n : Z) (l : list A) :
  (0 <= n)%Z -> (Z.of_nat (length (slice_to n l)) <= n)%Z.
Proof.
  intros Hn. unfold slice_to.
  destruct (n <? 0)%Z eqn:E; [apply Z.ltb_lt in E; lia|].
  rewrite length_take. lia.
Qed.

(** X7: With a positive limit, a list that [suggest] returns has at most
    that many elements. *)
Theorem suggest_respects_limit st word limit rv :
  (0 < limit_or_default limit)%Z ->
  (suggest st word limit).1 = Ok rv ->
  (Z.of_nat (length rv) <= limit_or_default limit)%Z.
Proof.
  intros Hpos. unfold suggest.
  destruct (negb (loaded st)); [discriminate|].
  destruct (cached _ _ _) as [reused|] eqn:Ec.
  { intros [= <-]. destruct (cached_found _ _ _ _ Ec) as (memo & _ & _ & ->).
    apply length_slice_to. lia. }
  destruct (check st word) as [[]|]; try discriminate.
  { intros [= <-]. cbn. lia. }
  destruct (replacement _ _ _) as [[correctedWord|]|]; try discriminate.
  { intros [= <-]. cbn. lia. }
  destruct (correct_throws (set_alphabet st letters) word (limit_or_default limit))
    as [e ->].
  discriminate.
Qed.

(** X8: [check] accepts a word only if [checkExact] accepts the trimmed
    word, or its capitalized form, or its lowercase form, or the form with
    the first letter in lower case. *)
Theorem check_accepts_only st aWord :
  check st aWord = Ok true ->
  let trimmedWord := JsString.trim aWord in
  checkExact st trimmedWord = Ok true
  \/ checkExact st (JsString.to_text (JsString.at_index 0 trimmedWord)
                    +:+ toLowerCase (JsString.drop 1 trimmedWord)) = Ok true
  \/ checkExact st (toLowerCase trimmedWord) = Ok true
  \/ exists first,
       JsString.at_index 0 trimmedWord = Some first
       /\ checkExact st (toLowerCase first +:+ JsString.drop 1 trimmedWord) = Ok true.
Proof.
  unfold check. destruct (negb (loaded st)); [discriminate|].
  cbv zeta. set (trimmedWord := JsString.trim aWord).
  destruct (checkExact st trimmedWord) as [[]|]; cbn [bind]; try discriminate;
    [now left|].
  unfold check_uppercase, check_uncapitalized.
  assert (Hlast :
    match JsString.at_index 0 trimmedWord with
    | Some first =>
        if negb (bool_decide (toLowerCase first +:+ JsString.drop 1 trimmedWord
                              = trimmedWord))
        then keepcase <- hasFlag st (toLowerCase first +:+ JsString.drop 1 trimmedWord)
                            "KEEPCASE" None;;
             if keepcase then Ok false
             else checkExact st (toLowerCase first +:+ JsString.drop 1 trimmedWord)
        else Ok false
    | None => Throw TypeError
    end = Ok true ->
    exists first,
      JsString.at_index 0 trimmedWord = Some first
      /\ checkExact st (toLowerCase first +:+ JsString.drop 1 trimmedWord) = Ok true).
  { destruct (JsString.at_index 0 trimmedWord) as [first|]; [|discriminate].
    destruct (negb _); [|discriminate].
    destruct (hasFlag _ _ _ _) as [[]|]; cbn [bind]; try discriminate.
    intros E. now exists first. }
  destruct (bool_decide (toUpperCase trimmedWord = trimmedWord)); cbn [bind].
  - destruct (hasFlag _ _ _ _) as [[]|]; cbn [bind]; try discriminate.
    destruct (checkExact st (_ +:+ _)) as [[]|]; cbn [bind]; try discriminate;
      [intros _; right; now left|].
    destruct (checkExact st (toLowerCase _)) as [[]|]; cbn [bind]; try discriminate;
      [intros _; right; right; now left|].
    intros E. right. right. right. now apply Hlast.
  - intros E. right. right. right. now apply Hlast.
Qed.

End SuggestOutcomes.

Lemma suggest_returns_only_witness :
  exists pattern substitute,
    In (pattern, substitute) (replacementTable cat_engine)
    /\ is_Some (JsString.index_of pattern "teh")
    /\ ["the"] = [JsString.replace_first pattern substitute "teh"]
    /\ check cat_engine (JsString.replace_first pattern substitute "teh") = Ok true.
Proof.
  destruct (suggest_returns_only cat_engine "teh" (Some 5%Z) ["the"])
    as [(memo & E & _) | [[E _] | Hrep]].
  - vm_compute. reflexivity.
  - cbn in E. rewrite lookup_empty in E. discriminate.
  - discriminate.
  - exact Hrep.
Defined.

Lemma suggest_respects_limit_witness :
  (Z.of_nat (length ["the"; "tea"]) <= 2)%Z.
Proof.
  apply (suggest_respects_limit memo_engine "teh" (Some 2%Z) ["the"; "tea"]).
  - cbn. lia.
  - vm_compute. reflexivity.
Defined.

Lemma check_accepts_only_witness :
  checkExact cat_engine "CAT" = Ok true
  \/ checkExact cat_engine "Cat" = Ok true
  \/ checkExact cat_engine "cat" = Ok true
  \/ exists first,
       JsString.at_index 0 "CAT" = Some first
       /\ checkExact cat_engine (toLowerCase first +:+ "AT") = Ok true.
Proof.
  assert (Hc : check cat_engine "  CAT " = Ok true) by (vm_compute; reflexivity).
  pose proof (check_accepts_only cat_engine "  CAT " Hc) as E.
  cbv zeta in E. change (JsString.trim "  CAT ") with "CAT" in E.
  destruct E as [E | [E | [E | E]]].
  - left. exact E.
  - right. left. exact E.
  - right. right. left. exact E.
  - right. right. right. exact E.
Defined.

(** ** Sizes of the edits *)

Lemma length_inserts (alphabet w x : string) :
  In x (inserts_of alphabet (splits w)) -> String.length x = S (String.length w).
Proof.
  intros (i & letter & Hi & Hin%length_chars_elem & ->)%in_inserts_of.
  rewrite !length_append, Hin.
  pose proof (f_equal String.length (take_drop i w)) as E.
  rewrite length_append in E. lia.
Qed.

(** X9: Every candidate of [edits1] comes from one of the words and is at
    most one character shorter or longer than it. *)
Theorem edits1_length (alphabet : string) (words : list string) (x : string) :
  In x (edits1 alphabet words) ->
  exists w,
    In w words
    /\ String.length w <= S (String.length x)
    /\ String.length x <= S (String.length w).
Proof.
  unfold edits1. intros (w & Hw & Hx)%in_flat_map. exists w. split; [exact Hw|].
  unfold edits1_word in Hx. rewrite app_nil_r in Hx.
  apply in_app_iff in Hx as [Hx | Hx]; [apply length_deletes in Hx; lia|].
  apply in_app_iff in Hx as [Hx | Hx]; [apply length_transposes in Hx; lia|].
  apply in_app_iff in Hx as [Hx | Hx]; [apply length_replaces in Hx; lia|].
  apply length_inserts in Hx. lia.
Qed.

Lemma edits1_length_witness :
  exists w,
    In w ["cta"]
    /\ String.length w <= S (String.length "ct")
    /\ String.length "ct" <= S (String.length w).
Proof.
  apply (edits1_length letters ["cta"] "ct").
  apply (list_elem_of_In (edits1 letters ["cta"]) "ct").
  apply (bool_decide_eq_true_1 _). vm_compute. reflexivity.
Defined.

(** ** Decoding rule codes *)

Lemma concat_chars s : String.concat "" (JsString.chars s) = s.
Proof.
  induction s as [|c s IH]; [reflexivity|].
  cbn [JsString.chars]. destruct (JsString.chars s) as [|d l] eqn:E.
  - destruct s; [reflexivity | discriminate].
  - change (String.concat "" (String c "" :: d :: l))
      with (String c "" +:+ "" +:+ String.concat "" (d :: l)).
    now rewrite IH.
Qed.

Lemma concat_two_by_two_aux s :
  String.concat "" (two_by_two s) = s
  /\ forall c, String.concat "" (two_by_two (String c s)) = String c s.
Proof.
  induction s as [|a s [IH1 IH2]]; [split; [reflexivity | intros c; reflexivity]|].
  split; [apply IH2|].
  intros c. cbn [two_by_two]. destruct (two_by_two s) as [|d l] eqn:E.
  - assert (Es : s = "") by (destruct s as [|? [|? ?]]; [reflexivity | discriminate..]).
    now subst s.
  - change (String.concat "" (String c (String a "") :: d :: l))
      with (String c (String a "") +:+ "" +:+ String.concat "" (d :: l)).
    now rewrite IH1.
Qed.

Lemma length_chars_all s :
  Forall (fun code => String.length code = 1) (JsString.chars s).
Proof. induction s; cbn; constructor; [reflexivity | assumption]. Qed.

Lemma length_two_by_two_aux s :
  Forall (fun code => 1 <= String.length code <= 2) (two_by_two s)
  /\ forall c, Forall (fun code => 1 <= String.length code <= 2) (two_by_two (String c s)).
Proof.
  induction s as [|a s [IH1 IH2]].
  - split; [constructor|]. intros c. repeat constructor.
  - split; [apply IH2|]. intros c. cbn [two_by_two].
    constructor; [cbn; lia | exact IH1].
Qed.

(** X10: Unless FLAG is [num], [parseRuleCodes] returns codes of one
    character (of one or two under FLAG [long]) which, put end to end, give
    back the text that was decoded. *)
Theorem parseRuleCodes_splits_text flags text :
  flags !! "FLAG" <> Some "num" ->
  exists codes,
    parseRuleCodes flags (Some text) = Ok codes
    /\ String.concat "" codes = text
    /\ Forall (fun code => 1 <= String.length code <= 2) codes
    /\ (flags !! "FLAG" <> Some "long" ->
        Forall (fun code => String.length code = 1) codes).
Proof.
  intros Hnum. unfold parseRuleCodes.
  assert (Hchars : exists codes,
            Ok (JsString.chars text) = Ok codes
            /\ String.concat "" codes = text
            /\ Forall (fun code => 1 <= String.length code <= 2) codes
            /\ (flags !! "FLAG" <> Some "long" ->
                Forall (fun code => String.length code = 1) codes)).
  { exists (JsString.chars text). split; [reflexivity|].
    split; [apply concat_chars|]. split; [|intros _; apply length_chars_all].
    eapply Forall_impl; [apply length_chars_all|]. cbn. intros code ->. lia. }
  destruct text as [|c r].
  { exists []. repeat split; constructor. }
  destruct (flags !! "FLAG") as [flag|]; [|exact Hchars].
  case_bool_decide as Hlong.
  - subst flag. exists (two_by_two (String c r)). split; [reflexivity|].
    split; [apply concat_two_by_two_aux|].
    split; [apply length_two_by_two_aux | congruence].
  - case_bool_decide as Hn; [congruence|].
    case_bool_decide; exact Hchars.
Qed.

Lemma parseRuleCodes_splits_text_witness :
  exists codes,
    parseRuleCodes {["FLAG" := "long"]} (Some "AaBbC") = Ok codes
    /\ String.concat "" codes = "AaBbC"
    /\ Forall (fun code => 1 <= String.length code <= 2) codes
    /\ (({["FLAG" := "long"]} : gmap string string) !! "FLAG" <> Some "long" ->
        Forall (fun code => String.length code = 1) codes).
Proof.
  apply (parseRuleCodes_splits_text {["FLAG" := "long"]} "AaBbC").
  vm_compute. discriminate.
Defined.

(** ** Cleaning a plain text *)

Lemma space_cases c :
  JsString.is_space c = false ->
  Text.is_terminator c = false /\ Ascii.eqb c "009" = false /\ Ascii.eqb c "010" = false.
Proof.
  destruct c as [[] [] [] [] [] [] [] []]; vm_compute; intros E;
    try discriminate E; repeat split; reflexivity.
Qed.

Lemma line_feed_cases c :
  Ascii.eqb c "010" = true ->
  Text.is_terminator c = true /\ JsString.is_space c = true
  /\ Ascii.eqb c "009" = false /\ Ascii.eqb c "#" = false.
Proof. intros ->%Ascii.eqb_eq. repeat split; reflexivity. Qed.

Lemma gap_cases c :
  JsString.is_space c = true -> Text.is_terminator c = false ->
  Ascii.eqb c "010" = false /\ Ascii.eqb c "#" = false.
Proof.
  destruct c as [[] [] [] [] [] [] [] []]; vm_compute; intros E E';
    try discriminate E; try discriminate E'; split; reflexivity.
Qed.

(** The cases of a plain text, for a character [c] followed by [rest]. *)
Lemma plain_from_cases place c rest :
  plain_from place (String c rest) = true ->
  (JsString.is_space c = false /\ plain_from AfterWord rest = true)
  \/ (place = AfterWord /\ Ascii.eqb c "010" = true
      /\ plain_from AfterLineFeed rest = true)
  \/ ((place = AfterWord \/ place = InGap)
      /\ JsString.is_space c = true /\ Text.is_terminator c = false
      /\ plain_from InGap rest = true).
Proof.
  cbn [plain_from]. destruct (JsString.is_space c) eqn:Hs; cbn [negb].
  - destruct place; try discriminate.
    + destruct (Ascii.eqb c "010") eqn:Hn; [intros E; right; left; now repeat split|].
      destruct (Text.is_terminator c) eqn:Ht; [discriminate|].
      intros E. right. right. repeat split; auto.
    + destruct (Text.is_terminator c) eqn:Ht; [discriminate|].
      intros E. right. right. repeat split; auto.
  - intros E. left. now split.
Qed.

Lemma drop_tab_lines_plain text : forall place,
  plain_from place text = true ->
  Text.drop_tab_lines (scan_of place) text = text.
Proof.
  induction text as [|c rest IH]; intros place Hp; [reflexivity|].
  destruct (plain_from_cases place c rest Hp)
    as [[Hs Hr] | [(-> & Hn & Hr) | (Hplace & Hs & Ht & Hr)]].
  - destruct (space_cases c Hs) as (Ht & Htab & _).
    assert (E : Text.after c = scan_of AfterWord) by (unfold Text.after; now rewrite Ht).
    destruct place; cbn [Text.drop_tab_lines scan_of]; rewrite ?Htab, E;
      now rewrite (IH AfterWord Hr).
  - destruct (line_feed_cases c Hn) as (Ht & _ & _ & _).
    assert (E : Text.after c = scan_of AfterLineFeed) by (unfold Text.after; now rewrite Ht).
    cbn [Text.drop_tab_lines scan_of]. rewrite E. now rewrite (IH AfterLineFeed Hr).
  - assert (E : Text.after c = scan_of InGap) by (unfold Text.after; now rewrite Ht).
    destruct Hplace as [-> | ->]; cbn [Text.drop_tab_lines scan_of]; rewrite E;
      now rewrite (IH InGap Hr).
Qed.

Lemma trim_first_line_start_plain text : forall place,
  plain_from place text = true ->
  Text.trim_first_line_start (scan_of place) text = text.
Proof.
  induction text as [|c rest IH]; intros place Hp; [reflexivity|].
  destruct (plain_from_cases place c rest Hp)
    as [[Hs Hr] | [(-> & Hn & Hr) | (Hplace & Hs & Ht & Hr)]].
  - destruct (space_cases c Hs) as (Ht & _ & _).
    assert (E : Text.after c = scan_of AfterWord) by (unfold Text.after; now rewrite Ht).
    destruct place; cbn [Text.trim_first_line_start scan_of]; rewrite ?Hs, E;
      now rewrite (IH AfterWord Hr).
  - destruct (line_feed_cases c Hn) as (Ht & _ & _ & _).
    assert (E : Text.after c = scan_of AfterLineFeed) by (unfold Text.after; now rewrite Ht).
    cbn [Text.trim_first_line_start scan_of]. rewrite E. now rewrite (IH AfterLineFeed Hr).
  - assert (E : Text.after c = scan_of InGap) by (unfold Text.after; now rewrite Ht).
    destruct Hplace as [-> | ->]; cbn [Text.trim_first_line_start scan_of]; rewrite E;
      now rewrite (IH InGap Hr).
Qed.

Lemma collapse_newlines_plain text : forall place,
  plain_from place text = true ->
  Text.collapse_newlines (match place with AfterLineFeed => true | _ => false end) text
  = text.
Proof.
  induction text as [|c rest IH]; intros place Hp; [reflexivity|].
  destruct (plain_from_cases place c rest Hp)
    as [[Hs Hr] | [(-> & Hn & Hr) | (Hplace & Hs & Ht & Hr)]].
  - destruct (space_cases c Hs) as (_ & _ & Hn).
    cbn [Text.collapse_newlines]. rewrite Hn. now rewrite (IH AfterWord Hr).
  - cbn [Text.collapse_newlines]. rewrite Hn. now rewrite (IH AfterLineFeed Hr).
  - destruct (gap_cases c Hs Ht) as (Hn & _).
    cbn [Text.collapse_newlines]. rewrite Hn. now rewrite (IH InGap Hr).
Qed.

Lemma append_assoc (a b c : string) : (a +:+ b) +:+ c = a +:+ (b +:+ c).
Proof.
  induction a as [|x a IH]; [reflexivity|].
  change ((String x a +:+ b) +:+ c) with (String x ((a +:+ b) +:+ c)).
  now rewrite IH.
Qed.

Lemma append_empty_r (a : string) : a +:+ "" = a.
Proof.
  induction a as [|x a IH]; [reflexivity|].
  change (String x a +:+ "") with (String x (a +:+ "")). now rewrite IH.
Qed.

Lemma cut_without_terminator run : forall seen,
  all_chars (fun c => negb (Text.is_terminator c)) run = true ->
  Text.cut_at_last_terminator seen run = None.
Proof.
  induction run as [|c run IH]; intros seen Hr; [reflexivity|].
  cbn [all_chars] in Hr. apply andb_prop in Hr as [Hc Hr].
  cbn [Text.cut_at_last_terminator]. rewrite (IH true Hr).
  apply negb_true_iff in Hc. rewrite Hc. now rewrite andb_false_r.
Qed.

Lemma all_chars_snoc p (run : string) c :
  all_chars p run = true -> p c = true -> all_chars p (run +:+ String c "") = true.
Proof.
  induction run as [|x run IH]; intros Hr Hc.
  - change ("" +:+ String c "") with (String c ""). cbn [all_chars]. now rewrite Hc.
  - cbn [all_chars] in Hr. apply andb_prop in Hr as [Hx Hr].
    change (String x run +:+ String c "") with (String x (run +:+ String c "")).
    cbn [all_chars]. now rewrite Hx, IH.
Qed.

Lemma trim_first_line_end_plain text :
  (forall place, (place = AtStart \/ place = AfterWord) ->
     plain_from place text = true -> Text.trim_first_line_end None text = text)
  /\ (forall run,
        all_chars (fun c => negb (Text.is_terminator c)) run = true ->
        plain_from InGap text = true ->
        Text.trim_first_line_end (Some run) text = run +:+ text)
  /\ (plain_from AfterLineFeed text = true ->
      Text.trim_first_line_end (Some (String "010" "")) text = String "010" text).
Proof.
  induction text as [|c rest (IHword & IHgap & IHfeed)].
  { split; [intros; reflexivity|].
    split; [intros run _ Hp; discriminate Hp | discriminate]. }
  split; [|split].
  - intros place Hplace Hp.
    destruct (plain_from_cases place c rest Hp)
      as [[Hs Hr] | [(-> & Hn & Hr) | (Hplace' & Hs & Ht & Hr)]].
    + cbn [Text.trim_first_line_end]. rewrite Hs.
      now rewrite (IHword AfterWord (or_intror eq_refl) Hr).
    + destruct (line_feed_cases c Hn) as (_ & Hs & _).
      cbn [Text.trim_first_line_end]. rewrite Hs.
      apply Ascii.eqb_eq in Hn. subst c. now apply IHfeed.
    + cbn [Text.trim_first_line_end]. rewrite Hs.
      rewrite (IHgap (String c "")); [reflexivity | | exact Hr].
      cbn. now rewrite Ht.
  - intros run Hrun Hp.
    destruct (plain_from_cases InGap c rest Hp)
      as [[Hs Hr] | [(Habs & _) | (_ & Hs & Ht & Hr)]]; [| discriminate |].
    + cbn [Text.trim_first_line_end]. rewrite Hs.
      rewrite (cut_without_terminator run false Hrun).
      now rewrite (IHword AfterWord (or_intror eq_refl) Hr).
    + cbn [Text.trim_first_line_end]. rewrite Hs.
      rewrite (IHgap (run +:+ String c "")); [| |exact Hr].
      * now rewrite append_assoc.
      * apply all_chars_snoc; [exact Hrun | now rewrite Ht].
  - intros Hp.
    destruct (plain_from_cases AfterLineFeed c rest Hp)
      as [[Hs Hr] | [(Habs & _) | ([Habs | Habs] & _)]]; try discriminate.
    cbn [Text.trim_first_line_end]. rewrite Hs.
    change (Text.cut_at_last_terminator false (String "010" "")) with (@None string).
    now rewrite (IHword AfterWord (or_intror eq_refl) Hr).
Qed.

Lemma trim_end_plain text : forall place,
  plain_from place text = true ->
  JsString.trim_end text = text /\ (text = "" -> place = AtStart \/ place = AfterWord).
Proof.
  induction text as [|c rest IH]; intros place Hp.
  { split; [reflexivity|]. intros _. destruct place; try discriminate; auto. }
  split; [|discriminate].
  assert (Hrest : exists place', plain_from place' rest = true
                    /\ (JsString.is_space c = true ->
                        place' = InGap \/ place' = AfterLineFeed)).
  { destruct (plain_from_cases place c rest Hp)
      as [[Hs Hr] | [(-> & Hn & Hr) | (Hplace' & Hs & Ht & Hr)]].
    - exists AfterWord. split; [exact Hr | congruence].
    - exists AfterLineFeed. split; [exact Hr | auto].
    - exists InGap. split; [exact Hr | auto]. }
  destruct Hrest as (place' & Hr & Hsp).
  destruct (IH place' Hr) as [Et Hempty].
  cbn [JsString.trim_end]. rewrite Et.
  destruct rest as [|d rest']; [|reflexivity].
  destruct (JsString.is_space c) eqn:Hs; [|reflexivity].
  destruct (Hempty eq_refl) as [-> | ->], (Hsp eq_refl); discriminate.
Qed.

Lemma trim_start_plain text :
  plain text = true -> JsString.trim_start text = text.
Proof.
  destruct text as [|c rest]; [reflexivity|]. intros Hp.
  destruct (plain_from_cases AtStart c rest Hp)
    as [[Hs Hr] | [(Habs & _) | ([Habs | Habs] & _)]]; try discriminate.
  cbn. now rewrite Hs.
Qed.

Lemma tidy_plain text : plain text = true -> Text.tidy text = text.
Proof.
  intros Hp. unfold Text.tidy.
  pose proof (trim_first_line_start_plain text AtStart Hp) as E1.
  pose proof (proj1 (trim_first_line_end_plain text) AtStart (or_introl eq_refl) Hp) as E2.
  pose proof (collapse_newlines_plain text AtStart Hp) as E3.
  cbn [scan_of] in E1. cbv iota in E3.
  rewrite E1, E2, E3, (trim_start_plain text Hp).
  apply (trim_end_plain text AtStart Hp).
Qed.

(** [removeDicComments] leaves a plain text as it is. *)
Lemma removeDicComments_plain text :
  plain text = true -> removeDicComments text = text.
Proof.
  intros Hp. unfold removeDicComments.
  pose proof (drop_tab_lines_plain text AtStart Hp) as E. cbn [scan_of] in E.
  rewrite E. now apply tidy_plain.
Qed.

(** ** Lines of a plain text *)

Lemma join_lines_cons line line' lines :
  join_lines (line :: line' :: lines)
  = line +:+ String "010" (join_lines (line' :: lines)).
Proof. reflexivity. Qed.

Lemma plain_line_parts line :
  plain_line line = true ->
  line <> "" /\ plain line = true
  /\ all_chars (fun c => negb (Ascii.eqb c "010")) line = true.
Proof.
  unfold plain_line. intros [[Hne Hp]%andb_prop Hn]%andb_prop.
  apply negb_true_iff, bool_decide_eq_false in Hne. now repeat split.
Qed.

Lemma plain_from_append line : forall place text,
  line <> "" -> plain_from place line = true ->
  plain_from place (line +:+ text) = plain_from AfterWord text.
Proof.
  induction line as [|c rest IH]; intros place text Hne Hp; [congruence|].
  change (String c rest +:+ text) with (String c (rest +:+ text)).
  assert (Hrest : forall place', plain_from place' rest = true ->
                    (rest = "" -> place' = AfterWord) ->
                    plain_from place' (rest +:+ text) = plain_from AfterWord text).
  { intros place' Hr Hempty. destruct rest as [|d rest'].
    - now rewrite (Hempty eq_refl).
    - apply IH; [discriminate | exact Hr]. }
  destruct (plain_from_cases place c rest Hp)
    as [[Hs Hr] | [(-> & Hn & Hr) | (Hplace & Hs & Ht & Hr)]].
  - cbn [plain_from]. rewrite Hs. cbn [negb]. now apply Hrest.
  - destruct (line_feed_cases c Hn) as (_ & Hs & _).
    cbn [plain_from]. rewrite Hs, Hn. cbn [negb].
    apply Hrest; [exact Hr|]. intros ->. discriminate.
  - destruct (gap_cases c Hs Ht) as (Hn & _).
    assert (E : rest = "" -> InGap = AfterWord) by (intros ->; discriminate).
    destruct Hplace as [-> | ->]; cbn [plain_from]; rewrite Hs, ?Hn, Ht; cbn [negb];
      now apply Hrest.
Qed.

Lemma plain_from_line_start text :
  text <> "" -> plain_from AfterLineFeed text = plain_from AtStart text.
Proof. destruct text as [|c rest]; [congruence|]. intros _. reflexivity. Qed.

Lemma join_lines_nonempty line lines :
  line <> "" -> join_lines (line :: lines) <> "".
Proof.
  intros Hne. destruct lines as [|line' lines]; [exact Hne|].
  rewrite join_lines_cons. destruct line; [congruence | discriminate].
Qed.

(** Plain lines, joined by line feeds, make a plain text. *)
Lemma plain_join_lines lines :
  Forall (fun line => plain_line line = true) lines -> plain (join_lines lines) = true.
Proof.
  induction 1 as [|line lines Hline Hlines IH]; [reflexivity|].
  destruct (plain_line_parts line Hline) as (Hne & Hp & _).
  destruct lines as [|line' lines]; [exact Hp|].
  rewrite join_lines_cons. unfold plain.
  rewrite (plain_from_append line AtStart _ Hne Hp).
  change (plain_from AfterWord (String "010" (join_lines (line' :: lines))))
    with (plain_from AfterLineFeed (join_lines (line' :: lines))).
  rewrite plain_from_line_start; [exact IH|].
  apply join_lines_nonempty.
  inversion Hlines as [|? ? Hline' _]; subst.
  now destruct (plain_line_parts line' Hline').
Qed.

Lemma plain_without_terminator line : forall place,
  plain_from place line = true ->
  all_chars (fun c => negb (Ascii.eqb c "010")) line = true ->
  all_chars (fun c => negb (Text.is_terminator c)) line = true.
Proof.
  induction line as [|c rest IH]; intros place Hp Hn; [reflexivity|].
  cbn [all_chars] in Hn |- *. apply andb_prop in Hn as [Hc Hn].
  destruct (plain_from_cases place c rest Hp)
    as [[Hs Hr] | [(-> & Hfeed & Hr) | (Hplace & Hs & Ht & Hr)]].
  - destruct (space_cases c Hs) as (-> & _). cbn. now apply (IH AfterWord).
  - rewrite Hfeed in Hc. discriminate.
  - rewrite Ht. cbn. now apply (IH InGap).
Qed.

Lemma split_lines_char c text :
  Text.is_terminator c = false ->
  Text.split_lines (String c text)
  = match Text.split_lines text with
    | line :: lines => String c line :: lines
    | [] => [String c ""]
    end.
Proof.
  destruct c as [[] [] [] [] [] [] [] []]; vm_compute; intros E;
    try discriminate E; reflexivity.
Qed.

Lemma split_lines_first line text :
  all_chars (fun c => negb (Text.is_terminator c)) line = true ->
  Text.split_lines (line +:+ String "010" text) = line :: Text.split_lines text.
Proof.
  induction line as [|c rest IH]; intros Hl; [reflexivity|].
  cbn [all_chars] in Hl. apply andb_prop in Hl as [Hc Hl]. apply negb_true_iff in Hc.
  change (String c rest +:+ String "010" text)
    with (String c (rest +:+ String "010" text)).
  now rewrite (split_lines_char c _ Hc), (IH Hl).
Qed.

Lemma split_lines_single line :
  all_chars (fun c => negb (Text.is_terminator c)) line = true ->
  Text.split_lines line = [line].
Proof.
  induction line as [|c rest IH]; intros Hl; [reflexivity|].
  cbn [all_chars] in Hl. apply andb_prop in Hl as [Hc Hl]. apply negb_true_iff in Hc.
  now rewrite (split_lines_char c _ Hc), (IH Hl).
Qed.

(** Splitting gives back the plain lines that were joined. *)
Lemma split_join_lines line lines :
  Forall (fun l => plain_line l = true) (line :: lines) ->
  Text.split_lines (join_lines (line :: lines)) = line :: lines.
Proof.
  revert line. induction lines as [|line' lines IH]; intros line Hall;
    inversion Hall as [|? ? Hline Hrest]; subst;
    destruct (plain_line_parts line Hline) as (_ & Hp & Hn);
    pose proof (plain_without_terminator line AtStart Hp Hn) as Ht.
  - now apply split_lines_single.
  - rewrite join_lines_cons, (split_lines_first line _ Ht). f_equal. now apply IH.
Qed.

(** The dictionary file of plain lines is parsed from those lines. *)
Lemma dictionary_lines line lines :
  Forall (fun l => plain_line l = true) (line :: lines) ->
  Text.split_lines (removeDicComments (join_lines (line :: lines))) = line :: lines.
Proof.
  intros Hall. rewrite removeDicComments_plain by now apply plain_join_lines.
  now apply split_join_lines.
Qed.

Lemma trim_plain_line line : plain_line line = true -> JsString.trim line = line.
Proof.
  intros (_ & Hp & _)%plain_line_parts. unfold JsString.trim.
  rewrite (trim_start_plain line Hp). apply (trim_end_plain line AtStart Hp).
Qed.

(** X12: The lines of a dictionary of plain lines are read back from its
    text. *)
Theorem dictionary_file_lines line lines :
  Forall (fun l => plain_line l = true) (line :: lines) ->
  Text.split_lines (removeDicComments (join_lines (line :: lines))) = line :: lines.
Proof.
  intros Hall. unfold removeDicComments.
  pose proof (plain_join_lines _ Hall) as Hplain.
  pose proof (drop_tab_lines_plain _ AtStart Hplain) as E. cbn [scan_of] in E.
  rewrite E, (tidy_plain _ Hplain).
  now apply split_join_lines.
Qed.

Lemma dictionary_file_lines_witness :
  Text.split_lines (removeDicComments (join_lines ["2"; "cat"; "hot dog/S"]))
  = ["2"; "cat"; "hot dog/S"].
Proof.
  apply (dictionary_file_lines "2" ["cat"; "hot dog/S"]).
  repeat constructor.
Defined.

(** ** Words derived by the affix rules *)

(** What the step for [x] establishes, and the later steps keep, holds
    when the loop returns. *)
Lemma for_each_establishes {A S : Type} (P Q : S -> Prop)
    (body : S -> A -> result S) l x :
  (forall s y s', P s -> body s y = Ok s' -> P s') ->
  (forall s y s', P s -> Q s -> body s y = Ok s' -> Q s') ->
  (forall s s', P s -> body s x = Ok s' -> Q s') ->
  In x l ->
  forall s r, P s -> for_each body l s = Ok r -> Q r.
Proof.
  intros HP HQ Hx.
  assert (Hboth : forall s y s', P s /\ Q s -> body s y = Ok s' -> P s' /\ Q s').
  { intros s y s' [Hs Hq] E. split; [exact (HP s y s' Hs E) | exact (HQ s y s' Hs Hq E)]. }
  induction l as [|y l IH]; intros Hin s r Hs Hr; [destruct Hin|].
  cbn in Hr. destruct (body s y) as [s'|e] eqn:E; [|discriminate]. cbn in Hr.
  pose proof (HP s y s' Hs E) as Hs'.
  destruct Hin as [Heq | Hin].
  - subst y. pose proof (Hx s s' Hs E) as Hq.
    exact (proj2 (for_each_preserves (fun u => P u /\ Q u) body l Hboth s' r
                    (conj Hs' Hq) Hr)).
  - exact (IH Hin s' r Hs' Hr).
Qed.

(** A registration that returns keeps the words of the table. *)
Lemma addWord_keeps t word rules t' x :
  is_Some (t !! x) -> addWord t word rules = Ok t' -> is_Some (t' !! x).
Proof.
  intros Hx Hadd. destruct (decide (x = word)) as [-> | Hne].
  - unfold addWord in Hadd.
    destruct (call_hasOwnProperty t word) as [known|] eqn:Ek; [|discriminate].
    apply call_hasOwnProperty_returns in Ek as [_ ->]. cbn [bind] in Hadd.
    assert (Ho : hasOwnProperty (own t) word = true).
    { destruct Hx as [v Hv]. exact (hasOwnProperty_true _ _ _ Hv). }
    rewrite Ho in Hadd. cbn [negb] in Hadd.
    destruct (0 <? length rules); [|now injection Hadd as <-].
    cbv zeta in Hadd. destruct (table_get _ word); try discriminate.
    injection Hadd as <-. rewrite store_lookup_eq. eauto.
  - now rewrite (addWord_other _ _ _ _ _ Hadd Hne).
Qed.

Lemma addWords_keep x words : forall t t',
  all_null t /\ is_Some (t !! x) ->
  for_each (fun t word => addWord t word []) words t = Ok t' ->
  all_null t' /\ is_Some (t' !! x).
Proof.
  intros t t'. apply (for_each_preserves (fun u => all_null u /\ is_Some (u !! x))).
  intros u w u' [Hu Hux] Hw. split.
  - now apply (addWord_all_null u w [] u').
  - now apply (addWord_keeps u w [] u').
Qed.

Lemma combine_keeps fuel rules rule later t newWord t' x :
  all_null t /\ is_Some (t !! x) ->
  combine fuel rules rule later t newWord = Ok t' ->
  all_null t' /\ is_Some (t' !! x).
Proof.
  unfold combine. destruct (combineable rule); [|now intros ? [= <-]].
  apply (for_each_preserves (fun u => all_null u /\ is_Some (u !! x))).
  intros s code s' Hs Hstep.
  destruct (rules !! code) as [combineRule|]; [|now injection Hstep as <-].
  destruct (_ && _); [|now injection Hstep as <-].
  destruct (applyRule _ _ _ _) as [others|]; [|discriminate]. cbn [bind] in Hstep.
  now apply (addWords_keep x others s s').
Qed.

(** The registration of the words that a rule derives (source lines
    323-345) keeps the words of the table. *)
Lemma forms_keep fuel rules rule later x newWords : forall t t',
  all_null t /\ is_Some (t !! x) ->
  for_each (fun t newWord =>
              t <- addWord t newWord [];;
              combine fuel rules rule later t newWord) newWords t = Ok t' ->
  all_null t' /\ is_Some (t' !! x).
Proof.
  intros t t'. apply (for_each_preserves (fun u => all_null u /\ is_Some (u !! x))).
  intros u w u' [Hu Hux] Hw. cbv beta in Hw.
  destruct (addWord u w []) as [u1|] eqn:E1; [|discriminate]. cbn [bind] in Hw.
  refine (combine_keeps fuel rules rule later u1 w u' x _ Hw). split.
  - now apply (addWord_all_null u w [] u1).
  - now apply (addWord_keeps u w [] u1).
Qed.

(** It registers each of them, the word [__proto__] apart. *)
Lemma forms_registered fuel rules rule later form newWords : forall t t',
  all_null t ->
  form <> "__proto__" ->
  In form newWords ->
  for_each (fun t newWord =>
              t <- addWord t newWord [];;
              combine fuel rules rule later t newWord) newWords t = Ok t' ->
  is_Some (t' !! form).
Proof.
  intros t t' Ht Hproto Hin Hr.
  refine (for_each_establishes all_null (fun u => is_Some (u !! form)) _ newWords form
            _ _ _ Hin t t' Ht Hr).
  - intros u w u' Hu Hw. cbv beta in Hw.
    destruct (addWord u w []) as [u1|] eqn:E1; [|discriminate]. cbn [bind] in Hw.
    pose proof (addWord_all_null u w [] u1 Hu E1) as Hu1.
    eapply combine_all_null; eauto.
  - intros u w u' Hu Hq Hw. cbv beta in Hw.
    destruct (addWord u w []) as [u1|] eqn:E1; [|discriminate]. cbn [bind] in Hw.
    refine (proj2 (combine_keeps fuel rules rule later u1 w u' form _ Hw)). split.
    + now apply (addWord_all_null u w [] u1).
    + now apply (addWord_keeps u w [] u1).
  - intros u u' Hu Hw. cbv beta in Hw.
    destruct (addWord u form []) as [u1|] eqn:E1; [|discriminate]. cbn [bind] in Hw.
    refine (proj2 (combine_keeps fuel rules rule later u1 form u' form _ Hw)). split.
    + now apply (addWord_all_null u form [] u1).
    + now apply (addWord_stored u form [] u1).
Qed.

Lemma each_code_keeps fuel rules word x ruleCodesArray : forall b b',
  all_null (table b) /\ is_Some (table b !! x) ->
  each_code fuel rules word ruleCodesArray b = Ok b' ->
  all_null (table b') /\ is_Some (table b' !! x).
Proof.
  induction ruleCodesArray as [|code later IH]; intros b b' Hb Hr; cbn [each_code] in Hr.
  - now injection Hr as <-.
  - destruct (match rules !! code with Some _ => _ | None => _ end) as [t|] eqn:Et;
      [|discriminate].
    cbn [bind] in Hr. refine (IH _ _ _ Hr). cbn [table].
    destruct (rules !! code) as [rule|]; [|now injection Et as <-].
    destruct (applyRule _ _ _ _) as [newWords|]; [|discriminate]. cbn [bind] in Et.
    exact (forms_keep fuel rules rule later x newWords (table b) t Hb Et).
Qed.

Lemma each_code_registers fuel rules word code rule forms form ruleCodesArray :
  forall b b',
  all_null (table b) ->
  form <> "__proto__" ->
  In code ruleCodesArray ->
  rules !! code = Some rule ->
  applyRule fuel rules word rule = Ok forms ->
  In form forms ->
  each_code fuel rules word ruleCodesArray b = Ok b' ->
  is_Some (table b' !! form).
Proof.
  induction ruleCodesArray as [|code' later IH];
    intros b b' Hb Hproto Hin Hrule Hforms Hform Hr; [destruct Hin|].
  cbn [each_code] in Hr.
  destruct (match rules !! code' with Some _ => _ | None => _ end) as [t|] eqn:Et;
    [|discriminate].
  cbn [bind] in Hr.
  assert (Ht : all_null t).
  { destruct (rules !! code') as [rule'|]; [|now injection Et as <-].
    destruct (applyRule fuel rules word rule') as [newWords|]; [|discriminate].
    cbn [bind] in Et.
    refine (for_each_preserves all_null _ _ _ _ _ Hb Et).
    intros u w u' Hu Hw. cbv beta in Hw.
    destruct (addWord u w []) as [u1|] eqn:E1; [|discriminate]. cbn [bind] in Hw.
    pose proof (addWord_all_null u w [] u1 Hu E1) as Hu1.
    eapply combine_all_null; eauto. }
  destruct Hin as [-> | Hin].
  - rewrite Hrule, Hforms in Et. cbn [bind] in Et.
    pose proof (forms_registered fuel rules rule later form forms (table b) t Hb Hproto
                  Hform Et) as Hreg.
    refine (proj2 (each_code_keeps fuel rules word form later _ b' _ Hr)).
    cbn [table]. now split.
  - refine (IH _ b' _ Hproto Hin Hrule Hforms Hform Hr). exact Ht.
Qed.

Lemma parseDIC_line_keeps fuel flags rules x b line b' :
  all_null (table b) /\ is_Some (table b !! x) ->
  parseDIC_line fuel flags rules b line = Ok b' ->
  all_null (table b') /\ is_Some (table b' !! x).
Proof.
  intros [Hb Hx]. unfold parseDIC_line.
  destruct (take 2 (JsString.split_on "/" line)) as [|word [|text [|? ?]]].
  - now intros [= <-].
  - destruct (addWord _ _ _) as [t|] eqn:E; [|discriminate]. cbn.
    intros [= <-]. cbn. split.
    + now apply (addWord_all_null _ _ _ _ Hb E).
    + now apply (addWord_keeps _ _ _ _ _ Hx E).
  - destruct (parseRuleCodes _ _) as [rc|]; [|discriminate]. cbn.
    destruct (register_base _ _ _ _) as [t|] eqn:E; [|discriminate]. cbn.
    apply each_code_keeps. cbn.
    unfold register_base in E. destruct (_ || _).
    + split; [now apply (addWord_all_null _ _ _ _ Hb E)
             | now apply (addWord_keeps _ _ _ _ _ Hx E)].
    + injection E as <-. now split.
  - now intros [= <-].
Qed.

(** When [parseDIC] returns, the table holds, with the value null, every
    word other than [__proto__] that a rule named by a line [word/codes]
    of the dictionary derives from the word of that line. *)
Lemma derived_forms_registered
    fuel flags rules codes lines word text rc code rule forms form b :
  parseDIC fuel flags rules codes lines = Ok b ->
  form <> "__proto__" ->
  In (word +:+ "/" +:+ text) (drop 1 lines) ->
  no_slash word = true ->
  no_slash text = true ->
  parseRuleCodes flags (Some text) = Ok rc ->
  In code rc ->
  rules !! code = Some rule ->
  applyRule fuel rules word rule = Ok forms ->
  In form forms ->
  table b !! form = Some null.
Proof.
  intros Hb Hproto Hin Hword Htext Hrc Hcode Hrule Hforms Hform.
  pose proof (parseDIC_all_null _ _ _ _ _ _ Hb) as Hall.
  assert (Hsome : is_Some (table b !! form)).
  { unfold parseDIC in Hb.
    refine (for_each_establishes (fun s => all_null (table s))
              (fun s => is_Some (table s !! form))
              (parseDIC_line fuel flags rules) (drop 1 lines) _ _ _ _ Hin
              {| table := ∅; compoundRuleCodes := codes |} b all_null_empty Hb).
    - intros s line s'. apply parseDIC_line_all_null.
    - intros s line s' Hs Hq Hl.
      exact (proj2 (parseDIC_line_keeps fuel flags rules form s line s' (conj Hs Hq) Hl)).
    - intros s s' Hs Hl. unfold parseDIC_line in Hl.
      change (word +:+ "/" +:+ text) with (word +:+ String "/" text) in Hl.
      rewrite (split_on_first "/" word text Hword), (split_on_absent "/" text Htext) in Hl.
      cbn [take] in Hl. rewrite Hrc in Hl. cbn [bind] in Hl.
      destruct (register_base flags word rc (table s)) as [t|] eqn:E; [|discriminate].
      cbn [bind] in Hl.
      refine (each_code_registers fuel rules word code rule forms form rc
                {| table := t; compoundRuleCodes := compoundRuleCodes s |} s'
                _ Hproto Hcode Hrule Hforms Hform Hl).
      cbn [table]. unfold register_base in E. destruct (_ || _).
      + now apply (addWord_all_null _ _ _ _ Hs E).
      + now injection E as <-. }
  destruct Hsome as [value E]. now rewrite (Hall form value E Hproto) in E.
Qed.

(** ** Constructed engines *)

Section Constructed.
Context `{JsRegExp} `{JsRuntime}.

(** What a construction that returns has done. *)
Lemma construct_returned fuel language affixData dictionaryData flags0 st :
  language <> "" ->
  construct fuel language affixData dictionaryData flags0 = Some (Returned st) ->
  exists aff codes built rules,
    parseAFF fuel flags0 affixData = Returned aff
    /\ parseDIC fuel (defined_flags (Affix.flags aff)) (Affix.rules aff) codes
      (Text.split_lines (removeDicComments dictionaryData)) = Ok built
    /\ st = {| dictionaryTable := table built;
               compoundRules := rules;
               replacementTable := Affix.replacementTable aff;
               flags := Affix.flags aff;
               memoized := ∅;
               loaded := true;
               alphabet := "" |}.
Proof.
  intros Hlang. unfold construct.
  rewrite (bool_decide_eq_false_2 _ Hlang).
  destruct (_ || _); [discriminate|].
  destruct (parseAFF fuel flags0 affixData) as [aff| |] eqn:Haff; try discriminate.
  destruct (rule_codes (Affix.compoundRules aff)) as [codes|]; [|discriminate].
  destruct (bool_decide _); [discriminate|].
  intros [= Hbuild]. unfold build in Hbuild.
  destruct (parseDIC _ _ _ _ _) as [built|] eqn:Hdic; [|discriminate]. cbn in Hbuild.
  destruct (compile_rules _ _) as [rules| |]; try discriminate. cbn in Hbuild.
  injection Hbuild as <-.
  now exists aff, (tracked_codes codes (Affix.flags aff)), built, rules.
Qed.

(** A dictionary whose words all need an affix, and whose last line is
    [__proto__], leaves an engine that stores no word and whose table has
    no prototype; [re] is what the host compiles the compound rule AB
    to. *)
Lemma construct_bare_engine re :
  regexp_test_i "(con)(structor)" = Some re ->
  construct 9 "en"
    (join_lines ["NEEDAFFIX N"; "COMPOUNDMIN 3"; "COMPOUNDRULE 1"; "COMPOUNDRULE AB"])
    (join_lines ["3"; "con/AN"; "structor/BN"; "__proto__"]) ∅
  = Some (Returned {| dictionaryTable := {| own := ∅; prototype := NoPrototype |};
                      compoundRules := [re];
                      replacementTable := [];
                      flags := {["NEEDAFFIX" := Some "N"; "COMPOUNDMIN" := Some "3"]};
                      memoized := ∅;
                      loaded := true;
                      alphabet := "" |}).
Proof.
  intros Hre. vm_compute. vm_compute in Hre. rewrite Hre. reflexivity.
Qed.

(** X17: An engine that the constructor returns for a language is loaded
    and has an empty cache.  On a word other than [__proto__], [hasFlag]
    finds a flag in one case only, which no rule code of the dictionary
    brings about: the flag is a directive written without value, and the
    word is read from the table as a function that takes arguments.
    Every word of the table other than [__proto__] is valid on its own,
    whatever ONLYINCOMPOUND is. *)
Theorem constructed_engine_flags fuel language affixData dictionaryData flags0 st :
  language <> "" ->
  construct fuel language affixData dictionaryData flags0 = Some (Returned st) ->
  loaded st = true
  /\ memoized st = ∅
  /\ (forall word flag,
        word <> "__proto__" ->
        hasFlag st word flag None
        = Ok (bool_decide (flags st !! flag = Some None)
              && reads_arguments (dictionaryTable st) word))
  /\ (forall word,
        word <> "__proto__" ->
        is_Some (dictionaryTable st !! word) ->
        checkExact st word = Ok true).
Proof.
  intros Hlang Hc.
  destruct (construct_returned _ _ _ _ _ _ Hlang Hc) as (aff & codes & b & rules & Haff & Hb & ->).
  split; [reflexivity|]. split; [reflexivity|]. split.
  - intros word flag Hword.
    now apply (built_table_hasFlag fuel _ _ _ _ b _ word flag Hb).
  - cbn [dictionaryTable]. intros word Hword [value E].
    rewrite checkExact_loaded by reflexivity. cbn [dictionaryTable].
    rewrite (parseDIC_all_null _ _ _ _ _ _ Hb word value E Hword) in E.
    now rewrite (table_get_null _ _ E).
Qed.

(** [check] accepts a plain line that the table holds with null. *)
Lemma null_word_accepted st word :
  loaded st = true ->
  plain_line word = true ->
  dictionaryTable st !! word = Some null ->
  check st word = Ok true.
Proof.
  intros Hl Hline E. unfold check. rewrite Hl. cbn [negb].
  rewrite (trim_plain_line word Hline).
  rewrite checkExact_loaded by exact Hl.
  now rewrite (table_get_null _ _ E).
Qed.

(** When [parseDIC] returns, the table holds, with the value null, every
    plain line without [/] of the dictionary, first line and [__proto__]
    apart. *)
Lemma bare_word_registered fuel flags rules codes lines word b :
  parseDIC fuel flags rules codes lines = Ok b ->
  word <> "__proto__" ->
  In word (drop 1 lines) ->
  no_slash word = true ->
  plain_line word = true ->
  table b !! word = Some null.
Proof.
  intros Hb Hproto Hin Hbare Hline.
  pose proof (parseDIC_all_null _ _ _ _ _ _ Hb) as Hall.
  assert (Hsome : is_Some (table b !! word)).
  { unfold parseDIC in Hb.
    refine (for_each_establishes (fun s => all_null (table s))
              (fun s => is_Some (table s !! word))
              (parseDIC_line fuel flags rules) (drop 1 lines) _ _ _ _ Hin
              {| table := ∅; compoundRuleCodes := codes |} b all_null_empty Hb).
    - intros s line s'. apply parseDIC_line_all_null.
    - intros s line s' Hs Hq Hl.
      exact (proj2 (parseDIC_line_keeps fuel flags rules word s line s' (conj Hs Hq) Hl)).
    - intros s s' Hs Hl. unfold parseDIC_line in Hl.
      rewrite (split_on_absent "/" word Hbare) in Hl. cbn [take] in Hl.
      rewrite (trim_plain_line word Hline) in Hl.
      destruct (addWord (table s) word []) as [t|] eqn:E; [|discriminate].
      cbn [bind] in Hl. injection Hl as <-. cbn [table].
      exact (addWord_stored _ _ _ _ E Hproto). }
  destruct Hsome as [value E]. now rewrite (Hall word value E Hproto) in E.
Qed.

(** X18: An engine that the constructor returns for a dictionary of plain
    lines without [/] accepts each of the words listed after the first
    line, the word [__proto__] apart, whatever the affix file that let the
    constructor return is. *)
Theorem constructed_engine_accepts_its_words
    fuel language affixData flags0 count words st :
  language <> "" ->
  Forall (fun line => plain_line line = true) (count :: words) ->
  Forall (fun line => no_slash line = true) words ->
  construct fuel language affixData (join_lines (count :: words)) flags0
  = Some (Returned st) ->
  forall word, In word words -> word <> "__proto__" -> check st word = Ok true.
Proof.
  intros Hlang Hplain Hbare Hc word Hin Hproto.
  destruct (construct_returned _ _ _ _ _ _ Hlang Hc)
    as (aff & codes & b & rules & Haff & Hb & ->).
  rewrite (dictionary_lines count words Hplain) in Hb.
  assert (Hline : plain_line word = true).
  { inversion Hplain as [|? ? _ Hwords]; subst.
    rewrite Forall_forall in Hwords. apply Hwords. now apply list_elem_of_In. }
  assert (Hslash : no_slash word = true).
  { rewrite Forall_forall in Hbare. apply Hbare. now apply list_elem_of_In. }
  apply null_word_accepted; [reflexivity | exact Hline |].
  cbn [dictionaryTable].
  exact (bare_word_registered fuel _ _ codes (count :: words) word b Hb Hproto Hin
           Hslash Hline).
Qed.

(** X20: An engine is constructed from a dictionary of plain lines only if
    each line [word/codes] after the first, with a word other than
    [__proto__] and codes that are not empty, holds the code that
    NEEDAFFIX names: from a dictionary with any other such line the
    constructor returns no engine. *)
Theorem flagged_dictionary_needs_needaffix
    fuel language affixData flags0 lines word text st :
  language <> "" ->
  Forall (fun line => plain_line line = true) lines ->
  word <> "__proto__" ->
  no_slash word = true ->
  no_slash text = true ->
  text <> "" ->
  In (word +:+ "/" +:+ text) (drop 1 lines) ->
  construct fuel language affixData (join_lines lines) flags0 = Some (Returned st) ->
  exists needaffix rc,
    flags st !! "NEEDAFFIX" = Some (Some needaffix)
    /\ parseRuleCodes (defined_flags (flags st)) (Some text) = Ok rc
    /\ needaffix ∈ rc.
Proof.
  intros Hlang Hplain Hproto Hword Htext Hne Hin Hc.
  destruct (construct_returned _ _ _ _ _ _ Hlang Hc) as (aff & codes & b & rules & Haff & Hb & ->).
  cbn [flags].
  destruct lines as [|count words]; [destruct Hin|].
  rewrite (dictionary_lines count words Hplain) in Hb.
  assert (Hdef : forall name value,
            defined_flags (Affix.flags aff) !! name = Some value ->
            Affix.flags aff !! name = Some (Some value)).
  { intros name value. unfold defined_flags. rewrite lookup_omap.
    destruct (Affix.flags aff !! name) as [[v|]|]; cbn; congruence. }
  set (fl := defined_flags (Affix.flags aff)) in *.
  assert (Hthrows : (forall needaffix rc,
                       fl !! "NEEDAFFIX" = Some needaffix ->
                       parseRuleCodes fl (Some text) = Ok rc -> needaffix ∉ rc) ->
                    False).
  { intros Hgate. unfold parseDIC in Hb.
    destruct (for_each_step (fun s => all_null (table s))
                (parseDIC_line fuel fl (Affix.rules aff)) (drop 1 (count :: words))
                (word +:+ "/" +:+ text)
                (fun s line s' => parseDIC_line_all_null fuel fl (Affix.rules aff) s line s')
                Hin {| table := ∅; compoundRuleCodes := codes |} b
                all_null_empty Hb) as (s1 & s2 & Hs1 & Hline).
    destruct (parseDIC_line_flagged fuel fl (Affix.rules aff) s1 word text
                Hs1 Hproto Hgate Hword Htext Hne) as [e He].
    congruence. }
  destruct (fl !! "NEEDAFFIX") as [needaffix|] eqn:Hgate;
    [|exfalso; apply Hthrows; intros n rc Hn; discriminate Hn].
  destruct (parseRuleCodes fl (Some text)) as [rc|e] eqn:Hrc;
    [|exfalso; apply Hthrows; intros n rc _ Hn; discriminate Hn].
  destruct (decide (needaffix ∈ rc)) as [Hin'|Hout].
  - exists needaffix, rc. split; [now apply Hdef|]. now split.
  - exfalso. apply Hthrows. intros n rc' [= <-] [= <-]. exact Hout.
Qed.

(** X21: On an engine that the constructor returns for an affix file and
    a dictionary of plain lines, [checkExact] accepts every word other
    than [__proto__] that a rule of the affix file, named by a line
    [word/codes] of the dictionary, derives from the word of that line. *)
Theorem constructed_engine_accepts_derived_forms
    fuel language affixData flags0 lines st aff word text rc code rule forms form :
  language <> "" ->
  parseAFF fuel flags0 affixData = Returned aff ->
  construct fuel language affixData (join_lines lines) flags0 = Some (Returned st) ->
  Forall (fun line => plain_line line = true) lines ->
  In (word +:+ "/" +:+ text) (drop 1 lines) ->
  no_slash word = true ->
  no_slash text = true ->
  parseRuleCodes (defined_flags (flags st)) (Some text) = Ok rc ->
  In code rc ->
  Affix.rules aff !! code = Some rule ->
  applyRule fuel (Affix.rules aff) word rule = Ok forms ->
  In form forms ->
  form <> "__proto__" ->
  checkExact st form = Ok true.
Proof.
  intros Hlang Haff Hc Hplain Hin Hword Htext Hrc Hcode Hrule Hforms Hform Hproto.
  destruct (construct_returned _ _ _ _ _ _ Hlang Hc)
    as (aff' & codes & b & rules & Haff' & Hb & ->).
  rewrite Haff in Haff'. injection Haff' as <-.
  destruct lines as [|count words]; [destruct Hin|].
  rewrite (dictionary_lines count words Hplain) in Hb. cbn [flags] in Hrc.
  pose proof (derived_forms_registered fuel _ _ codes (count :: words) word text rc code
                rule forms form b Hb Hproto Hin Hword Htext Hrc Hcode Hrule Hforms Hform)
    as Hnull.
  rewrite checkExact_loaded by reflexivity. cbn [dictionaryTable].
  now rewrite (table_get_null _ _ Hnull).
Qed.

End Constructed.

Lemma constructed_engine_accepts_derived_forms_witness :
  checkExact {| dictionaryTable := {| own := {["cats" := null; "dog" := null]};
                                      prototype := ObjectPrototype |};
                compoundRules := [];
                replacementTable := [];
                flags := {["NEEDAFFIX" := Some "N"]};
                memoized := ∅;
                loaded := true;
                alphabet := "" |} "cats" = Ok true.
Proof.
  pose (plural := {| type := SFX; combineable := true;
                     entries := [{| add := "s"; continuationClasses := None;
                                    match_ := None; remove := None |}] |}).
  apply (constructed_engine_accepts_derived_forms 5 "en"
           (join_lines ["NEEDAFFIX N"; "SFX S Y 1"; "SFX S 0 s ."]) ∅
           ["2"; "cat/NS"; "dog"] _
           {| Affix.rules := {["S" := plural]};
              Affix.flags := {["NEEDAFFIX" := Some "N"]};
              Affix.compoundRules := [];
              Affix.replacementTable := [] |}
           "cat" "NS" ["N"; "S"] "S" plural ["cats"] "cats").
  - discriminate.
  - vm_compute. reflexivity.
  - vm_compute. reflexivity.
  - repeat constructor.
  - left. reflexivity.
  - reflexivity.
  - reflexivity.
  - reflexivity.
  - right. left. reflexivity.
  - reflexivity.
  - reflexivity.
  - left. reflexivity.
  - discriminate.
Defined.

(** ** The affix file *)

Lemma marks_append a b : marks (a +:+ b) = marks a +:+ marks b.
Proof.
  induction a as [|c a IH]; [reflexivity|].
  change (String c a +:+ b) with (String c (a +:+ b)). cbn [marks].
  destruct (_ || _); [exact IH|].
  change (String c (marks a) +:+ marks b) with (String c (marks a +:+ marks b)).
  now rewrite IH.
Qed.

Lemma marks_spaces run : all_chars JsString.is_space run = true -> marks run = "".
Proof.
  induction run as [|c run IH]; [reflexivity|].
  cbn [all_chars marks]. intros [Hc Hr]%andb_prop. rewrite Hc. now apply IH.
Qed.

Lemma marks_trim_start text : marks (JsString.trim_start text) = marks text.
Proof.
  induction text as [|c rest IH]; [reflexivity|].
  cbn [JsString.trim_start marks].
  destruct (JsString.is_space c) eqn:Hc; [exact IH|]. cbn [marks]. now rewrite Hc.
Qed.

Lemma marks_trim_end text : marks (JsString.trim_end text) = marks text.
Proof.
  induction text as [|c rest IH]; [reflexivity|].
  cbn [JsString.trim_end marks]. rewrite <- IH.
  destruct (JsString.trim_end rest) as [|d t] eqn:E.
  - destruct (JsString.is_space c) eqn:Hc; [reflexivity|]. cbn [marks]. now rewrite Hc.
  - reflexivity.
Qed.

Lemma marks_drop_hashes text :
  (forall state, state <> Text.Dropping ->
     marks (Text.drop_hashes state text) = marks text)
  /\ (Text.hash_after_spaces text = true ->
      marks (Text.drop_hashes Text.Dropping text) = marks text).
Proof.
  induction text as [|c rest [IHkeep IHdrop]].
  { split; [reflexivity | discriminate]. }
  assert (Hafter : Text.after c <> Text.Dropping)
    by (unfold Text.after; destruct (Text.is_terminator c); discriminate).
  assert (Hdrop : Text.hash_after_spaces (String c rest) = true ->
                  marks (Text.drop_hashes Text.Dropping (String c rest))
                  = marks (String c rest)).
  { cbn [Text.hash_after_spaces Text.drop_hashes marks].
    destruct (Ascii.eqb c "#") eqn:Hc.
    - intros _. rewrite orb_true_r. now apply IHkeep.
    - destruct (JsString.is_space c) eqn:Hs; [|discriminate].
      intros Hh. cbn [orb]. now apply IHdrop. }
  split; [|exact Hdrop].
  intros state Hstate. destruct state; [| |congruence].
  - cbn [Text.drop_hashes].
    destruct (Text.hash_after_spaces (String c rest)) eqn:Hh.
    + specialize (Hdrop eq_refl). cbn [Text.drop_hashes] in Hdrop.
      destruct (Ascii.eqb c "#") eqn:Hc; [|exact Hdrop].
      cbn [marks]. rewrite Hc, orb_true_r. now apply IHkeep.
    + cbn [marks]. destruct (_ || _); [|f_equal]; now apply IHkeep.
  - cbn [Text.drop_hashes marks]. destruct (_ || _); [|f_equal]; now apply IHkeep.
Qed.

Lemma marks_trim_first_line_start text : forall state,
  marks (Text.trim_first_line_start state text) = marks text.
Proof.
  induction text as [|c rest IH]; intros state; [reflexivity|].
  destruct state; cbn [Text.trim_first_line_start marks];
    try (destruct (_ || _); [|f_equal]; now apply IH).
  destruct (JsString.is_space c) eqn:Hs.
  - cbn [orb]. apply marks_trim_start.
  - cbn [marks]. rewrite Hs. cbn [orb]. destruct (Ascii.eqb c "#"); [|f_equal]; apply IH.
Qed.

Lemma cut_is_whitespace run : forall seen kept,
  all_chars JsString.is_space run = true ->
  Text.cut_at_last_terminator seen run = Some kept ->
  all_chars JsString.is_space kept = true.
Proof.
  induction run as [|c run IH]; intros seen kept Hr; [discriminate|].
  cbn [all_chars] in Hr. pose proof Hr as Hall. apply andb_prop in Hr as [Hc Hr].
  cbn [Text.cut_at_last_terminator].
  destruct (Text.cut_at_last_terminator true run) as [k|] eqn:E.
  - intros [= <-]. now apply (IH true k).
  - destruct (seen && Text.is_terminator c); [|discriminate].
    intros [= <-]. exact Hall.
Qed.

Lemma marks_trim_first_line_end text : forall run,
  match run with
  | Some r => all_chars JsString.is_space r = true
  | None => True
  end ->
  marks (Text.trim_first_line_end run text) = marks text.
Proof.
  induction text as [|c rest IH]; intros run Hrun; [reflexivity|].
  cbn [Text.trim_first_line_end marks].
  destruct (JsString.is_space c) eqn:Hs.
  - cbn [orb]. apply IH. destruct run as [r|].
    + apply all_chars_snoc; assumption.
    + cbn [all_chars]. now rewrite Hs.
  - cbn [orb]. destruct run as [r|].
    + destruct (Text.cut_at_last_terminator false r) as [kept|] eqn:E.
      * rewrite marks_append, (marks_spaces kept (cut_is_whitespace r false kept Hrun E)).
        cbn [marks]. now rewrite Hs.
      * rewrite marks_append, (marks_spaces r Hrun).
        cbn [marks]. rewrite Hs. cbn [orb].
        destruct (Ascii.eqb c "#"); [|change ("" +:+ ?x) with x; f_equal]; now apply IH.
    + cbn [marks]. rewrite Hs. cbn [orb].
      destruct (Ascii.eqb c "#"); [|f_equal]; now apply IH.
Qed.

Lemma marks_collapse_newlines text : forall afterNewline,
  marks (Text.collapse_newlines afterNewline text) = marks text.
Proof.
  induction text as [|c rest IH]; intros afterNewline; [reflexivity|].
  cbn [Text.collapse_newlines marks].
  destruct (Ascii.eqb c "010") eqn:Hc.
  - apply Ascii.eqb_eq in Hc as ->. cbn [JsString.is_space orb].
    change (JsString.is_space "010" || Ascii.eqb "010" "#") with true. cbv iota.
    destruct afterNewline; [apply IH|].
    cbn [marks]. change (JsString.is_space "010" || Ascii.eqb "010" "#") with true.
    cbv iota. apply IH.
  - cbn [marks]. destruct (_ || _); [|f_equal]; apply IH.
Qed.

Lemma marks_tidy text : marks (Text.tidy text) = marks text.
Proof.
  unfold Text.tidy.
  now rewrite marks_trim_end, marks_trim_start, marks_collapse_newlines,
    (marks_trim_first_line_end _ None I), marks_trim_first_line_start.
Qed.

(** X13: [removeAffixComments] removes nothing but whitespace and [#]: the
    characters of a comment line are all in its result, in their order. *)
Theorem removeAffixComments_keeps_comment_text data :
  marks (removeAffixComments data) = marks data.
Proof.
  unfold removeAffixComments. rewrite marks_tidy.
  now apply (proj1 (marks_drop_hashes data)).
Qed.

(** ** The loop of [parseAFF] *)

Section AffixLoop.
Context `{JsRegExp}.

Lemma with_flags_same st : with_flags st (Affix.flags st) = st.
Proof. now destruct st. Qed.

Lemma directive_keyword line :
  directive line = true ->
  keyword line <> "PFX" /\ keyword line <> "SFX"
  /\ keyword line <> "COMPOUNDRULE" /\ keyword line <> "REP".
Proof.
  unfold directive. intros Hd%negb_true_iff%bool_decide_eq_false.
  repeat split; intros E; apply Hd; rewrite E;
    repeat (first [apply list_elem_of_here | apply list_elem_of_further]).
Qed.

Lemma parseAFF_line_directive lines i line st :
  directive line = true ->
  parseAFF_line lines i line st
  = Returned (with_flags st (set_flag (Affix.flags st) line), Some (Z.of_nat i)).
Proof.
  intros (Hp & Hs & Hc & Hr)%directive_keyword. unfold parseAFF_line.
  fold (keyword line).
  rewrite (bool_decide_eq_false_2 _ Hp), (bool_decide_eq_false_2 _ Hs),
    (bool_decide_eq_false_2 _ Hc), (bool_decide_eq_false_2 _ Hr).
  reflexivity.
Qed.

Lemma parseAFF_from_step fuel lines i line st :
  lines !! i = Some line ->
  parseAFF_from (S fuel) lines (Z.of_nat i) st
  = (next <~ parseAFF_line lines i line st;;
     match next.2 with
     | None => Returned next.1
     | Some j => parseAFF_from fuel lines (j + 1) next.1
     end).
Proof.
  intros Hl. pose proof (lookup_lt_Some _ _ _ Hl) as Hlt.
  cbn [parseAFF_from].
  destruct (Z.leb_spec (Z.of_nat (length lines)) (Z.of_nat i)) as [Hle|_]; [lia|].
  destruct (Z.ltb_spec (Z.of_nat i) 0) as [Hneg|_]; [lia|].
  now rewrite Nat2Z.id, Hl.
Qed.

Lemma parseAFF_from_end fuel lines st :
  parseAFF_from (S fuel) lines (Z.of_nat (length lines)) st = Returned st.
Proof. cbn [parseAFF_from]. now rewrite Z.leb_refl. Qed.

(** A run of directive lines is read line by line, and changes the flags
    only. *)
Lemma parseAFF_from_directives ds : forall pre post st fuel,
  Forall (fun line => directive line = true) ds ->
  parseAFF_from (length ds + fuel) (pre ++ ds ++ post) (Z.of_nat (length pre)) st
  = parseAFF_from fuel (pre ++ ds ++ post) (Z.of_nat (length pre + length ds))
      (with_flags st (foldl set_flag (Affix.flags st) ds)).
Proof.
  induction ds as [|d ds IH]; intros pre post st fuel Hds.
  - cbn [length foldl Nat.add]. now rewrite Nat.add_0_r, with_flags_same.
  - inversion Hds as [|? ? Hd Hrest]; subst.
    change (length (d :: ds) + fuel) with (S (length ds + fuel)).
    rewrite (parseAFF_from_step _ _ (length pre) d)
      by (rewrite lookup_app_r by lia; now rewrite Nat.sub_diag).
    rewrite (parseAFF_line_directive _ _ _ _ Hd). cbn [and_then snd fst].
    replace (Z.of_nat (length pre) + 1)%Z with (Z.of_nat (length (pre ++ [d])))
      by (rewrite length_app; cbn [length]; lia).
    replace (pre ++ (d :: ds) ++ post) with ((pre ++ [d]) ++ ds ++ post)
      by (now rewrite <- app_assoc).
    rewrite (IH (pre ++ [d]) post _ fuel Hrest).
    cbn [with_flags Affix.flags Affix.rules Affix.compoundRules
         Affix.replacementTable foldl].
    f_equal. rewrite length_app. cbn [length]. f_equal. lia.
Qed.

Lemma set_flag_lookup flags line name :
  name <> "__proto__" ->
  set_flag flags line !! name
  = if bool_decide (keyword line = name) then Some (argument line) else flags !! name.
Proof.
  intros Hname. unfold set_flag.
  destruct (bool_decide (keyword line = "__proto__")) eqn:Hp.
  - apply bool_decide_eq_true in Hp.
    rewrite bool_decide_eq_false_2; [reflexivity | congruence].
  - destruct (decide (keyword line = name)) as [E|E].
    + rewrite (bool_decide_eq_true_2 _ E), E. apply lookup_insert_eq.
    + rewrite (bool_decide_eq_false_2 _ E). now apply lookup_insert_ne.
Qed.

(** Of the directives with one name, the last one gives the flag. *)
Lemma foldl_set_flag name ds : forall flags,
  name <> "__proto__" ->
  foldl set_flag flags ds !! name
  = match last_directive name ds with
    | Some line => Some (argument line)
    | None => flags !! name
    end.
Proof.
  induction ds as [|d ds IH]; intros flags Hname; [reflexivity|].
  cbn [foldl last_directive]. rewrite (IH _ Hname).
  destruct (last_directive name ds); [reflexivity|].
  rewrite (set_flag_lookup _ _ _ Hname). now destruct (bool_decide _).
Qed.

End AffixLoop.

(** ** The lines of an affix file *)

Lemma drop_hashes_in_line line : forall text,
  all_chars (fun c => negb (Text.is_terminator c)) line = true ->
  Text.drop_hashes Text.InLine (line +:+ String "010" text)
  = line +:+ String "010" (Text.drop_hashes Text.LineStart text)
  /\ Text.drop_hashes Text.InLine line = line.
Proof.
  induction line as [|c rest IH]; intros text Hl; [split; reflexivity|].
  cbn [all_chars] in Hl. apply andb_prop in Hl as [Hc Hl]. apply negb_true_iff in Hc.
  change (String c rest +:+ String "010" text)
    with (String c (rest +:+ String "010" text)).
  cbn [Text.drop_hashes]. unfold Text.after. rewrite Hc.
  destruct (IH text Hl) as [-> ->]. split; reflexivity.
Qed.

Lemma drop_hashes_line line text :
  plain_line line = true ->
  Text.drop_hashes Text.LineStart (line +:+ String "010" text)
  = uncomment line +:+ String "010" (Text.drop_hashes Text.LineStart text)
  /\ Text.drop_hashes Text.LineStart line = uncomment line.
Proof.
  intros (Hne & Hp & Hn)%plain_line_parts.
  pose proof (plain_without_terminator line AtStart Hp Hn) as Ht.
  destruct line as [|c rest]; [congruence|].
  cbn [all_chars] in Ht. apply andb_prop in Ht as [Hc Hrest].
  apply negb_true_iff in Hc.
  destruct (plain_from_cases AtStart c rest Hp)
    as [[Hs _] | [(Habs & _) | ([Habs | Habs] & _)]]; try discriminate.
  destruct (drop_hashes_in_line rest text Hrest) as [E1 E2].
  change (String c rest +:+ String "010" text)
    with (String c (rest +:+ String "010" text)).
  cbn [Text.drop_hashes Text.hash_after_spaces].
  destruct (Ascii.eqb c "#") eqn:Hh.
  - apply Ascii.eqb_eq in Hh as ->. cbn [uncomment]. now rewrite E1, E2.
  - rewrite Hs. unfold Text.after. rewrite Hc, E1, E2.
    assert (Hu : uncomment (String c rest) = String c rest).
    { destruct c as [[] [] [] [] [] [] [] []]; try reflexivity; discriminate Hh. }
    rewrite Hu. split; reflexivity.
Qed.

Lemma drop_hashes_join lines :
  Forall (fun line => plain_line line = true) lines ->
  Text.drop_hashes Text.LineStart (join_lines lines) = join_lines (map uncomment lines).
Proof.
  induction 1 as [|line lines Hline Hlines IH]; [reflexivity|].
  destruct lines as [|line' lines].
  - apply (drop_hashes_line line "" Hline).
  - cbn [map] in IH |- *. rewrite !join_lines_cons.
    rewrite (proj1 (drop_hashes_line line _ Hline)). now rewrite IH.
Qed.

Lemma split_on_join line lines :
  Forall (fun l => plain_line l = true) (line :: lines) ->
  JsString.split_on "010" (join_lines (line :: lines)) = line :: lines.
Proof.
  revert line. induction lines as [|line' lines IH]; intros line Hall;
    inversion Hall as [|? ? Hline Hrest]; subst;
    destruct (plain_line_parts line Hline) as (_ & _ & Hn).
  - now apply split_on_absent.
  - rewrite join_lines_cons, (split_on_first "010" line _ Hn). now rewrite (IH line' Hrest).
Qed.

(** The lines that [parseAFF] reads from a text of plain lines: its lines
    without the [#] at their start. *)
Lemma affix_lines line lines :
  Forall (fun l => plain_line l = true) (line :: lines) ->
  Forall (fun l => plain_line (uncomment l) = true) (line :: lines) ->
  JsString.split_on "010" (removeAffixComments (join_lines (line :: lines)))
  = map uncomment (line :: lines).
Proof.
  intros Hlines Hun.
  pose proof (proj2 (Forall_map uncomment (fun l => plain_line l = true)
                       (line :: lines)) Hun) as Hplain.
  unfold removeAffixComments. rewrite (drop_hashes_join _ Hlines).
  rewrite (tidy_plain _ (plain_join_lines _ Hplain)).
  exact (split_on_join _ _ Hplain).
Qed.

Section AffixFile.
Context `{JsRegExp}.

(** What [parseAFF] returns when the lines it reads are [ds], all of them
    directives. *)
Lemma parseAFF_directives fuel flags data ds :
  JsString.split_on "010" (removeAffixComments data) = ds ->
  Forall (fun line => directive line = true) ds ->
  length ds < fuel ->
  parseAFF fuel flags data
  = Returned {| Affix.rules := ∅;
                Affix.flags := foldl set_flag (Some <$> flags) ds;
                Affix.compoundRules := [];
                Affix.replacementTable := [] |}.
Proof.
  intros Hlines Hds Hfuel. unfold parseAFF. rewrite Hlines.
  replace fuel with (length ds + S (fuel - length ds - 1)) by lia.
  pose proof (parseAFF_from_directives ds [] []
                {| Affix.rules := ∅; Affix.flags := Some <$> flags;
                   Affix.compoundRules := []; Affix.replacementTable := [] |}
                (S (fuel - length ds - 1)) Hds) as E.
  rewrite app_nil_r in E. cbn [app length Nat.add] in E.
  change (Z.of_nat 0) with 0%Z in E. rewrite E.
  now rewrite parseAFF_from_end.
Qed.

(** X14: In an affix file of plain lines that are directives once the [#] at
    their start is removed, a line that starts with [#] is read like any
    other: the file yields no rule, and each flag has the argument of the
    last line that names it, or else the value given to the constructor. *)
Theorem parseAFF_reads_commented_directives fuel flags line lines :
  Forall (fun l => plain_line l = true) (line :: lines) ->
  Forall (fun l => plain_line (uncomment l) = true) (line :: lines) ->
  Forall (fun l => directive (uncomment l) = true) (line :: lines) ->
  length (line :: lines) < fuel ->
  exists aff,
    parseAFF fuel flags (join_lines (line :: lines)) = Returned aff
    /\ Affix.rules aff = ∅
    /\ Affix.compoundRules aff = []
    /\ Affix.replacementTable aff = []
    /\ forall name, name <> "__proto__" ->
         Affix.flags aff !! name
         = match last_directive name (map uncomment (line :: lines)) with
           | Some l => Some (argument l)
           | None => Some <$> flags !! name
           end.
Proof.
  intros Hlines Hun Hds Hfuel.
  pose proof (proj2 (Forall_map uncomment (fun l => directive l = true)
                       (line :: lines)) Hds) as Hdir.
  eexists. split.
  - apply (parseAFF_directives fuel flags _ _ (affix_lines line lines Hlines Hun) Hdir).
    now rewrite length_map.
  - cbn [Affix.rules Affix.compoundRules Affix.replacementTable Affix.flags].
    repeat split. intros name Hname.
    rewrite (foldl_set_flag name _ _ Hname).
    destruct (last_directive _ _); [reflexivity|]. apply lookup_fmap.
Qed.

End AffixFile.

Section AffixBlocks.
Context `{JsRegExp}.

Lemma drop_past_header (ds : list string) header rest :
  drop (S (length ds)) (ds ++ header :: rest) = rest.
Proof. induction ds as [|d ds IH]; [reflexivity | exact IH]. Qed.

(** [parseAFF] up to the first line that is not a directive. *)
Lemma parseAFF_header fuel flags data ds header rest :
  JsString.split_on "010" (removeAffixComments data) = ds ++ header :: rest ->
  Forall (fun line => directive line = true) ds ->
  parseAFF (length ds + S fuel) flags data
  = (next <~ parseAFF_line (ds ++ header :: rest) (length ds) header
               {| Affix.rules := ∅;
                  Affix.flags := foldl set_flag (Some <$> flags) ds;
                  Affix.compoundRules := [];
                  Affix.replacementTable := [] |};;
     match next.2 with
     | None => Returned next.1
     | Some j => parseAFF_from fuel (ds ++ header :: rest) (j + 1) next.1
     end).
Proof.
  intros Hlines Hds. unfold parseAFF. rewrite Hlines.
  pose proof (parseAFF_from_directives ds [] (header :: rest)
                {| Affix.rules := ∅; Affix.flags := Some <$> flags;
                   Affix.compoundRules := []; Affix.replacementTable := [] |}
                (S fuel) Hds) as E.
  cbn [app length Nat.add] in E. change (Z.of_nat 0) with 0%Z in E. rewrite E.
  apply parseAFF_from_step. rewrite lookup_app_r by lia. now rewrite Nat.sub_diag.
Qed.

Lemma keyword_block line :
  keyword line = "PFX" \/ keyword line = "SFX" ->
  bool_decide (default "" (split_spaces line !! 0) = "PFX")
  || bool_decide (default "" (split_spaces line !! 0) = "SFX") = true.
Proof.
  unfold keyword. intros [-> | ->]; [reflexivity|]. apply orb_true_r.
Qed.

Lemma keyword_compound line :
  keyword line = "COMPOUNDRULE" ->
  bool_decide (default "" (split_spaces line !! 0) = "PFX")
  || bool_decide (default "" (split_spaces line !! 0) = "SFX") = false
  /\ bool_decide (default "" (split_spaces line !! 0) = "COMPOUNDRULE") = true.
Proof. unfold keyword. intros ->. split; reflexivity. Qed.

(** X15: A block whose header gives no number for its count ends the parse:
    the lines after it are never read, and no rule of the result has an
    entry. The lines in front of the header are directives. *)
Theorem parseAFF_stops_at_bad_count fuel flags data ds header rest :
  JsString.split_on "010" (removeAffixComments data) = ds ++ header :: rest ->
  Forall (fun line => directive line = true) ds ->
  length ds < fuel ->
  ((keyword header = "PFX" \/ keyword header = "SFX")
   /\ parseInt (split_spaces header !! 3) = None)
  \/ (keyword header = "COMPOUNDRULE" /\ parseInt (split_spaces header !! 1) = None) ->
  exists aff,
    parseAFF fuel flags data = Returned aff
    /\ (forall code rule, Affix.rules aff !! code = Some rule -> entries rule = [])
    /\ Affix.compoundRules aff = []
    /\ Affix.replacementTable aff = []
    /\ forall data' rest',
         JsString.split_on "010" (removeAffixComments data') = ds ++ header :: rest' ->
         parseAFF fuel flags data' = Returned aff.
Proof.
  intros Hlines Hds Hfuel Hheader.
  replace fuel with (length ds + S (fuel - length ds - 1)) by lia.
  destruct Hheader as [[Hk Hn] | [Hk Hn]].
  - assert (Hall : forall data' rest',
              JsString.split_on "010" (removeAffixComments data') = ds ++ header :: rest' ->
              parseAFF (length ds + S (fuel - length ds - 1)) flags data'
              = Returned
                  {| Affix.rules :=
                       if bool_decide (split_spaces header !! 1 = Some "__proto__")
                       then ∅
                       else <[JsString.to_text (split_spaces header !! 1) :=
                               {| type := if bool_decide
                                               (default "" (split_spaces header !! 0) = "SFX")
                                          then SFX else PFX;
                                  combineable :=
                                    bool_decide (split_spaces header !! 2 = Some "Y");
                                  entries := [] |}]> ∅;
                     Affix.flags := foldl set_flag (Some <$> flags) ds;
                     Affix.compoundRules := [];
                     Affix.replacementTable := [] |}).
    { intros data' rest' Hlines'.
      rewrite (parseAFF_header _ _ _ _ _ _ Hlines' Hds).
      unfold parseAFF_line. rewrite (keyword_block _ Hk), Hn. reflexivity. }
    eexists. split; [exact (Hall data rest Hlines)|].
    cbn [Affix.rules Affix.compoundRules Affix.replacementTable].
    split; [|split; [reflexivity|split; [reflexivity|exact Hall]]].
    intros code rule. destruct (bool_decide _); [now rewrite lookup_empty|].
    destruct (decide (JsString.to_text (split_spaces header !! 1) = code)) as [<-|Hne].
    + rewrite lookup_insert_eq. now intros [= <-].
    + rewrite lookup_insert_ne by exact Hne. now rewrite lookup_empty.
  - assert (Hall : forall data' rest',
              JsString.split_on "010" (removeAffixComments data') = ds ++ header :: rest' ->
              parseAFF (length ds + S (fuel - length ds - 1)) flags data'
              = Returned
                  {| Affix.rules := ∅;
                     Affix.flags := foldl set_flag (Some <$> flags) ds;
                     Affix.compoundRules := [];
                     Affix.replacementTable := [] |}).
    { intros data' rest' Hlines'.
      rewrite (parseAFF_header _ _ _ _ _ _ Hlines' Hds).
      unfold parseAFF_line.
      destruct (keyword_compound _ Hk) as [-> ->]. rewrite Hn. reflexivity. }
    eexists. split; [exact (Hall data rest Hlines)|].
    cbn [Affix.rules Affix.compoundRules Affix.replacementTable].
    split; [|split; [reflexivity|split; [reflexivity|exact Hall]]].
    intros code rule. now rewrite lookup_empty.
Qed.

Lemma read_entries_fails {A : Type} (body : string -> outcome A)
    (P : exn -> Prop) (Q : Prop) ls :
  (forall l e, body l = Thrown e -> P e) ->
  (forall l, body l = SyntaxError -> Q) ->
  match read_entries body ls with
  | Returned _ => True
  | Thrown e => P e
  | SyntaxError => Q
  end.
Proof.
  intros Hthrown Hsyntax. induction ls as [|l ls IH]; [exact I|].
  cbn [read_entries]. destruct (body l) as [a|e|] eqn:E; cbn [and_then].
  - destruct (read_entries body ls) as [more|e|]; cbn [and_then]; [exact I | exact IH..].
  - now apply (Hthrown l).
  - now apply (Hsyntax l).
Qed.

(** A block that announces more lines than follow its header does not
    return. *)
Lemma block_overrun {A : Type} (body : string -> outcome A)
    (P : exn -> Prop) (Q : Prop) n following :
  P TypeError ->
  (forall l e, body l = Thrown e -> P e) ->
  (forall l, body l = SyntaxError -> Q) ->
  length following < Z.to_nat n ->
  match block body (Some n) following with
  | Returned _ => False
  | Thrown e => P e
  | SyntaxError => Q
  end.
Proof.
  intros Htype Hthrown Hsyntax Hshort. unfold block.
  pose proof (read_entries_fails body P Q (take (Z.to_nat n) following)
                Hthrown Hsyntax) as Hread.
  destruct (read_entries body _) as [read|e|]; cbn [and_then]; [|exact Hread..].
  apply Nat.ltb_lt in Hshort. now rewrite Hshort.
Qed.

Lemma parse_entry_thrown kind flags line e :
  parse_entry kind flags line = Thrown e -> e = TypeError \/ e = ReferenceError.
Proof.
  unfold parse_entry. destruct (split_spaces line !! 3) as [addition|];
    [|intros [= <-]; now left].
  destruct (parseRuleCodes flags _) as [codes|e'] eqn:Hcodes; cbn [of_result and_then].
  - destruct kind;
      repeat (first
        [ progress cbn [and_then compiled]
        | match goal with
          | |- context [regexp_test ?s] => destruct (regexp_test s)
          | |- context [regexp_strip ?s] => destruct (regexp_strip s)
          | |- context [bool_decide (?x = Some ?y)] => destruct (bool_decide (x = Some y))
          | |- context [match split_spaces line !! 2 with _ => _ end] =>
              destruct (split_spaces line !! 2) as [[|? ?]|]
          end ]);
      discriminate.
  - intros [= <-]. right.
    unfold parseRuleCodes in Hcodes.
    destruct (JsString.split_on "/" addition !! 1) as [[|? ?]|]; try discriminate.
    destruct (flags !! "FLAG"); [|discriminate].
    repeat destruct (bool_decide _); try discriminate. now injection Hcodes.
Qed.

(** X16: A block whose header announces more lines than the file has after
    it makes [parseAFF] throw; a COMPOUNDRULE block throws a TypeError. The
    lines in front of the header are directives. *)
Theorem parseAFF_block_overrun fuel flags data ds header rest n :
  JsString.split_on "010" (removeAffixComments data) = ds ++ header :: rest ->
  Forall (fun line => directive line = true) ds ->
  length ds < fuel ->
  ((keyword header = "PFX" \/ keyword header = "SFX")
   /\ parseInt (split_spaces header !! 3) = Some n)
  \/ (keyword header = "COMPOUNDRULE" /\ parseInt (split_spaces header !! 1) = Some n) ->
  (Z.of_nat (length rest) < n)%Z ->
  (keyword header = "COMPOUNDRULE" -> parseAFF fuel flags data = Thrown TypeError)
  /\ (parseAFF fuel flags data = Thrown TypeError
      \/ parseAFF fuel flags data = Thrown ReferenceError
      \/ parseAFF fuel flags data = SyntaxError).
Proof.
  intros Hlines Hds Hfuel Hheader Hshort.
  replace fuel with (length ds + S (fuel - length ds - 1)) by lia.
  rewrite (parseAFF_header _ _ _ _ _ _ Hlines Hds).
  assert (Hrest : length rest < Z.to_nat n) by lia.
  unfold parseAFF_line. rewrite drop_past_header.
  destruct Hheader as [[Hk Hn] | [Hk Hn]].
  - rewrite (keyword_block _ Hk), Hn. split.
    { intros Hc. destruct Hk as [Hk | Hk]; rewrite Hk in Hc; discriminate Hc. }
    match goal with
    | |- context [block ?body (Some n) rest] =>
        pose proof (block_overrun body (fun e => e = TypeError \/ e = ReferenceError)
                      True n rest (or_introl eq_refl)
                      (fun l e => parse_entry_thrown _ _ l e) (fun _ _ => I) Hrest)
          as Hblock;
        destruct (block body (Some n) rest) as [entries|e|]
    end; cbn [and_then].
    + destruct Hblock.
    + destruct Hblock as [-> | ->]; auto.
    + auto.
  - destruct (keyword_compound _ Hk) as [-> ->]. rewrite Hn.
    match goal with
    | |- context [block ?body (Some n) rest] =>
        assert (Hblock : match block body (Some n) rest with
                         | Returned _ => False
                         | Thrown e => e = TypeError
                         | SyntaxError => False
                         end)
          by (apply block_overrun; [reflexivity | discriminate | discriminate | exact Hrest]);
        destruct (block body (Some n) rest) as [texts|e|]
    end; cbn [and_then]; try destruct Hblock.
    auto.
Qed.

End AffixBlocks.

(** ** Engines of word lists *)

Lemma flag_line_parts line :
  flag_line line = true ->
  plain_line line = true /\ plain_line (uncomment line) = true
  /\ directive (uncomment line) = true
  /\ argument (uncomment line) <> Some "__proto__".
Proof.
  unfold flag_line.
  intros [[[H1 H2]%andb_prop H3]%andb_prop H5]%andb_prop.
  apply negb_true_iff, bool_decide_eq_false in H5.
  now repeat split.
Qed.

Lemma last_directive_In name ds line :
  last_directive name ds = Some line -> In line ds.
Proof.
  induction ds as [|d ds IH]; [discriminate|]. cbn [last_directive].
  destruct (last_directive name ds) as [later|].
  - intros [= <-]. right. now apply IH.
  - destruct (bool_decide _); [|discriminate]. intros [= <-]. now left.
Qed.

Lemma trim_plain_lines lines :
  Forall (fun line => plain_line line = true) lines ->
  map JsString.trim lines = lines.
Proof.
  induction 1 as [|line lines Hline _ IH]; [reflexivity|].
  cbn [map]. now rewrite (trim_plain_line line Hline), IH.
Qed.

Section WordLists.
Context `{JsRegExp} `{JsRuntime}.

(** X19: From an affix file whose lines set flags, none of them to
    [__proto__], and a dictionary of plain lines without [/], none of
    which is [__proto__] or [hasOwnProperty], the constructor returns an
    engine, and the engine accepts each word listed after the first line
    of the dictionary. *)
Theorem engine_of_word_list fuel language flags0 setting settings count words :
  language <> "" ->
  flags0 !! "ONLYINCOMPOUND" <> Some "__proto__" ->
  Forall (fun line => flag_line line = true) (setting :: settings) ->
  Forall (fun line => plain_line line = true) (count :: words) ->
  Forall (fun line => no_slash line = true) words ->
  "__proto__" ∉ words ->
  "hasOwnProperty" ∉ words ->
  length (setting :: settings) < fuel ->
  exists st,
    construct fuel language (join_lines (setting :: settings))
      (join_lines (count :: words)) flags0 = Some (Returned st)
    /\ forall word, In word words -> check st word = Ok true.
Proof.
  intros Hlang Hflags0 Hsettings Hplain Hbare Hproto Hown Hfuel.
  assert (Hparts : forall line, In line (setting :: settings) ->
            plain_line line = true /\ plain_line (uncomment line) = true
            /\ directive (uncomment line) = true
            /\ argument (uncomment line) <> Some "__proto__").
  { intros line Hin. apply flag_line_parts.
    rewrite Forall_forall in Hsettings. now apply Hsettings, list_elem_of_In. }
  assert (Hlines : Forall (fun l => plain_line l = true) (setting :: settings))
    by (apply Forall_forall; intros l Hl%list_elem_of_In; now apply Hparts).
  assert (Hun : Forall (fun l => plain_line (uncomment l) = true) (setting :: settings))
    by (apply Forall_forall; intros l Hl%list_elem_of_In; now apply Hparts).
  assert (Hdir : Forall (fun l => directive l = true) (map uncomment (setting :: settings))).
  { apply Forall_forall. intros l Hl%list_elem_of_In. apply in_map_iff in Hl as (l0 & <- & Hl0).
    now apply Hparts. }
  assert (Hwords : Forall (fun line => plain_line line = true) words)
    by now inversion Hplain.
  pose proof (parseAFF_directives fuel flags0 _ _ (affix_lines _ _ Hlines Hun) Hdir) as Haff.
  rewrite length_map in Haff. specialize (Haff Hfuel).
  set (fl := foldl set_flag (Some <$> flags0) (map uncomment (setting :: settings))) in *.
  assert (Honly : fl !! "ONLYINCOMPOUND" <> Some (Some "__proto__")).
  { unfold fl. rewrite foldl_set_flag by discriminate.
    destruct (last_directive _ _) as [l|] eqn:El.
    - apply last_directive_In, in_map_iff in El as (l0 & <- & Hl0).
      intros [= E]. now apply (Hparts l0 Hl0).
    - rewrite lookup_fmap. destruct (flags0 !! "ONLYINCOMPOUND") as [v|] eqn:E;
        [|discriminate]. intros [= ->]. now apply Hflags0. }
  rewrite <- (trim_plain_lines words Hwords) in Hproto, Hown.
  destruct (parseDIC_lines_bare fuel (defined_flags fl) ∅ words Hbare Hproto Hown
              {| table := ∅; compoundRuleCodes := tracked_codes ∅ fl |}
              all_null_empty callable_empty)
    as (t & Et & _ & Hlookup).
  assert (Hst : construct fuel language (join_lines (setting :: settings))
                  (join_lines (count :: words)) flags0
                = Some (Returned {| dictionaryTable := t;
                                    compoundRules := [];
                                    replacementTable := [];
                                    flags := fl;
                                    memoized := ∅;
                                    loaded := true;
                                    alphabet := "" |})).
  { unfold construct. rewrite (bool_decide_eq_false_2 _ Hlang).
    rewrite (bool_decide_eq_false_2 (join_lines (setting :: settings) = ""))
      by (apply join_lines_nonempty;
          now destruct (plain_line_parts setting
                          (proj1 (Hparts setting (or_introl eq_refl))))).
    rewrite (bool_decide_eq_false_2 (join_lines (count :: words) = ""))
      by (apply join_lines_nonempty; inversion Hplain; subst;
          now destruct (plain_line_parts count)).
    cbn [orb]. rewrite Haff.
    cbn [Affix.flags Affix.compoundRules rule_codes for_each].
    rewrite (bool_decide_eq_false_2 _ Honly).
    unfold build. cbn [Affix.flags Affix.compoundRules Affix.rules Affix.replacementTable].
    rewrite (dictionary_lines count words Hplain). unfold parseDIC.
    change (drop 1 (count :: words)) with words. rewrite Et.
    reflexivity. }
  eexists. split; [exact Hst|]. intros word Hin.
  assert (Hline : plain_line word = true).
  { rewrite Forall_forall in Hwords. apply Hwords. now apply list_elem_of_In. }
  apply null_word_accepted; [reflexivity | exact Hline |].
  cbn [dictionaryTable]. rewrite Hlookup.
  rewrite bool_decide_eq_true_2; [reflexivity|].
  rewrite <- (trim_plain_line word Hline) at 1.
  apply list_elem_of_In, in_map, Hin.
Qed.

End WordLists.

(** ** Comment lines of a dictionary *)

Lemma drop_tab_lines_dropping body : forall text,
  all_chars (fun c => negb (Text.is_terminator c)) body = true ->
  Text.drop_tab_lines Text.Dropping (body +:+ text)
  = Text.drop_tab_lines Text.Dropping text.
Proof.
  induction body as [|c body IH]; intros text Hb; [reflexivity|].
  cbn [all_chars] in Hb. apply andb_prop in Hb as [Hc Hb]. apply negb_true_iff in Hc.
  change (String c body +:+ text) with (String c (body +:+ text)).
  cbn [Text.drop_tab_lines]. rewrite Hc. now apply IH.
Qed.

Lemma terminator_not_tab c : Text.is_terminator c = true -> Ascii.eqb c "009" = false.
Proof.
  destruct c as [[] [] [] [] [] [] [] []]; vm_compute; intros E;
    try discriminate E; reflexivity.
Qed.

Lemma drop_tab_lines_comment body text :
  all_chars (fun c => negb (Text.is_terminator c)) body = true ->
  line_ends_before text = true ->
  Text.drop_tab_lines Text.LineStart (String "009" body +:+ text)
  = Text.drop_tab_lines Text.LineStart text.
Proof.
  intros Hb Ht.
  change (String "009" body +:+ text) with (String "009" (body +:+ text)).
  cbn [Text.drop_tab_lines]. change (Ascii.eqb "009" "009") with true. cbv iota.
  rewrite (drop_tab_lines_dropping body text Hb).
  destruct text as [|t text]; [reflexivity|]. cbn [line_ends_before] in Ht.
  cbn [Text.drop_tab_lines]. rewrite Ht, (terminator_not_tab t Ht).
  unfold Text.after. now rewrite Ht.
Qed.

Lemma drop_tab_lines_after before : forall state x y,
  line_starts_after before = true ->
  (before = "" -> state = Text.LineStart) ->
  Text.drop_tab_lines Text.LineStart x = Text.drop_tab_lines Text.LineStart y ->
  Text.drop_tab_lines state (before +:+ x) = Text.drop_tab_lines state (before +:+ y).
Proof.
  induction before as [|c rest IH]; intros state x y Hends Hstate Hxy.
  { now rewrite (Hstate eq_refl). }
  change (String c rest +:+ x) with (String c (rest +:+ x)).
  change (String c rest +:+ y) with (String c (rest +:+ y)).
  assert (Hrest : line_starts_after rest = true).
  { destruct rest as [|d rest']; [reflexivity | exact Hends]. }
  assert (Hc : rest = "" -> Text.is_terminator c = true).
  { intros ->. exact Hends. }
  assert (Hafter : rest = "" -> Text.after c = Text.LineStart).
  { intros E. unfold Text.after. now rewrite (Hc E). }
  destruct state; cbn [Text.drop_tab_lines].
  - destruct (Ascii.eqb c "009") eqn:Htab.
    + apply (IH _ _ _ Hrest); [|exact Hxy]. intros E.
      rewrite (terminator_not_tab c (Hc E)) in Htab. discriminate Htab.
    + f_equal. now apply (IH _ _ _ Hrest).
  - f_equal. now apply (IH _ _ _ Hrest).
  - destruct (Text.is_terminator c) eqn:Ht.
    + f_equal. now apply (IH _ _ _ Hrest).
    + apply (IH _ _ _ Hrest); [|exact Hxy]. intros E. specialize (Hc E). congruence.
Qed.

(** X11: A line of a dictionary that starts with a tab is read as an empty
    line: the cleaned text is the one of the dictionary without the
    characters of that line, whatever they are. *)
Theorem removeDicComments_ignores_tab_line before body text :
  line_starts_after before = true ->
  all_chars (fun c => negb (Text.is_terminator c)) body = true ->
  line_ends_before text = true ->
  removeDicComments (before +:+ String "009" body +:+ text)
  = removeDicComments (before +:+ text).
Proof.
  intros Hbefore Hbody Htext. unfold removeDicComments. f_equal.
  apply drop_tab_lines_after; [exact Hbefore | reflexivity|].
  now apply drop_tab_lines_comment.
Qed.

(** ** The properties on concrete files *)

(** The directive KEEPCASE is written without value: [hasFlag] finds it
    on the word constructor, which the table does not hold. *)
Lemma constructed_engine_flags_witness :
  let st := {| dictionaryTable := {| own := {["cat" := null; "dog" := null]};
                                     prototype := ObjectPrototype |};
               compoundRules := [];
               replacementTable := [];
               flags := {["KEEPCASE" := None; "NOSUGGEST" := Some "N"]};
               memoized := ∅;
               loaded := true;
               alphabet := "" |} in
  loaded st = true
  /\ memoized st = ∅
  /\ (forall word flag,
        word <> "__proto__" ->
        hasFlag st word flag None
        = Ok (bool_decide (flags st !! flag = Some None)
              && reads_arguments (dictionaryTable st) word))
  /\ (forall word,
        word <> "__proto__" ->
        is_Some (dictionaryTable st !! word) ->
        checkExact st word = Ok true).
Proof.
  apply (constructed_engine_flags 5 "en" (join_lines ["KEEPCASE"; "NOSUGGEST N"])
           (join_lines ["2"; "cat"; "dog"]) ∅).
  - discriminate.
  - vm_compute. reflexivity.
Defined.

(** The last word of the dictionary is [__proto__]: the table of the
    engine has lost its prototype, and the words before it are accepted. *)
Lemma constructed_engine_accepts_its_words_witness :
  let st := {| dictionaryTable := {| own := {["cat" := null; "hot dog" := null]};
                                     prototype := NoPrototype |};
               compoundRules := [];
               replacementTable := [("teh", "the")];
               flags := {["KEEPCASE" := Some "K"]};
               memoized := ∅;
               loaded := true;
               alphabet := "" |} in
  check st "cat" = Ok true /\ check st "hot dog" = Ok true.
Proof.
  intros st.
  assert (Hwords : forall word, In word ["cat"; "hot dog"; "__proto__"] ->
                     word <> "__proto__" -> check st word = Ok true).
  { apply (constructed_engine_accepts_its_words 5 "en"
             (join_lines ["KEEPCASE K"; "REP teh the"]) ∅ "3"
             ["cat"; "hot dog"; "__proto__"]).
    - discriminate.
    - repeat constructor.
    - repeat constructor.
    - vm_compute. reflexivity. }
  split; apply Hwords; try discriminate; [left | right; left]; reflexivity.
Defined.

(** The word [__proto__] itself is not accepted there: it is not stored,
    and a table without prototype reads it as undefined. *)
Lemma constructed_engine_rejects_proto :
  exists st,
    construct 5 "en" (join_lines ["KEEPCASE K"; "REP teh the"])
      (join_lines ["3"; "cat"; "hot dog"; "__proto__"]) ∅ = Some (Returned st)
    /\ dictionaryTable st !! "__proto__" = None
    /\ prototype (dictionaryTable st) = NoPrototype
    /\ check st "__proto__" = Ok false.
Proof. eexists. by_evaluation. Qed.

Lemma flagged_dictionary_needs_needaffix_witness :
  let st := {| dictionaryTable := {| own := {["dog" := null]};
                                     prototype := ObjectPrototype |};
               compoundRules := [];
               replacementTable := [];
               flags := {["NEEDAFFIX" := Some "N"]};
               memoized := ∅;
               loaded := true;
               alphabet := "" |} in
  exists needaffix rc,
    flags st !! "NEEDAFFIX" = Some (Some needaffix)
    /\ parseRuleCodes (defined_flags (flags st)) (Some "SN") = Ok rc
    /\ needaffix ∈ rc.
Proof.
  apply (flagged_dictionary_needs_needaffix 5 "en" (join_lines ["NEEDAFFIX N"]) ∅
           ["2"; "cat/SN"; "dog"] "cat" "SN").
  - discriminate.
  - repeat constructor.
  - discriminate.
  - reflexivity.
  - reflexivity.
  - discriminate.
  - left. reflexivity.
  - vm_compute. reflexivity.
Defined.

Lemma parseAFF_reads_commented_directives_witness :
  exists aff,
    parseAFF 5 {["KEEPCASE" := "J"]} (join_lines ["#FLAG long"; "KEEPCASE K"; "KEEPCASE L"])
    = Returned aff
    /\ Affix.rules aff = ∅
    /\ Affix.compoundRules aff = []
    /\ Affix.replacementTable aff = []
    /\ forall name, name <> "__proto__" ->
         Affix.flags aff !! name
         = match last_directive name (map uncomment ["#FLAG long"; "KEEPCASE K"; "KEEPCASE L"]) with
           | Some l => Some (argument l)
           | None => Some <$> ({["KEEPCASE" := "J"]} : gmap string string) !! name
           end.
Proof.
  apply (parseAFF_reads_commented_directives 5 {["KEEPCASE" := "J"]}
           "#FLAG long" ["KEEPCASE K"; "KEEPCASE L"]).
  - repeat constructor.
  - repeat constructor.
  - repeat constructor.
  - cbn. lia.
Defined.

Lemma parseAFF_stops_at_bad_count_witness :
  exists aff,
    parseAFF 5 ∅ (join_lines ["KEEPCASE K"; "SFX S Y"; "SFX S 0 s ."; "REP teh the"])
    = Returned aff
    /\ (forall code rule, Affix.rules aff !! code = Some rule -> entries rule = [])
    /\ Affix.compoundRules aff = []
    /\ Affix.replacementTable aff = []
    /\ forall data' rest',
         JsString.split_on "010" (removeAffixComments data')
         = ["KEEPCASE K"] ++ "SFX S Y" :: rest' ->
         parseAFF 5 ∅ data' = Returned aff.
Proof.
  apply (parseAFF_stops_at_bad_count 5 ∅
           (join_lines ["KEEPCASE K"; "SFX S Y"; "SFX S 0 s ."; "REP teh the"])
           ["KEEPCASE K"] "SFX S Y" ["SFX S 0 s ."; "REP teh the"]).
  - vm_compute. reflexivity.
  - repeat constructor.
  - cbn. lia.
  - left. split; [right|]; reflexivity.
Defined.

Lemma parseAFF_block_overrun_witness :
  let data := join_lines ["KEEPCASE K"; "COMPOUNDRULE 2"; "COMPOUNDRULE ab"] in
  (keyword "COMPOUNDRULE 2" = "COMPOUNDRULE" -> parseAFF 5 ∅ data = Thrown TypeError)
  /\ (parseAFF 5 ∅ data = Thrown TypeError
      \/ parseAFF 5 ∅ data = Thrown ReferenceError
      \/ parseAFF 5 ∅ data = SyntaxError).
Proof.
  apply (parseAFF_block_overrun 5 ∅
           (join_lines ["KEEPCASE K"; "COMPOUNDRULE 2"; "COMPOUNDRULE ab"])
           ["KEEPCASE K"] "COMPOUNDRULE 2" ["COMPOUNDRULE ab"] 2).
  - vm_compute. reflexivity.
  - repeat constructor.
  - cbn. lia.
  - right. split; reflexivity.
  - cbn. lia.
Defined.

Lemma engine_of_word_list_witness :
  exists st,
    construct 5 "en" (join_lines ["SET UTF-8"; "#KEEPCASE K"; "NOSUGGEST"])
      (join_lines ["2"; "cat"; "hot dog"]) ∅ = Some (Returned st)
    /\ forall word, In word ["cat"; "hot dog"] -> check st word = Ok true.
Proof.
  apply (engine_of_word_list 5 "en" ∅ "SET UTF-8" ["#KEEPCASE K"; "NOSUGGEST"] "2"
           ["cat"; "hot dog"]).
  - discriminate.
  - discriminate.
  - repeat constructor.
  - repeat constructor.
  - repeat constructor.
  - intros Hin.
    repeat (apply elem_of_cons in Hin as [Hin | Hin]; [discriminate Hin|]).
    now apply not_elem_of_nil in Hin.
  - intros Hin.
    repeat (apply elem_of_cons in Hin as [Hin | Hin]; [discriminate Hin|]).
    now apply not_elem_of_nil in Hin.
  - cbn. lia.
Defined.

Lemma removeDicComments_ignores_tab_line_witness :
  removeDicComments
    (String "2" (String "010" "") +:+ String "009" "a comment"
     +:+ String "010" "cat")
  = removeDicComments (String "2" (String "010" "") +:+ String "010" "cat").
Proof.
  apply (removeDicComments_ignores_tab_line (String "2" (String "010" ""))
           "a comment" (String "010" "cat")); reflexivity.
Defined.

(** ** The words of a page *)

Lemma strip_quotes_start_quotes quotes word :
  all_chars (Ascii.eqb "'") quotes = true ->
  strip_quotes_start (quotes +:+ word) = strip_quotes_start word.
Proof.
  induction quotes as [|c quotes IH]; [reflexivity|].
  cbn [all_chars]. intros [Hc Hq]%andb_prop. apply Ascii.eqb_eq in Hc as <-.
  change (String "'" quotes +:+ word) with (String "'" (quotes +:+ word)).
  cbn [strip_quotes_start]. now apply IH.
Qed.

Lemma strip_quotes_end_quotes quotes :
  all_chars (Ascii.eqb "'") quotes = true -> strip_quotes_end quotes = "".
Proof.
  induction quotes as [|c quotes IH]; [reflexivity|].
  cbn [all_chars]. intros [Hc Hq]%andb_prop. apply Ascii.eqb_eq in Hc as <-.
  cbn [strip_quotes_end]. now rewrite (IH Hq).
Qed.

Lemma strip_quotes_end_append word quotes :
  all_chars (Ascii.eqb "'") quotes = true ->
  strip_quotes_end (word +:+ quotes) = strip_quotes_end word.
Proof.
  intros Hq. induction word as [|c word IH].
  - now apply strip_quotes_end_quotes.
  - change (String c word +:+ quotes) with (String c (word +:+ quotes)).
    cbn [strip_quotes_end]. now rewrite IH.
Qed.

Lemma all_chars_append p a b :
  all_chars p (a +:+ b) = all_chars p a && all_chars p b.
Proof.
  induction a as [|c a IH]; [reflexivity|].
  change (String c a +:+ b) with (String c (a +:+ b)). cbn [all_chars].
  now rewrite IH, andb_assoc.
Qed.

Lemma quotes_in_line quotes :
  all_chars (Ascii.eqb "'") quotes = true ->
  all_chars (fun c => negb (Text.is_terminator c)) quotes = true.
Proof.
  apply all_chars_impl. intros c <-%Ascii.eqb_eq. reflexivity.
Qed.

Lemma index_of_from_absent c word : forall i,
  all_chars (fun x => negb (Ascii.eqb x c)) word = true ->
  JsString.index_of_from i (String c "") word = None.
Proof.
  induction word as [|x word IH]; intros i Hw.
  - reflexivity.
  - cbn [all_chars] in Hw. apply andb_prop in Hw as [Hx Hw]. apply negb_true_iff in Hx.
    cbn [JsString.index_of_from String.prefix].
    destruct (ascii_dec c x) as [->|Hne]; [now rewrite Ascii.eqb_refl in Hx|].
    now apply IH.
Qed.

Lemma strip_quotes_start_word word rest :
  word <> "" -> starts_with_quote word = false ->
  strip_quotes_start (word +:+ rest) = word +:+ rest.
Proof.
  destruct word as [|c word]; [congruence|]. intros _ Hs.
  change (String c word +:+ rest) with (String c (word +:+ rest)).
  destruct c as [[] [] [] [] [] [] [] []]; try reflexivity. discriminate Hs.
Qed.

Lemma strip_quotes_end_word word :
  ends_with_quote word = false -> strip_quotes_end word = word.
Proof.
  induction word as [|c word IH]; [reflexivity|].
  cbn [ends_with_quote strip_quotes_end]. destruct word as [|d word].
  - intros ->. reflexivity.
  - intros Hw. now rewrite (IH Hw).
Qed.

(** The cleaning of a word in apostrophes: what is between them. *)
Lemma clean_quoted opening word closing :
  all_chars (Ascii.eqb "'") opening = true ->
  all_chars (Ascii.eqb "'") closing = true ->
  all_chars (fun c => negb (Text.is_terminator c) && negb (Ascii.eqb c "_")) word = true ->
  starts_with_quote word = false ->
  ends_with_quote word = false ->
  clean (opening +:+ word +:+ closing) = word.
Proof.
  intros Ho Hc Hw Hs He. unfold clean.
  assert (Hline : all_chars (fun c => negb (Text.is_terminator c)) word = true).
  { revert Hw. apply all_chars_impl. now intros c [H1 _]%andb_prop. }
  assert (Hunder : all_chars (fun c => negb (Ascii.eqb c "_")) word = true).
  { revert Hw. apply all_chars_impl. now intros c [_ H2]%andb_prop. }
  rewrite !all_chars_append, (quotes_in_line _ Ho), (quotes_in_line _ Hc), Hline.
  cbn [andb].
  rewrite (strip_quotes_start_quotes opening _ Ho).
  assert (E : strip_quotes_end (strip_quotes_start (word +:+ closing)) = word).
  { destruct (decide (word = "")) as [->|Hne].
    - change ("" +:+ closing) with closing.
      rewrite <- (append_empty_r closing).
      now rewrite (strip_quotes_start_quotes closing "" Hc).
    - rewrite (strip_quotes_start_word word closing Hne Hs).
      rewrite (strip_quotes_end_append word closing Hc).
      now apply strip_quotes_end_word. }
  rewrite E. unfold JsString.replace_first, JsString.index_of.
  now rewrite (index_of_from_absent "_" word 0 Hunder).
Qed.

(** X22: A word of the page that is written between apostrophes is checked
    without them: when [check] accepts the word, the page does not mark the
    quoted word. *)
Theorem quoted_word_is_not_marked st opening word closing :
  all_chars (Ascii.eqb "'") opening = true ->
  all_chars (Ascii.eqb "'") closing = true ->
  all_chars (fun c => negb (Text.is_terminator c) && negb (Ascii.eqb c "_")) word = true ->
  starts_with_quote word = false ->
  ends_with_quote word = false ->
  check st word = Ok true ->
  misspelled st (opening +:+ word +:+ closing) = Ok false.
Proof.
  intros Ho Hc Hw Hs He Hcheck. unfold misspelled.
  now rewrite (clean_quoted opening word closing Ho Hc Hw Hs He), Hcheck.
Qed.

Lemma quoted_word_is_not_marked_witness :
  misspelled cat_engine "''cat'" = Ok false.
Proof.
  apply (quoted_word_is_not_marked cat_engine "''" "cat" "'"); reflexivity.
Defined.

(** X23: A word of the page made of apostrophes only is cleaned to the empty
    word, and the test that marks the words of the page throws a TypeError
    on it, on an engine whose table holds neither the empty word nor the
    word undefined and that has no COMPOUNDMIN. *)
Theorem apostrophes_make_the_page_check_throw st word :
  loaded st = true ->
  all_chars (Ascii.eqb "'") word = true ->
  dictionaryTable st !! "" = None ->
  dictionaryTable st !! "undefined" = None ->
  flags st !! "COMPOUNDMIN" = None ->
  misspelled st word = Throw TypeError.
Proof.
  intros Hl Hw He Hu Hc. unfold misspelled.
  assert (E : clean word = "").
  { pose proof (clean_quoted word "" "" Hw eq_refl eq_refl eq_refl eq_refl) as E.
    change ("" +:+ "") with "" in E. now rewrite append_empty_r in E. }
  rewrite E, (check_blank_throws st "" Hl eq_refl He Hu Hc). reflexivity.
Qed.

Lemma apostrophes_make_the_page_check_throw_witness :
  misspelled cat_engine "''" = Throw TypeError.
Proof.
  apply (apostrophes_make_the_page_check_throw cat_engine "''"); reflexivity.
Defined.
